(** * Redis bridge plugin: circuit breaker, rate limiter, message splitter,
      inbound hook, tool form and outbound worker.

    A shallow embedding of the TypeScript sources of
    [extensions/redis-bridge] and the properties proved about them.

    Conventions.
    - JavaScript numbers that the code only uses as counters, lengths and
      millisecond timestamps are integers of [Z].
    - [Date.now()] is never read inside a definition: every function that
      reads the clock takes the reading as an argument, one argument per
      reading that the source uses.
    - The per-agent [Map] of the rate limiter is a [gmap].
    - Agent ids, stream fields and messages are [string]s, read as
      sequences of code units below 256; the message splitter is generic in
      the character type and is also instantiated on UTF-16 code units.
    - The effects of the hook, of the tool and of the worker are written in
      a state-and-exception monad over a trace of events; what the broker,
      the clock and the other surroundings answer during a run is an
      argument of the run. *)

From Stdlib Require Import ZArith List String Ascii Bool Lia DecimalString Sorted.
From stdpp Require Import base gmap strings list.
Import ListNotations.
Set Warnings "-register-all".
Local Open Scope string_scope.
Local Open Scope list_scope.
Local Open Scope Z_scope.

(** Decimal rendering of an integer, as [Number.prototype.toString] and a
    template literal render it. *)
Definition string_of_Z (z : Z) : string := NilZero.string_of_int (Z.to_int z).

(* ===================================================================== *)
(** ** circuit-breaker.ts *)
(* ===================================================================== *)

Module CircuitBreaker.

Inductive CircuitState := closed | open | half_open.

Record CircuitBreakerOptions := {
  threshold : option Z;
  cooldownMs : option Z;
}.

Definition DEFAULT_THRESHOLD : Z := 5.
Definition DEFAULT_COOLDOWN_MS : Z := 15000.

(** The two constants captured by the closure of [createCircuitBreaker]. *)
Record Config := {
  cfg_threshold : Z;
  cfg_cooldownMs : Z;
}.

(** The two mutable variables of the closure. *)
Record State := {
  failures : Z;
  openedAt : Z;
}.

Definition resolve (opts : option CircuitBreakerOptions) : Config :=
  {| cfg_threshold :=
       match opts with
       | Some o => match threshold o with Some t => t | None => DEFAULT_THRESHOLD end
       | None => DEFAULT_THRESHOLD
       end;
     cfg_cooldownMs :=
       match opts with
       | Some o => match cooldownMs o with Some c => c | None => DEFAULT_COOLDOWN_MS end
       | None => DEFAULT_COOLDOWN_MS
       end |}.

Definition createCircuitBreaker (opts : option CircuitBreakerOptions) : Config * State :=
  (resolve opts, {| failures := 0; openedAt := 0 |}).

Definition getState (c : Config) (now : Z) (b : State) : CircuitState :=
  if failures b <? cfg_threshold c then closed
  else
    let elapsed := now - openedAt b in
    if cfg_cooldownMs c <=? elapsed then half_open else open.

Definition recordSuccess (b : State) : State :=
  {| failures := 0; openedAt := 0 |}.

(** [now] is read only when the incremented count has reached the
    threshold. *)
Definition recordFailure (c : Config) (now : Z) (b : State) : State :=
  let failures' := failures b + 1 in
  {| failures := failures';
     openedAt := if cfg_threshold c <=? failures' then now else openedAt b |}.

Definition state_eqb (x y : CircuitState) : bool :=
  match x, y with
  | closed, closed | open, open | half_open, half_open => true
  | _, _ => false
  end.

Definition isOpen (c : Config) (now : Z) (b : State) : bool :=
  state_eqb (getState c now b) open.

Definition isHalfOpen (c : Config) (now : Z) (b : State) : bool :=
  state_eqb (getState c now b) half_open.

Definition consecutiveFailures (b : State) : Z := failures b.

End CircuitBreaker.

(* ===================================================================== *)
(** ** rate-limiter.ts *)
(* ===================================================================== *)

Module RateLimiter.

Record RateLimiterConfig := {
  maxRequestsPerHour : Z;
  maxRequestsPerAgentPerHour : Z;
  alertChatId : string;
  alertCooldownSeconds : Z;
}.

Record WindowEntry := { timestamp : Z }.

(** The closure variables [globalWindow], [agentWindows], [lastAlertAt]. *)
Record State := {
  globalWindow : list WindowEntry;
  agentWindows : gmap string (list WindowEntry);
  lastAlertAt : Z;
}.

Definition createRateLimiter : State :=
  {| globalWindow := []; agentWindows := ∅; lastAlertAt := 0 |}.

Definition WINDOW_MS : Z := 3600000.

(** [while (window.length > 0 && window[0].timestamp < cutoff) window.shift()] *)
Fixpoint pruneWindow (now : Z) (window : list WindowEntry) : list WindowEntry :=
  match window with
  | [] => []
  | e :: rest =>
      if timestamp e <? now - WINDOW_MS then pruneWindow now rest else window
  end.

(** [getAgentWindow] returns the array stored for the agent, storing an
    empty one first when there is none. *)
Definition getAgentWindow (agentId : string) (m : gmap string (list WindowEntry))
  : list WindowEntry * gmap string (list WindowEntry) :=
  match m !! agentId with
  | Some w => (w, m)
  | None => ([], <[agentId := []]> m)
  end.

Definition agentLimitMessage (cfg : RateLimiterConfig) (agentId : string) : string :=
  "Rate limit: agent " +:+ agentId +:+ " a atteint "
    +:+ string_of_Z (maxRequestsPerAgentPerHour cfg)
    +:+ " requetes/heure. Reessaie dans quelques minutes.".

Definition globalLimitMessage (cfg : RateLimiterConfig) : string :=
  "Rate limit: le systeme a atteint "
    +:+ string_of_Z (maxRequestsPerHour cfg)
    +:+ " requetes/heure. Reessaie dans quelques minutes.".

(** [check]: [nowG] is the clock reading of the prune of the global window,
    [nowA] the one of the prune of the agent's window.  The arrays are
    mutated in place, so the pruned windows are written back. *)
Definition check (cfg : RateLimiterConfig) (nowG nowA : Z) (agentId : string)
    (s : State) : option string * State :=
  let g := pruneWindow nowG (globalWindow s) in
  let '(w, m) := getAgentWindow agentId (agentWindows s) in
  let a := pruneWindow nowA w in
  let s' := {| globalWindow := g;
               agentWindows := <[agentId := a]> m;
               lastAlertAt := lastAlertAt s |} in
  if maxRequestsPerAgentPerHour cfg <=? Z.of_nat (length a)
  then (Some (agentLimitMessage cfg agentId), s')
  else if maxRequestsPerHour cfg <=? Z.of_nat (length g)
  then (Some (globalLimitMessage cfg), s')
  else (None, s').

Definition record (now : Z) (agentId : string) (s : State) : State :=
  let entry := {| timestamp := now |} in
  let '(w, m) := getAgentWindow agentId (agentWindows s) in
  {| globalWindow := globalWindow s ++ [entry];
     agentWindows := <[agentId := w ++ [entry]]> m;
     lastAlertAt := lastAlertAt s |}.

(** Clock readings of one run of [stats]: one for the global window and one
    for the window of each agent. *)
Record StatsClock := {
  sc_global : Z;
  sc_agent : string -> Z;
}.

Record Stats := {
  globalCount : Z;
  byAgent : gmap string Z;
}.

Definition stats (clk : StatsClock) (s : State) : Stats * State :=
  let g := pruneWindow (sc_global clk) (globalWindow s) in
  let m := map_imap (fun agent w => Some (pruneWindow (sc_agent clk agent) w))
                    (agentWindows s) in
  ({| globalCount := Z.of_nat (length g);
      byAgent := omap (fun w => match w with
                                | [] => None
                                | _ :: _ => Some (Z.of_nat (length w))
                                end) m |},
   {| globalWindow := g; agentWindows := m; lastAlertAt := lastAlertAt s |}).

(** [sendAlert] as the hook calls it, with [cliBinary = null]: the function
    returns before it reaches the delivery CLI, so all that remains is the
    cooldown bookkeeping and the pruning done by [stats]. *)
Definition sendAlert_noCli (cfg : RateLimiterConfig) (now : Z) (clk : StatsClock)
    (s : State) : State :=
  if String.eqb (alertChatId cfg) "" then s
  else if now - lastAlertAt s <? alertCooldownSeconds cfg * 1000 then s
  else
    let s1 := {| globalWindow := globalWindow s;
                 agentWindows := agentWindows s;
                 lastAlertAt := now |} in
    snd (stats clk s1).

(** Vocabulary of the properties: an entry is stale at [now] when it is more
    than one hour old; [p] is [window] pruned when it is [window] without a
    leading run of stale entries and does not start with a stale one. *)
Definition stale (now : Z) (e : WindowEntry) : Prop :=
  timestamp e < now - WINDOW_MS.

Definition pruned_of (now : Z) (window p : list WindowEntry) : Prop :=
  exists old, window = old ++ p
    /\ Forall (stale now) old
    /\ match p with
       | e :: _ => ~ stale now e
       | [] => True
       end.

(** A window is in clock order when its timestamps never decrease, as they
    do when the clock never runs backwards; [fresh now window] keeps the
    entries of the last hour. *)
Definition clockOrdered (window : list WindowEntry) : Prop :=
  StronglySorted (fun x y => timestamp x <= timestamp y) window.

Definition fresh (now : Z) (window : list WindowEntry) : list WindowEntry :=
  List.filter (fun e => negb (timestamp e <? now - WINDOW_MS)) window.

(** The window an agent has: none yet counts as the empty one. *)
Definition windowOf (agentId : string) (s : State) : list WindowEntry :=
  default [] (agentWindows s !! agentId).

End RateLimiter.

(* ===================================================================== *)
(** ** listener.ts: splitMessage *)
(* ===================================================================== *)

Module Splitter.

Section Split.

(** The text is a sequence of characters of some type with a decidable
    equality, a class of white space (what [trimStart] and [trimEnd]
    remove) and a line feed.  JavaScript strings instantiate it with UTF-16
    code units below. *)
Context {char : Type}.
Variable ceqb : char -> char -> bool.
Variable is_ws : char -> bool.
Variable LF : char.

Fixpoint startsWith (pat s : list char) : bool :=
  match pat, s with
  | [], _ => true
  | p :: pat', c :: s' => ceqb p c && startsWith pat' s'
  | _ :: _, [] => false
  end.

(** Positions [k], [k-1], ..., [0] in turn. *)
Fixpoint lastIndexOf_down (pat s : list char) (k : nat) : option nat :=
  if startsWith pat (skipn k s) then Some k
  else match k with
       | O => None
       | S k' => lastIndexOf_down pat s k'
       end.

(** [s.lastIndexOf(pat, fromIndex)]: the greatest position not above
    [fromIndex] at which [pat] occurs in [s]; [None] stands for [-1]. *)
Definition lastIndexOf (s pat : list char) (fromIndex : nat) : option nat :=
  if (length s <? length pat)%nat then None
  else lastIndexOf_down pat s (Nat.min fromIndex (length s - length pat)).

Fixpoint trimStart (s : list char) : list char :=
  match s with
  | [] => []
  | c :: r => if is_ws c then trimStart r else s
  end.

Definition trimEnd (s : list char) : list char := rev (trimStart (rev s)).

(** [splitIdx > maxLen * 0.3], on exact numbers.  For [maxLen = 4000] the
    floating-point product is exactly [1200]. *)
Definition overThreshold (maxLen splitIdx : nat) : bool :=
  (3 * maxLen <? 10 * splitIdx)%nat.

(** A cut at the last occurrence of [sep] at or before [maxLen], when it is
    far enough from the start: the chunk and what remains. *)
Definition cutAt (sep : list char) (maxLen : nat) (remaining : list char)
  : option (list char * list char) :=
  match lastIndexOf remaining sep maxLen with
  | Some splitIdx =>
      if overThreshold maxLen splitIdx
      then Some (trimEnd (firstn splitIdx remaining),
                 trimStart (skipn (splitIdx + length sep) remaining))
      else None
  | None => None
  end.

(** One turn of the [while] loop. *)
Definition splitStep (maxLen : nat) (remaining : list char)
  : list char * list char :=
  match cutAt [LF; LF] maxLen remaining with
  | Some r => r
  | None =>
      match cutAt [LF] maxLen remaining with
      | Some r => r
      | None => (firstn maxLen remaining, skipn maxLen remaining)
      end
  end.

(** The [while] loop and the final push; [None] when the fuel runs out. *)
Fixpoint splitLoop (fuel maxLen : nat) (remaining : list char)
  : option (list (list char)) :=
  if (length remaining <=? maxLen)%nat then
    Some (match remaining with [] => [] | _ :: _ => [remaining] end)
  else
    match fuel with
    | O => None
    | S fuel' =>
        let '(chunk, rest) := splitStep maxLen remaining in
        match splitLoop fuel' maxLen rest with
        | Some chunks => Some (chunk :: chunks)
        | None => None
        end
    end.

Definition splitMessage (text : list char) (maxLen : nat)
  : option (list (list char)) :=
  if (length text <=? maxLen)%nat then Some [text]
  else splitLoop (length text) maxLen text.

(** Vocabulary of the properties: [reassembles chunks text] when [text] is
    the chunks in order, each followed by a (possibly empty) run of white
    space: the text up to white space removed at the chunk boundaries. *)
Inductive reassembles : list (list char) -> list char -> Prop :=
| reassembles_nil : reassembles [] []
| reassembles_cons (chunk gap : list char) (chunks : list (list char))
    (rest : list char) :
    Forall (fun c => is_ws c = true) gap ->
    reassembles chunks rest ->
    reassembles (chunk :: chunks) (chunk ++ gap ++ rest).

(** What one cut of the loop has to guarantee: the chunk fits, what remains
    is shorter, and only white space is lost in between. *)
Definition good_cut (maxLen : nat) (remaining : list char)
    (r : list char * list char) : Prop :=
  (length (fst r) <= maxLen)%nat
  /\ (length (snd r) < length remaining)%nat
  /\ exists gap,
       Forall (fun c => is_ws c = true) gap
       /\ remaining = fst r ++ gap ++ snd r.

End Split.

(** UTF-16 code units and the white space of [String.prototype.trim]
    (WhiteSpace and LineTerminator of ECMAScript). *)
Definition CodeUnit := N.

Definition js_is_ws (c : CodeUnit) : bool :=
  ((9 <=? c) && (c <=? 13) || (c =? 32) || (c =? 160) || (c =? 5760)
   || (8192 <=? c) && (c <=? 8202) || (c =? 8232) || (c =? 8233)
   || (c =? 8239) || (c =? 8287) || (c =? 12288) || (c =? 65279))%N.

Definition js_LF : CodeUnit := 10%N.

Definition splitMessage_js (text : list CodeUnit) (maxLen : nat) :=
  splitMessage N.eqb js_is_ws js_LF text maxLen.

(** The same on the byte strings used for stream fields. *)
Definition ascii_is_ws (c : ascii) : bool := js_is_ws (N_of_ascii c).

Definition splitMessage_string (text : string) (maxLen : nat)
  : option (list string) :=
  option_map (map string_of_list_ascii)
    (splitMessage Ascii.eqb ascii_is_ws "010"%char
       (list_ascii_of_string text) maxLen).

Definition MAX_MSG_LEN : nat := 4000.

End Splitter.

(* ===================================================================== *)
(** ** JavaScript values met by the bridge *)
(* ===================================================================== *)

Module Js.

(** What [JSON.parse] can return.  Numbers are integers; [undefined] is the
    [None] of an [option Value]. *)
Inductive Value :=
| Null
| Bool (b : bool)
| Num (n : Z)
| Str (s : string)
| Arr (items : list Value)
| Obj (fields : list (string * Value)).

(** A thrown [Error] and its [message]. *)
Inductive Exn := Error (message : string).

Definition message_of (e : Exn) : string := let 'Error m := e in m.

(** Later duplicate keys of a JSON object override earlier ones. *)
Fixpoint lookup_last (k : string) (fields : list (string * Value)) : option Value :=
  match fields with
  | [] => None
  | (k', v) :: rest =>
      match lookup_last k rest with
      | Some v' => Some v'
      | None => if String.eqb k k' then Some v else None
      end
  end.

(** [v.k] for the property names [error] and [text], which no array,
    string, number or boolean has: reading them from [null] throws a
    [TypeError], from an object it is a field lookup, from anything else it
    is [undefined]. *)
Definition getProp (v : Value) (k : string) : Exn + option Value :=
  match v with
  | Null => inl (Error ("Cannot read properties of null (reading '" +:+ k +:+ "')"))
  | Obj fields => inr (lookup_last k fields)
  | _ => inr None
  end.

Definition truthy (v : Value) : bool :=
  match v with
  | Null => false
  | Bool b => b
  | Num n => negb (n =? 0)
  | Str s => negb (String.eqb s "")
  | Arr _ | Obj _ => true
  end.

Definition truthy_opt (v : option Value) : bool :=
  match v with Some v => truthy v | None => false end.

(** [String(v)] and [`${v}`]. *)
Fixpoint toString (v : Value) : string :=
  match v with
  | Null => "null"
  | Bool true => "true"
  | Bool false => "false"
  | Num n => string_of_Z n
  | Str s => s
  | Arr items =>
      (fix join (l : list Value) : string :=
         match l with
         | [] => ""
         | [x] => match x with Null => "" | _ => toString x end
         | x :: rest =>
             (match x with Null => "" | _ => toString x end) +:+ "," +:+ join rest
         end) items
  | Obj _ => "[object Object]"
  end.

(** [a ?? b] *)
Definition nullish_or (a : option Value) (b : Value) : Value :=
  match a with
  | None | Some Null => b
  | Some v => v
  end.

(** [hay.includes(needle)] *)
Fixpoint includes (needle hay : string) : bool :=
  String.prefix needle hay
  || match hay with
     | EmptyString => false
     | String _ rest => includes needle rest
     end.

(** [s.trim()] *)
Definition trim (s : string) : string :=
  string_of_list_ascii
    (Splitter.trimEnd Splitter.ascii_is_ws
       (Splitter.trimStart Splitter.ascii_is_ws (list_ascii_of_string s))).

End Js.

(* ===================================================================== *)
(** ** types.ts, config.ts and the effects of the plugin *)
(* ===================================================================== *)

Module Bridge.

Definition PROTOCOL_VERSION : string := "1".
Definition STREAM_INBOUND : string := "bridge:inbound".
Definition STREAM_OUTBOUND : string := "bridge:outbound".
Definition RESPONSE_KEY_PREFIX : string := "bridge:response:".

Record RedisBridgeConfig := {
  agents : list string;
  redisUrl : string;
  timeoutSeconds : Z;
  consumerGroup : string;
  consumerName : string;
  contentPublisherUrl : string;
  contentPublisherToken : string;
  contentPublisherPublicUrl : string;
}.

(** [config.agents.includes(agentId)] *)
Definition isEngineAgent (agentId : string) (config : RedisBridgeConfig) : bool :=
  existsb (String.eqb agentId) (agents config).

(** The two connections that [register] opens: [redis], and [redisBlocking],
    the "dedicated connection for blocking BRPOP". *)
Inductive Client := redis | redisBlocking.

(** Broker commands, with the arguments of the call. *)
Inductive Command :=
| XADD (stream id : string) (args : list string)
| BRPOP (key : string) (timeout : Z)
| XACK (stream group id : string)
| XPENDING (stream group first last : string) (count : Z)
| XREADGROUP (args : list string)
| XGROUP (args : list string).

Inductive LogLevel := info | warn | error.

(** The log lines of the plugin, one constructor per call site, carrying
    the values interpolated into the message. *)
Inductive LogMsg :=
| RateLimited (agentId : string) (stats : RateLimiter.Stats)
| CircuitOpen (failures : Z)
| CircuitHalfOpen
| AutoRepairFailed (agentId correlationId : string) (failures : Z)
| AutoRepaired (agentId : string)
| Forwarding (agentId correlationId : string)
| EngineTimeout (timeoutSeconds : Z) (correlationId : string) (failures : Z)
| EngineError (err : string)
| ResponseReceived (correlationId : string)
| CaughtError (agentId correlationId msg : string)
| SkippingMalformed (entryId : string)
| DeadLettering (entryId : string) (deliveryCount : Z)
| Delivering (to channel : string)
| DeliveryFailed (entryId msg : string)
| PublishFailed (status : Z)
| PublishError (msg : string)
| Published (url : string)
| ListenerError (msg : string).

(** Where an exception comes from: a rejected broker command, the host's
    [JSON.parse], the read of a property of [null], a child process, the
    HTTP request to the content publisher, or a [throw] statement of the
    plugin. *)
Inductive Origin :=
| ByBroker | ByJsonParse | ByPropertyRead | ByChildProcess | ByFetch | ByThrow.

(** What a run does, in order.  The host's logger and UUID generator are
    taken to return normally: a log call only leaves its line in the trace.
    [BreakerFailure] and [BreakerSuccess] mark the calls of [recordFailure]
    and [recordSuccess]; [Exec] is a child process started through
    [execFile]; [Thrown] marks an exception at the point where it is
    thrown, whether it is caught later or not. *)
Inductive Event :=
| Cmd (c : Client) (cmd : Command)
| Log (level : LogLevel) (msg : LogMsg)
| BreakerFailure
| BreakerSuccess
| LimiterRecord (agentId : string)
| Alert (reason agentId : string)
| Exec (binary : string) (args : list string)
| Thrown (o : Origin) (e : Js.Exn).

(** The mutable variables of the closures of [register] and of
    [createOutboundListener]. *)
Record World := {
  breaker : CircuitBreaker.State;
  limiter : RateLimiter.State;
  cliBinary : option string;
  trace : list Event;
}.

(** A computation returns or throws, and leaves a world behind. *)
Inductive Outcome (A : Type) :=
| Ok (a : A)
| Threw (e : Js.Exn).
Arguments Ok {A} a.
Arguments Threw {A} e.

Definition M (A : Type) : Type := World -> Outcome A * World.

Definition ret {A} (a : A) : M A := fun w => (Ok a, w).

Definition bind {A B} (m : M A) (k : A -> M B) : M B :=
  fun w => match m w with
           | (Ok a, w') => k a w'
           | (Threw e, w') => (Threw e, w')
           end.

Definition record_event (e : Event) (w : World) : World :=
  {| breaker := breaker w; limiter := limiter w;
     cliBinary := cliBinary w; trace := trace w ++ [e] |}.

Definition throw {A} (o : Origin) (e : Js.Exn) : M A :=
  fun w => (Threw e, record_event (Thrown o e) w).

(** [try { body } catch (err) { handler }] *)
Definition try_catch {A} (body : M A) (handler : Js.Exn -> M A) : M A :=
  fun w => match body w with
           | (Ok a, w') => (Ok a, w')
           | (Threw e, w') => handler e w'
           end.

(** [await] of a promise whose settlement the environment decides: a
    rejection is thrown at the [await]. *)
Definition await {A} (o : Origin) (r : Outcome A) : M A :=
  match r with
  | Ok a => ret a
  | Threw e => throw o e
  end.

Definition emit (e : Event) : M unit := fun w => (Ok tt, record_event e w).

Definition log (level : LogLevel) (msg : LogMsg) : M unit := emit (Log level msg).

Definition getBreaker : M CircuitBreaker.State := fun w => (Ok (breaker w), w).

Definition setBreaker (b : CircuitBreaker.State) : M unit :=
  fun w => (Ok tt, {| breaker := b; limiter := limiter w;
                      cliBinary := cliBinary w; trace := trace w |}).

Definition getLimiter : M RateLimiter.State := fun w => (Ok (limiter w), w).

Definition setLimiter (l : RateLimiter.State) : M unit :=
  fun w => (Ok tt, {| breaker := breaker w; limiter := l;
                      cliBinary := cliBinary w; trace := trace w |}).

Definition getCliBinary : M (option string) := fun w => (Ok (cliBinary w), w).

Definition setCliBinary (b : option string) : M unit :=
  fun w => (Ok tt, {| breaker := breaker w; limiter := limiter w;
                      cliBinary := b; trace := trace w |}).

Declare Scope bridge_scope.
Delimit Scope bridge_scope with bridge.
Notation "x <- m ;; k" := (bind m (fun x => k))
  (at level 100, m at next level, right associativity) : bridge_scope.
Notation "m ;;; k" := (bind m (fun _ => k))
  (at level 100, right associativity) : bridge_scope.
Local Open Scope bridge_scope.

Definition when (b : bool) (m : M unit) : M unit := if b then m else ret tt.

(* --------------------------------------------------------------------- *)
(** *** index.ts: the [before_reply] hook *)
(* --------------------------------------------------------------------- *)

(** The [before_reply] event of the host and the context it comes with. *)
Record BeforeReplyEvent := {
  commandBody : string;
  from : option string;
  channel : option string;
  accountId : option string;
  sessionKey : option string;
  senderName : option string;
  senderUsername : option string;
  senderId : option string;
  transcript : option Js.Value;
}.

Record HookContext := { agentId : option string }.

Record Reply := {
  text : Js.Value;
  isError : bool;   (* [false]: the field is absent *)
}.

(** What the surroundings answer during one run of the hook or of the tool:
    the clock at each [Date.now()], the UUID generator, the status of the
    two connections, the outcome of the auto-repair, the settlements of the
    broker commands, and the host's [JSON.parse] ([None]: it throws a
    [SyntaxError]). *)
Record Env := {
  now_check_global : Z;
  now_check_agent : Z;
  now_stats : RateLimiter.StatsClock;
  now_alert : Z;
  now_alert_stats : RateLimiter.StatsClock;
  now_record : Z;
  now_isOpen : Z;
  now_isHalfOpen : Z;
  now_timestamp : Z;
  now_failure : Z;
  randomUUID : string;
  isRedisReady : bool;
  ensureConnected : bool;
  xadd_reply : Outcome string;
  brpop_reply : Outcome (option (string * string));
  JSON_parse : string -> option Js.Value;
}.

Section Hook.

Variable config : RedisBridgeConfig.
Variable limiterConfig : RateLimiter.RateLimiterConfig.
Variable breakerConfig : CircuitBreaker.Config.
Variable env : Env.

Definition rateLimiter_check (agent : string) : M (option string) :=
  l <- getLimiter ;;
  let '(msg, l') := RateLimiter.check limiterConfig
                      (now_check_global env) (now_check_agent env) agent l in
  setLimiter l' ;;; ret msg.

Definition rateLimiter_stats (clk : RateLimiter.StatsClock) : M RateLimiter.Stats :=
  l <- getLimiter ;;
  let '(st, l') := RateLimiter.stats clk l in
  setLimiter l' ;;; ret st.

(** [rateLimiter.sendAlert(msg, agentId, null, logger).catch(() => {})]:
    with no CLI binary the call completes without suspending. *)
Definition rateLimiter_sendAlert (reason agent : string) : M unit :=
  emit (Alert reason agent) ;;;
  l <- getLimiter ;;
  setLimiter (RateLimiter.sendAlert_noCli limiterConfig
                (now_alert env) (now_alert_stats env) l).

Definition rateLimiter_record (agent : string) : M unit :=
  emit (LimiterRecord agent) ;;;
  l <- getLimiter ;;
  setLimiter (RateLimiter.record (now_record env) agent l).

Definition breaker_isOpen : M bool :=
  b <- getBreaker ;; ret (CircuitBreaker.isOpen breakerConfig (now_isOpen env) b).

Definition breaker_isHalfOpen : M bool :=
  b <- getBreaker ;;
  ret (CircuitBreaker.isHalfOpen breakerConfig (now_isHalfOpen env) b).

Definition breaker_recordFailure : M unit :=
  emit BreakerFailure ;;;
  b <- getBreaker ;;
  setBreaker (CircuitBreaker.recordFailure breakerConfig (now_failure env) b).

Definition breaker_recordSuccess : M unit :=
  emit BreakerSuccess ;;;
  b <- getBreaker ;;
  setBreaker (CircuitBreaker.recordSuccess b).

Definition breaker_consecutiveFailures : M Z :=
  b <- getBreaker ;; ret (CircuitBreaker.consecutiveFailures b).

(** Truthiness of an optional string: [undefined], [null] and the empty
    string are falsy. *)
Definition truthy_str (v : option string) : bool :=
  match v with
  | Some s => negb (String.eqb s "")
  | None => false
  end.

(** [if (s) args.push(k, s)] for an optional string. *)
Definition pushIfTruthy (k : string) (v : option string) : list string :=
  if truthy_str v then [k; default "" v] else [].

Definition hook_xaddArgs (event : BeforeReplyEvent) (agent correlationId : string)
  : list string :=
  [ "correlationId"; correlationId;
    "message"; commandBody event;
    "from"; default "proxy" (from event);
    "agent"; agent;
    "channel"; default "unknown" (channel event);
    "accountId"; default agent (accountId event);
    "timestamp"; string_of_Z (now_timestamp env);
    "sessionKey";
      default (default "unknown" (channel event) +:+ ":"
               +:+ default agent (accountId event) +:+ ":"
               +:+ default "anon" (from event))
              (sessionKey event);
    "protocolVersion"; PROTOCOL_VERSION ]
  ++ pushIfTruthy "senderName" (senderName event)
  ++ pushIfTruthy "senderUsername" (senderUsername event)
  ++ pushIfTruthy "senderId" (senderId event)
  ++ (if Js.truthy_opt (transcript event)
      then ["transcript"; match transcript event with
                          | Some v => Js.toString v
                          | None => "undefined"
                          end]
      else []).

(** [JSON.parse(raw)]; the text of the [SyntaxError] is the engine's and
    is never read. *)
Definition JSON_parse_call (raw : string) : M Js.Value :=
  match JSON_parse env raw with
  | Some v => ret v
  | None => throw ByJsonParse (Js.Error "SyntaxError")
  end.

(** [try { parsed = JSON.parse(raw) } catch { parsed = { text: raw } }] *)
Definition parseResponse (raw : string) : M Js.Value :=
  try_catch (JSON_parse_call raw) (fun _ => ret (Js.Obj [("text", Js.Str raw)])).

(** [parsed.error], evaluated: the exception of reading it from [null]
    is thrown into the computation. *)
Definition readProp (v : Js.Value) (k : string) : M (option Js.Value) :=
  match Js.getProp v k with
  | inl e => throw ByPropertyRead e
  | inr r => ret r
  end.

Definition reply (t : Js.Value) (e : bool) : option Reply :=
  Some {| text := t; isError := e |}.

Definition MSG_UNAVAILABLE : string :=
  "Le moteur Effectual est temporairement indisponible. Reessaie dans quelques secondes.".
Definition MSG_CONNECTION_LOST : string :=
  "Le moteur Effectual est temporairement indisponible (connexion Redis perdue). Reessaie dans quelques secondes.".
Definition MSG_TIMEOUT : string :=
  "The engine did not respond in time. Please try again.".

(** The body of the [try] block of the hook. *)
Definition hook_try (event : BeforeReplyEvent) (agent correlationId responseKey : string)
  : M (option Reply) :=
  repaired <-
    (if negb (isRedisReady env) then
       if negb (ensureConnected env) then
         breaker_recordFailure ;;;
         n <- breaker_consecutiveFailures ;;
         log error (AutoRepairFailed agent correlationId n) ;;;
         ret (Some (reply (Js.Str MSG_CONNECTION_LOST) true))
       else log info (AutoRepaired agent) ;;; ret None
     else ret None) ;;
  match repaired with
  | Some r => ret r
  | None =>
      log info (Forwarding agent correlationId) ;;;
      emit (Cmd redis (XADD STREAM_INBOUND "*" (hook_xaddArgs event agent correlationId))) ;;;
      _ <- await ByBroker (xadd_reply env) ;;
      emit (Cmd redisBlocking (BRPOP responseKey (timeoutSeconds config))) ;;;
      result <- await ByBroker (brpop_reply env) ;;
      match result with
      | None =>
          breaker_recordFailure ;;;
          n <- breaker_consecutiveFailures ;;
          log warn (EngineTimeout (timeoutSeconds config) correlationId n) ;;;
          ret (reply (Js.Str MSG_TIMEOUT) true)
      | Some (_, raw) =>
          parsed <- parseResponse raw ;;
          err <- readProp parsed "error" ;;
          if Js.truthy_opt err then
            let e := match err with Some v => Js.toString v | None => "undefined" end in
            log error (EngineError e) ;;;
            ret (reply (Js.Str ("Engine error: " +:+ e)) true)
          else
            breaker_recordSuccess ;;;
            log info (ResponseReceived correlationId) ;;;
            t <- readProp parsed "text" ;;
            ret (reply (Js.nullish_or t (Js.Str raw)) false)
      end
  end.

(** The [catch (err)] block of the hook. *)
Definition hook_catch (agent correlationId : string) (err : Js.Exn) : M (option Reply) :=
  breaker_recordFailure ;;;
  let msg := Js.message_of err in
  log error (CaughtError agent correlationId msg) ;;;
  ret (reply (Js.Str ("Le moteur Effectual a rencontre une erreur: " +:+ msg
                      +:+ ". Reessaie dans quelques secondes.")) true).

Definition isHeartbeat (body : string) : bool :=
  Js.includes "HEARTBEAT_OK" body || Js.includes "Read HEARTBEAT.md" body.

(** The handler registered for [before_reply]; [None] is [undefined], the
    pass-through to the host. *)
Definition before_reply (event : BeforeReplyEvent) (ctx : HookContext)
  : M (option Reply) :=
  match agentId ctx with
  | None => ret None
  | Some agent =>
      if String.eqb agent "" || negb (isEngineAgent agent config) then ret None
      else
        let body := commandBody event in
        if isHeartbeat body then ret (reply (Js.Str "HEARTBEAT_OK") false)
        else
          rateLimitMsg <- rateLimiter_check agent ;;
          if truthy_str rateLimitMsg then
            let msg := default "" rateLimitMsg in
            st <- rateLimiter_stats (now_stats env) ;;
            log warn (RateLimited agent st) ;;;
            rateLimiter_sendAlert msg agent ;;;
            ret (reply (Js.Str msg) true)
          else
            rateLimiter_record agent ;;;
            isopen <- breaker_isOpen ;;
            if isopen then
              n <- breaker_consecutiveFailures ;;
              log warn (CircuitOpen n) ;;;
              ret (reply (Js.Str MSG_UNAVAILABLE) true)
            else
              half <- breaker_isHalfOpen ;;
              when half (log info CircuitHalfOpen) ;;;
              let correlationId := randomUUID env in
              let responseKey := RESPONSE_KEY_PREFIX +:+ correlationId in
              try_catch (hook_try event agent correlationId responseKey)
                        (hook_catch agent correlationId)
  end.

End Hook.

(* --------------------------------------------------------------------- *)
(** *** tools.ts: the [redis_bridge] tool *)
(* --------------------------------------------------------------------- *)

Record ToolContext := {
  tool_agentId : option string;
  messageChannel : option string;
}.

Record ContentBlock := { block_text : Js.Value }.   (* [type: "text"] *)
Record ToolResult := { content : list ContentBlock }.

Section Tool.

(** [createRedisBridgeTool(redis, config, ctx)]: the connection is the
    first argument of the factory. *)
Variable client : Client.
Variable config : RedisBridgeConfig.
Variable ctx : ToolContext.
Variable env : Env.

Definition tool_xaddArgs (message correlationId : string) : list string :=
  [ "correlationId"; correlationId;
    "message"; message;
    "from"; "proxy";
    "agent"; default "unknown" (tool_agentId ctx);
    "channel"; default "unknown" (messageChannel ctx);
    "timestamp"; string_of_Z (now_timestamp env) ].

(** [execute(_id, params)], on [params.message]. *)
Definition execute (params_message : option Js.Value) : M ToolResult :=
  let message := Js.toString (Js.nullish_or params_message (Js.Str "")) in
  if String.eqb (Js.trim message) "" then throw ByThrow (Js.Error "message is required")
  else
    let correlationId := randomUUID env in
    let responseKey := RESPONSE_KEY_PREFIX +:+ correlationId in
    emit (Cmd client (XADD STREAM_INBOUND "*" (tool_xaddArgs message correlationId))) ;;;
    _ <- await ByBroker (xadd_reply env) ;;
    emit (Cmd client (BRPOP responseKey (timeoutSeconds config))) ;;;
    result <- await ByBroker (brpop_reply env) ;;
    match result with
    | None =>
        throw ByThrow (Js.Error ("Engine response timed out after "
                         +:+ string_of_Z (timeoutSeconds config) +:+ "s"))
    | Some (_, raw) =>
        parsed <- parseResponse env raw ;;
        err <- readProp parsed "error" ;;
        if Js.truthy_opt err then
          throw ByThrow (Js.Error ("Engine error: "
                           +:+ match err with Some v => Js.toString v | None => "undefined" end))
        else
          t <- readProp parsed "text" ;;
          ret {| content := [ {| block_text := Js.nullish_or t (Js.Str raw) |} ] |}
    end.

End Tool.

(* --------------------------------------------------------------------- *)
(** *** listener.ts: the outbound worker *)
(* --------------------------------------------------------------------- *)

(** One row of the extended [XPENDING] reply:
    [[entryId, consumer, idleTime, deliveryCount]]; a missing count is
    [None] and reads as [0]. *)
Record PendingDetail := {
  pd_entryId : string;
  pd_consumer : string;
  pd_idleTime : Z;
  pd_deliveryCount : option Z;
}.

(** Settlement of the POST to the content publisher. *)
Inductive PublishOutcome :=
| HttpNotOk (status : Z)
| HttpOk (id url : string)
| FetchFailed (e : Js.Exn).

(** What the surroundings answer while one entry is processed.  The three
    [XACK] sites have one settlement each; [execFile_reply i] settles the
    delivery of chunk [i].  [extractTitle] and [buildTelegramSummary] are
    the text formatting helpers of the listener, which work by regular
    expressions and are left uninterpreted. *)
Record EntryEnv := {
  xack_malformed_reply : Outcome Z;
  xpending_reply : Outcome (list PendingDetail);
  xack_deadletter_reply : Outcome Z;
  openclaw_available : bool;
  publish_reply : PublishOutcome;
  extractTitle : string -> string;
  buildTelegramSummary : string -> string -> string -> string;
  execFile_reply : nat -> Outcome unit;
  xack_delivered_reply : Outcome Z;
}.

Definition DEAD_LETTER_MAX_RETRIES : Z := 5.
Definition PUBLISH_THRESHOLD : Z := 3000.

(** [for (i = 0; i < fields.length; i += 2) data[fields[i]] = fields[i+1] ?? ""] *)
Fixpoint parseFields (fields : list string) (data : gmap string string)
  : gmap string string :=
  match fields with
  | [] => data
  | [k] => <[k := ""]> data
  | k :: v :: rest => parseFields rest (<[k := v]> data)
  end.

(** An entry is well formed when [message], [to] and [channel] are there
    and not empty. *)
Definition wellFormed (fields : list string) : bool :=
  let data := parseFields fields ∅ in
  truthy_str (data !! "message") && truthy_str (data !! "to")
  && truthy_str (data !! "channel").

Section Listener.

(** [createOutboundListener(redis, config)]: the connection is the first
    argument. *)
Variable client : Client.
Variable config : RedisBridgeConfig.

Definition ensureConsumerGroup (reply : Outcome string) : M unit :=
  try_catch
    (emit (Cmd client (XGROUP ["CREATE"; STREAM_OUTBOUND; consumerGroup config; "0"; "MKSTREAM"])) ;;;
     _ <- await ByBroker reply ;; ret tt)
    (fun err => if Js.includes "BUSYGROUP" (Js.message_of err) then ret tt
                else throw ByThrow err).

Definition resolveCliBinary (env : EntryEnv) : string :=
  if openclaw_available env then "openclaw" else "clawdbot".

Definition tryPublish (env : EntryEnv) (message : string) : M (option (string * string)) :=
  if String.eqb (contentPublisherUrl config) "" || String.eqb (contentPublisherToken config) ""
  then ret None
  else
    let title := extractTitle env message in
    match publish_reply env with
    | HttpNotOk status => log warn (PublishFailed status) ;;; ret None
    | HttpOk id url =>
        let publicUrl :=
          if String.eqb (contentPublisherPublicUrl config) "" then url
          else contentPublisherPublicUrl config +:+ "/p/" +:+ id in
        log info (Published publicUrl) ;;; ret (Some (title, publicUrl))
    | FetchFailed e =>
        try_catch (throw ByFetch e)
                  (fun err => log warn (PublishError (Js.message_of err)) ;;; ret None)
    end.

(** [for (const chunk of chunks) await execFileAsync(cliBinary, args, ...)],
    [i] being the index of the first chunk of the list. *)
Fixpoint deliverChunks (env : EntryEnv) (binary channel to : string)
    (account : option string) (i : nat) (chunks : list string) : M unit :=
  match chunks with
  | [] => ret tt
  | chunk :: rest =>
      let args :=
        ["message"; "send"; "--channel"; channel; "--target"; to; "--message"; chunk]
        ++ pushIfTruthy "--account" account in
      emit (Exec binary args) ;;;
      await ByChildProcess (execFile_reply env i) ;;;
      deliverChunks env binary channel to account (S i) rest
  end.

(** The delivery part of [processEntry]: its last [try] block. *)
Definition deliver (env : EntryEnv) (entryId message to channel : string)
    (account : option string) : M unit :=
  try_catch
    (cli <- getCliBinary ;;
     binary <- (if truthy_str cli then ret (default "" cli)
                else
                  let b := resolveCliBinary env in
                  setCliBinary (Some b) ;;; ret b) ;;
     messageToSend <-
       (if PUBLISH_THRESHOLD <? Z.of_nat (String.length message) then
          published <- tryPublish env message ;;
          match published with
          | Some (title, url) => ret (buildTelegramSummary env title message url)
          | None => ret message
          end
        else ret message) ;;
     match Splitter.splitMessage_string messageToSend Splitter.MAX_MSG_LEN with
     | Some chunks =>
         deliverChunks env binary channel to account 0%nat chunks ;;;
         emit (Cmd client (XACK STREAM_OUTBOUND (consumerGroup config) entryId)) ;;;
         _ <- await ByBroker (xack_delivered_reply env) ;; ret tt
     | None => ret tt   (* the splitting loop always ends: never taken *)
     end)
    (fun err => log error (DeliveryFailed entryId (Js.message_of err))).

(** The dead-letter check of [processEntry]: [true] when the entry has been
    dropped and [processEntry] returns. *)
Definition deadLetterCheck (env : EntryEnv) (entryId : string) : M bool :=
  try_catch
    (emit (Cmd client (XPENDING STREAM_OUTBOUND (consumerGroup config) entryId entryId 1)) ;;;
     pending <- await ByBroker (xpending_reply env) ;;
     match pending with
     | detail :: _ =>
         let deliveryCount := default 0 (pd_deliveryCount detail) in
         if DEAD_LETTER_MAX_RETRIES <? deliveryCount then
           log error (DeadLettering entryId deliveryCount) ;;;
           emit (Cmd client (XACK STREAM_OUTBOUND (consumerGroup config) entryId)) ;;;
           _ <- await ByBroker (xack_deadletter_reply env) ;;
           ret true
         else ret false
     | [] => ret false
     end)
    (fun _ => ret false).

Definition processEntry (env : EntryEnv) (entryId : string) (fields : list string)
  : M unit :=
  let data := parseFields fields ∅ in
  if negb (truthy_str (data !! "message")) || negb (truthy_str (data !! "to"))
     || negb (truthy_str (data !! "channel"))
  then
    log warn (SkippingMalformed entryId) ;;;
    emit (Cmd client (XACK STREAM_OUTBOUND (consumerGroup config) entryId)) ;;;
    _ <- await ByBroker (xack_malformed_reply env) ;; ret tt
  else
    let message := default "" (data !! "message") in
    let to := default "" (data !! "to") in
    let channel := default "" (data !! "channel") in
    dropped <- deadLetterCheck env entryId ;;
    if dropped then ret tt
    else
      log info (Delivering to channel) ;;;
      deliver env entryId message to channel (data !! "accountId").

Fixpoint processEntries (envOf : string -> EntryEnv)
    (entries : list (string * list string)) : M unit :=
  match entries with
  | [] => ret tt
  | (entryId, fields) :: rest =>
      processEntry (envOf entryId) entryId fields ;;; processEntries envOf rest
  end.

Fixpoint processStreams (envOf : string -> EntryEnv)
    (results : list (string * list (string * list string))) : M unit :=
  match results with
  | [] => ret tt
  | (_, entries) :: rest =>
      processEntries envOf entries ;;; processStreams envOf rest
  end.

(** One turn of the [while (running)] loop of [pollLoop], while the worker
    is running and not aborted: the blocking read, then every entry read.
    The wait after an error is not part of the model. *)
Definition pollOnce (reply : Outcome (option (list (string * list (string * list string)))))
    (envOf : string -> EntryEnv) : M unit :=
  try_catch
    (emit (Cmd client (XREADGROUP ["GROUP"; consumerGroup config; consumerName config;
                                   "COUNT"; "10"; "BLOCK"; "5000";
                                   "STREAMS"; STREAM_OUTBOUND; ">"])) ;;;
     results <- await ByBroker reply ;;
     match results with
     | None => ret tt
     | Some results => processStreams envOf results
     end)
    (fun err => log error (ListenerError (Js.message_of err))).

End Listener.

(* --------------------------------------------------------------------- *)
(** *** index.ts: [register] hands the connections out *)
(* --------------------------------------------------------------------- *)

(** [createRedisBridgeTool(redis, config, ctx)] *)
Definition registered_tool := execute redis.

(** [createOutboundListener(redis, config)] *)
Definition registered_pollOnce := pollOnce redis.
Definition registered_processEntry := processEntry redis.
Definition registered_ensureConsumerGroup := ensureConsumerGroup redis.

(** The commands of a trace, and those sent on one connection. *)
Definition commands (t : list Event) : list (Client * Command) :=
  omap (fun e => match e with Cmd c cmd => Some (c, cmd) | _ => None end) t.

Definition client_eqb (a b : Client) : bool :=
  match a, b with
  | redis, redis | redisBlocking, redisBlocking => true
  | _, _ => false
  end.

Definition commandsOn (c : Client) (t : list Event) : list Command :=
  omap (fun e => match e with
                 | Cmd c' cmd => if client_eqb c c' then Some cmd else None
                 | _ => None
                 end) t.

(** A blocking read: [BRPOP], or [XREADGROUP] with a [BLOCK] argument. *)
Definition isBlockingRead (cmd : Command) : bool :=
  match cmd with
  | BRPOP _ _ => true
  | XREADGROUP args => existsb (String.eqb "BLOCK") args
  | _ => false
  end.

Definition count_events (p : Event -> bool) (t : list Event) : nat :=
  length (List.filter p t).

Definition isBreakerFailure (e : Event) : bool :=
  match e with BreakerFailure => true | _ => false end.
Definition isBreakerSuccess (e : Event) : bool :=
  match e with BreakerSuccess => true | _ => false end.
Definition isLimiterRecord (e : Event) : bool :=
  match e with LimiterRecord _ => true | _ => false end.
Definition isExec (e : Event) : bool :=
  match e with Exec _ _ => true | _ => false end.
Definition isThrown (e : Event) : bool :=
  match e with Thrown _ _ => true | _ => false end.

(** The names of the fields of a flat field/value argument list. *)
Fixpoint fieldNames (args : list string) : list string :=
  match args with
  | k :: _ :: rest => k :: fieldNames rest
  | [k] => [k]
  | [] => []
  end.

(** The value of a field in a flat field/value argument list. *)
Fixpoint fieldValue (k : string) (args : list string) : option string :=
  match args with
  | k' :: v :: rest => if String.eqb k k' then Some v else fieldValue k rest
  | _ => None
  end.

Definition MANDATORY_FIELDS : list string :=
  ["correlationId"; "message"; "from"; "agent"; "channel"; "accountId";
   "sessionKey"; "timestamp"; "protocolVersion"].

Definition hasMandatoryFields (args : list string) : Prop :=
  forall f, In f MANDATORY_FIELDS -> In f (fieldNames args).

(** The fields that the tool writes: the required ones of
    [BridgeInboundEntry]. *)
Definition TOOL_FIELDS : list string :=
  ["correlationId"; "message"; "from"; "agent"; "channel"; "timestamp"].

(** The fields that the hook writes when the host gives them. *)
Definition OPTIONAL_FIELDS : list string :=
  ["senderName"; "senderUsername"; "senderId"; "transcript"].

(** [appendsWith P e]: if [e] is an append, it goes to [bridge:inbound]
    with an auto-generated id, on a connection and with arguments that
    satisfy [P]. *)
Definition appendsWith (P : Client -> list string -> Prop) (e : Event) : Prop :=
  match e with
  | Cmd c (XADD stream id args) => stream = STREAM_INBOUND /\ id = "*" /\ P c args
  | _ => True
  end.

(** [emits P m]: from any world, [m] only adds events to the trace, and
    every event it adds satisfies [P]. *)
Definition emits {A} (P : Event -> Prop) (m : M A) : Prop :=
  forall w, exists evs, trace (snd (m w)) = trace w ++ evs /\ Forall P evs.

(** If the event is a command, it is sent on connection [client]. *)
Definition onClient (client : Client) (e : Event) : Prop :=
  forall c cmd, e = Cmd c cmd -> c = client.

Definition isPop (e : Event) : bool :=
  match e with Cmd _ (BRPOP _ _) => true | _ => false end.

(** Vocabulary of the properties.  A context is bridged when its agent is
    routed through the engine; [newEvents m w] is what running [m] from [w]
    adds to the trace. *)
Definition isBridged (config : RedisBridgeConfig) (ctx : HookContext) : bool :=
  match agentId ctx with
  | Some a => negb (String.eqb a "") && isEngineAgent a config
  | None => false
  end.

Definition newEvents {A} (m : M A) (w : World) : list Event :=
  skipn (length (trace w)) (trace (snd (m w))).

Definition initialWorld : World :=
  {| breaker := snd (CircuitBreaker.createCircuitBreaker None);
     limiter := RateLimiter.createRateLimiter;
     cliBinary := None;
     trace := [] |}.

End Bridge.

(* ===================================================================== *)
(** ** Runs of several invocations, and sample inputs *)
(* ===================================================================== *)

Module Scenario.

Import Bridge.

(** [times] failures in a row, the first of the list first. *)
Fixpoint recordFailures (c : CircuitBreaker.Config) (times : list Z)
    (b : CircuitBreaker.State) : CircuitBreaker.State :=
  match times with
  | [] => b
  | t :: rest => recordFailures c rest (CircuitBreaker.recordFailure c t b)
  end.

(** One invocation of the hook by the host, with what the surroundings
    answer during it. *)
Record Invocation := {
  inv_env : Env;
  inv_event : BeforeReplyEvent;
  inv_ctx : HookContext;
}.

(** The host invokes the hook again and again on the same plugin. *)
Fixpoint runInvocations (config : RedisBridgeConfig)
    (lc : RateLimiter.RateLimiterConfig) (bc : CircuitBreaker.Config)
    (invs : list Invocation) (w : World)
  : list (Outcome (option Reply)) * World :=
  match invs with
  | [] => ([], w)
  | inv :: rest =>
      let '(r, w1) := before_reply config lc bc (inv_env inv)
                        (inv_event inv) (inv_ctx inv) w in
      let '(rs, w2) := runInvocations config lc bc rest w1 in
      (r :: rs, w2)
  end.

Definition sampleConfig : RedisBridgeConfig :=
  {| agents := ["eng-1"];
     redisUrl := "redis://localhost:6379";
     timeoutSeconds := 120;
     consumerGroup := "clawdbot-bridge";
     consumerName := "clawdbot-1";
     contentPublisherUrl := "";
     contentPublisherToken := "";
     contentPublisherPublicUrl := "" |}.

Definition sampleLimits : RateLimiter.RateLimiterConfig :=
  {| RateLimiter.maxRequestsPerHour := 60;
     RateLimiter.maxRequestsPerAgentPerHour := 20;
     RateLimiter.alertChatId := "";
     RateLimiter.alertCooldownSeconds := 300 |}.

Definition sampleBreaker : CircuitBreaker.Config := CircuitBreaker.resolve None.

Definition sampleCtx : HookContext := {| agentId := Some "eng-1" |}.

Definition sampleToolCtx : ToolContext :=
  {| tool_agentId := Some "eng-1"; messageChannel := Some "telegram" |}.

Definition sampleEvent (body : string) : BeforeReplyEvent :=
  {| commandBody := body;
     from := Some "user-7";
     channel := Some "telegram";
     accountId := None;
     sessionKey := None;
     senderName := None;
     senderUsername := None;
     senderId := None;
     transcript := None |}.

(** The host's [JSON.parse] on the few texts the samples use; every other
    text of the samples ([Salut]) is not JSON. *)
Definition sampleJSON_parse (s : string) : option Js.Value :=
  if String.eqb s "{}" then Some (Js.Obj [])
  else if String.eqb s "null" then Some Js.Null
  else if String.eqb s "[]" then Some (Js.Arr [])
  else if String.eqb s "42" then Some (Js.Num 42)
  else None.

Definition sampleStatsClock (now : Z) : RateLimiter.StatsClock :=
  {| RateLimiter.sc_global := now; RateLimiter.sc_agent := fun _ => now |}.

(** Surroundings in which both connections are ready, the append succeeds,
    every clock reading is [now] and the blocking pop settles as [pop]. *)
Definition sampleEnv (now : Z) (pop : Outcome (option (string * string))) : Env :=
  {| now_check_global := now;
     now_check_agent := now;
     now_stats := sampleStatsClock now;
     now_alert := now;
     now_alert_stats := sampleStatsClock now;
     now_record := now;
     now_isOpen := now;
     now_isHalfOpen := now;
     now_timestamp := now;
     now_failure := now;
     randomUUID := "0b0e7a36-5c1f-4b7e-9d57-2f1c8a4e6d10";
     isRedisReady := true;
     ensureConnected := true;
     xadd_reply := Ok "1700000000000-0";
     brpop_reply := pop;
     JSON_parse := sampleJSON_parse |}.

Definition popped (raw : string) : Outcome (option (string * string)) :=
  Ok (Some ("bridge:response:0b0e7a36-5c1f-4b7e-9d57-2f1c8a4e6d10", raw)).

(** A plugin whose breaker has counted five failures, the last at 1000. *)
Definition trippedWorld : World :=
  {| breaker := {| CircuitBreaker.failures := 5; CircuitBreaker.openedAt := 1000 |};
     limiter := RateLimiter.createRateLimiter;
     cliBinary := None;
     trace := [] |}.

(** Surroundings of the outbound worker: the pending list reports [count]
    deliveries, the acknowledgement of a dead letter settles as [ack], and
    everything else succeeds. *)
Definition sampleEntryEnv (count : Z) (ack : Outcome Z) : EntryEnv :=
  {| xack_malformed_reply := Ok 1;
     xpending_reply := Ok [ {| pd_entryId := "1700000000000-0";
                               pd_consumer := "clawdbot-1";
                               pd_idleTime := 60000;
                               pd_deliveryCount := Some count |} ];
     xack_deadletter_reply := ack;
     openclaw_available := true;
     publish_reply := HttpNotOk 503;
     extractTitle := fun s => s;
     buildTelegramSummary := fun title _ url => title +:+ " " +:+ url;
     execFile_reply := fun _ => Ok tt;
     xack_delivered_reply := Ok 1 |}.

Definition sampleFields : list string :=
  ["agent"; "eng-1"; "channel"; "telegram"; "to"; "42"; "message"; "Bonjour"].

End Scenario.

(* ===================================================================== *)
(** ** Vocabulary of further properties *)
(* ===================================================================== *)

Module Vocabulary.

Import RateLimiter Bridge.

(** A property of every window of the limiter, the global one and each
    agent's. *)
Definition everyWindow (P : list WindowEntry -> Prop) (s : RateLimiter.State) : Prop :=
  P (globalWindow s) /\ forall k, P (windowOf k s).

(** No window holds more entries than its limit. *)
Definition withinLimits (cfg : RateLimiterConfig) (s : RateLimiter.State) : Prop :=
  Z.of_nat (length (globalWindow s)) <= maxRequestsPerHour cfg
  /\ forall k, Z.of_nat (length (windowOf k s)) <= maxRequestsPerAgentPerHour cfg.

(** No entry of the window is later than [t]. *)
Definition notAfter (t : Z) (window : list WindowEntry) : Prop :=
  Forall (fun e => timestamp e <= t) window.

(** A request is admitted when it comes from a bridged agent, is no
    heartbeat, and [check] lets it through. *)
Definition admitted (config : RedisBridgeConfig) (lc : RateLimiterConfig) (env : Env)
    (event : BeforeReplyEvent) (ctx : HookContext) (w : World) : bool :=
  match agentId ctx with
  | Some agent =>
      isBridged config ctx && negb (isHeartbeat (commandBody event))
      && negb (truthy_str (fst (check lc (now_check_global env) (now_check_agent env)
                                  agent (limiter w))))
  | None => false
  end.

(** The arguments of the delivery CLI for one chunk:
    [message send --channel .. --target .. --message ..], and the account
    when the entry names one. *)
Definition sendArgs (channel to : string) (account : option string) (chunk : string)
  : list string :=
  ["message"; "send"; "--channel"; channel; "--target"; to; "--message"; chunk]
  ++ pushIfTruthy "--account" account.

(** The world [w] after more events. *)
Definition extend (w : World) (evs : list Event) : World :=
  {| breaker := breaker w; limiter := limiter w; cliBinary := cliBinary w;
     trace := trace w ++ evs |}.

(** The fields of an outbound entry that [processEntry] reads:
    [entry.message], [entry.to], [entry.channel], [entry.accountId]. *)
Definition READ_FIELDS : list string := ["message"; "to"; "channel"; "accountId"].

(** The flat field/value list of a stream entry written from pairs. *)
Fixpoint flatFields (pairs : list (string * string)) : list string :=
  match pairs with
  | [] => []
  | (k, v) :: rest => k :: v :: flatFields rest
  end.

End Vocabulary.

(* --------------------------------------------------------------------- *)
(** ** config.ts: [resolveConfig] *)
(* --------------------------------------------------------------------- *)

Module Config.

Import Bridge.

Definition DEFAULT_TIMEOUT_SECONDS : Z := 120.
Definition DEFAULT_CONSUMER_GROUP : string := "clawdbot-bridge".
Definition DEFAULT_REDIS_URL : string := "redis://localhost:6379".

(** [`clawdbot-${process.pid}`] *)
Definition DEFAULT_CONSUMER_NAME (pid : Z) : string := "clawdbot-" +:+ string_of_Z pid.

(** The part of [process] that [resolveConfig] reads: five environment
    variables ([None]: not set) and the process id. *)
Record ProcessEnv := {
  REDIS_BRIDGE_AGENTS : option string;
  REDIS_URL : option string;
  CONTENT_PUBLISHER_URL : option string;
  CONTENT_PUBLISHER_TOKEN : option string;
  CONTENT_PUBLISHER_PUBLIC_URL : option string;
  pid : Z;
}.

(** The optional plugin configuration: [undefined], or a record of values. *)
Definition PluginConfig := option (list (string * Js.Value)).

(** [pluginConfig?.k] *)
Definition prop (pluginConfig : PluginConfig) (k : string) : option Js.Value :=
  match pluginConfig with
  | Some fields => Js.lookup_last k fields
  | None => None
  end.

(** [s.split(",")] *)
Fixpoint split_comma (s : string) : list string :=
  match s with
  | EmptyString => [""]
  | String c rest =>
      if Ascii.eqb c ","%char then "" :: split_comma rest
      else match split_comma rest with
           | piece :: pieces => String c piece :: pieces
           | [] => [String c ""]
           end
  end.

Definition nonEmpty (s : string) : bool := negb (String.eqb s "").

(** [typeof v === "string" && v.trim()], when truthy. *)
Definition trimmedEnv (v : option string) : option string :=
  match v with
  | Some s => if nonEmpty (Js.trim s) then Some (Js.trim s) else None
  | None => None
  end.

(** [typeof v === "string" && v.trim()] on a value of the plugin
    configuration, when truthy. *)
Definition trimmedProp (v : option Js.Value) : option string :=
  match v with
  | Some (Js.Str s) => if nonEmpty (Js.trim s) then Some (Js.trim s) else None
  | _ => None
  end.

(** [typeof v === "string" && v], when truthy. *)
Definition stringProp (v : option Js.Value) : option string :=
  match v with
  | Some (Js.Str s) => if nonEmpty s then Some s else None
  | _ => None
  end.

(** [a || b || c] on the three sources of a setting. *)
Definition firstOf (a b : option string) (c : string) : string :=
  match a with
  | Some s => s
  | None => default c b
  end.

(** [resolveConfig(pluginConfig)].  Numbers are integers, as everywhere in
    [Js.Value]. *)
Definition resolveConfig (penv : ProcessEnv) (pluginConfig : PluginConfig)
  : RedisBridgeConfig :=
  let agentsFromConfig := prop pluginConfig "agents" in
  let fromConfig :=
    match agentsFromConfig with
    | Some (Js.Arr items) =>
        omap (fun a => match a with Js.Str s => Some s | _ => None end) items
    | _ => []
    end in
  let agents :=
    match REDIS_BRIDGE_AGENTS penv with
    | Some agentsEnv =>
        if nonEmpty (Js.trim agentsEnv)
        then List.filter nonEmpty (map Js.trim (split_comma agentsEnv))
        else fromConfig
    | None => fromConfig
    end in
  {| agents := agents;
     redisUrl := firstOf (trimmedEnv (REDIS_URL penv))
                         (stringProp (prop pluginConfig "redisUrl"))
                         DEFAULT_REDIS_URL;
     timeoutSeconds :=
       match prop pluginConfig "timeoutSeconds" with
       | Some (Js.Num n) => if 0 <? n then n else DEFAULT_TIMEOUT_SECONDS
       | _ => DEFAULT_TIMEOUT_SECONDS
       end;
     consumerGroup := default DEFAULT_CONSUMER_GROUP
                        (trimmedProp (prop pluginConfig "consumerGroup"));
     consumerName := default (DEFAULT_CONSUMER_NAME (pid penv))
                       (trimmedProp (prop pluginConfig "consumerName"));
     contentPublisherUrl :=
       firstOf (trimmedEnv (CONTENT_PUBLISHER_URL penv))
               (stringProp (prop pluginConfig "contentPublisherUrl")) "";
     contentPublisherToken :=
       firstOf (trimmedEnv (CONTENT_PUBLISHER_TOKEN penv))
               (stringProp (prop pluginConfig "contentPublisherToken")) "";
     contentPublisherPublicUrl :=
       firstOf (trimmedEnv (CONTENT_PUBLISHER_PUBLIC_URL penv))
               (stringProp (prop pluginConfig "contentPublisherPublicUrl")) "" |}.

(** A name that [resolveConfig] reads back as it is: not empty, without a
    comma, and without white space at either end. *)
Definition cleanName (s : string) : Prop :=
  s <> "" /\ Js.trim s = s /\ ~ In ","%char (list_ascii_of_string s).

Definition sampleProcessEnv (agentsEnv : option string) : ProcessEnv :=
  {| REDIS_BRIDGE_AGENTS := agentsEnv;
     REDIS_URL := None;
     CONTENT_PUBLISHER_URL := None;
     CONTENT_PUBLISHER_TOKEN := None;
     CONTENT_PUBLISHER_PUBLIC_URL := None;
     pid := 4242 |}.

End Config.

(* --------------------------------------------------------------------- *)
(** ** More sample inputs *)
(* --------------------------------------------------------------------- *)

Module Cases.

Import Bridge Scenario.

(** Limits under which no agent is let through. *)
Definition strictLimits : RateLimiter.RateLimiterConfig :=
  {| RateLimiter.maxRequestsPerHour := 60;
     RateLimiter.maxRequestsPerAgentPerHour := 0;
     RateLimiter.alertChatId := "";
     RateLimiter.alertCooldownSeconds := 300 |}.

(** A plugin whose breaker has counted four failures. *)
Definition fourFailures : World :=
  {| breaker := {| CircuitBreaker.failures := 4; CircuitBreaker.openedAt := 0 |};
     limiter := RateLimiter.createRateLimiter;
     cliBinary := None;
     trace := [] |}.

(** Surroundings of the outbound worker in which the broker rejects the
    acknowledgement of a malformed entry. *)
Definition rejectingEntryEnv : EntryEnv :=
  {| xack_malformed_reply := Threw (Js.Error "Connection is closed.");
     xpending_reply := Ok [];
     xack_deadletter_reply := Ok 1;
     openclaw_available := true;
     publish_reply := HttpNotOk 503;
     extractTitle := fun s => s;
     buildTelegramSummary := fun title _ url => title +:+ " " +:+ url;
     execFile_reply := fun _ => Ok tt;
     xack_delivered_reply := Ok 1 |}.

(** An entry without [to] and [channel]. *)
Definition malformedFields : list string := ["agent"; "eng-1"; "message"; "Bonjour"].

Definition sampleInvocation (now : Z) (body : string) : Invocation :=
  {| inv_env := sampleEnv now (popped "Salut");
     inv_event := sampleEvent body;
     inv_ctx := sampleCtx |}.

End Cases.

(* ===================================================================== *)
(** * Properties *)
(* ===================================================================== *)


Import CircuitBreaker.

(** ** The circuit breaker *)

Lemma getState_closed_iff (c : Config) (now : Z) (b : State) :
  getState c now b = closed <-> failures b < cfg_threshold c.
Proof.
  unfold getState.
  destruct (Z.ltb_spec (failures b) (cfg_threshold c)) as [Hlt | Hge].
  - split; [intros _; exact Hlt | reflexivity].
  - split; [| lia].
    destruct (cfg_cooldownMs c <=? now - openedAt b); discriminate.
Qed.

Lemma getState_tripped (c : Config) (now : Z) (b : State) :
  cfg_threshold c <= failures b ->
  (getState c now b = half_open <-> cfg_cooldownMs c <= now - openedAt b)
  /\ (getState c now b = open <-> now - openedAt b < cfg_cooldownMs c).
Proof.
  intros Hge. unfold getState.
  destruct (Z.ltb_spec (failures b) (cfg_threshold c)) as [Hlt | _]; [lia |].
  destruct (Z.leb_spec (cfg_cooldownMs c) (now - openedAt b)) as [Hc | Hc];
    (split; split; intros H; first [reflexivity | discriminate | lia]).
Qed.

Lemma recordFailure_failures (c : Config) (now : Z) (b : State) :
  failures (recordFailure c now b) = failures b + 1.
Proof. reflexivity. Qed.

Lemma recordFailure_openedAt (c : Config) (now : Z) (b : State) :
  openedAt (recordFailure c now b)
  = if cfg_threshold c <=? failures b + 1 then now else openedAt b.
Proof. reflexivity. Qed.




(** ** The rate limiter *)

Import RateLimiter.

Lemma pruneWindow_pruned_of (now : Z) (window : list WindowEntry) :
  pruned_of now window (pruneWindow now window).
Proof.
  induction window as [| e rest IH]; simpl.
  - exists []. repeat split. constructor.
  - destruct (Z.ltb_spec (timestamp e) (now - WINDOW_MS)) as [Hlt | Hge].
    + destruct IH as (old & Heq & Hold & Hhd).
      exists (e :: old). split; [simpl; congruence |].
      split; [constructor; assumption | exact Hhd].
    + exists []. split; [reflexivity |].
      split; [constructor | unfold stale; lia].
Qed.

Lemma pruneWindow_suffix (now : Z) (window : list WindowEntry) :
  pruneWindow now window `suffix_of` window.
Proof.
  destruct (pruneWindow_pruned_of now window) as (old & Heq & _).
  exists old. exact Heq.
Qed.

(** On a window in clock order, pruning keeps exactly the entries that are
    not stale. *)
Lemma pruneWindow_sorted_filter (now : Z) (window : list WindowEntry) :
  clockOrdered window -> pruneWindow now window = fresh now window.
Proof.
  unfold clockOrdered, fresh.
  induction 1 as [| e rest Hs IH Hall]; simpl; [reflexivity |].
  destruct (Z.ltb_spec (timestamp e) (now - WINDOW_MS)) as [Hlt | Hge]; simpl.
  - exact IH.
  - f_equal. symmetry. apply forallb_filter_id.
    apply forallb_forall. intros x Hx.
    rewrite Forall_forall in Hall. specialize (Hall x).
    assert (timestamp e <= timestamp x) by (apply Hall; apply list_elem_of_In; exact Hx).
    destruct (Z.ltb_spec (timestamp x) (now - WINDOW_MS)); [lia | reflexivity].
Qed.

(** [record] keeps a window in clock order as long as the clock has not run
    backwards since its last entry. *)
Lemma record_clockOrdered (now : Z) (window : list WindowEntry) :
  clockOrdered window ->
  Forall (fun e => timestamp e <= now) window ->
  clockOrdered (window ++ [ {| timestamp := now |} ]).
Proof.
  unfold clockOrdered. induction 1 as [| e rest Hs IH Hall]; intros Hnow; simpl.
  - repeat constructor.
  - apply Forall_cons in Hnow as [He Hrest].
    constructor; [apply IH, Hrest |].
    apply Forall_app. split; [exact Hall | repeat constructor; exact He].
Qed.

Lemma getAgentWindow_fst (agent : string) (m : gmap string (list WindowEntry)) :
  fst (getAgentWindow agent m) = default [] (m !! agent).
Proof. unfold getAgentWindow. destruct (m !! agent); reflexivity. Qed.

Lemma getAgentWindow_insert (agent : string) (m : gmap string (list WindowEntry))
    (a : list WindowEntry) :
  <[agent := a]> (snd (getAgentWindow agent m)) = <[agent := a]> m.
Proof.
  unfold getAgentWindow. destruct (m !! agent); simpl; [reflexivity |].
  apply insert_insert_eq.
Qed.

(** The result and the state after [check], in closed form. *)
Lemma check_unfold (cfg : RateLimiterConfig) (nowG nowA : Z) (agent : string)
    (s : State) :
  let g := pruneWindow nowG (globalWindow s) in
  let a := pruneWindow nowA (windowOf agent s) in
  check cfg nowG nowA agent s
  = (if maxRequestsPerAgentPerHour cfg <=? Z.of_nat (length a)
     then Some (agentLimitMessage cfg agent)
     else if maxRequestsPerHour cfg <=? Z.of_nat (length g)
          then Some (globalLimitMessage cfg)
          else None,
     {| globalWindow := g;
        agentWindows := <[agent := a]> (agentWindows s);
        lastAlertAt := lastAlertAt s |}).
Proof.
  intros g a. unfold check.
  pose proof (getAgentWindow_fst agent (agentWindows s)) as Hf.
  pose proof (fun x => getAgentWindow_insert agent (agentWindows s) x) as Hi.
  destruct (getAgentWindow agent (agentWindows s)) as [w m]. simpl in Hf, Hi.
  subst w. fold (windowOf agent s). fold a. fold g. rewrite Hi.
  destruct (maxRequestsPerAgentPerHour cfg <=? Z.of_nat (length a));
    [reflexivity |].
  destruct (maxRequestsPerHour cfg <=? Z.of_nat (length g)); reflexivity.
Qed.

(** C3. [check] answers with a message iff, the global window and the
    agent's window being pruned of their entries older than one hour, the
    agent's window holds at least [maxRequestsPerAgentPerHour] entries or the
    global one at least [maxRequestsPerHour].  The agent's limit is tested
    first: when it is reached the message is the agent's, and the global
    message is given only when it is not.  [check] leaves the pruned
    windows behind and appends nothing: every window afterwards is a suffix
    of what it was.  Pruning drops the leading entries older than one hour,
    which on a window in clock order are all the entries older than one
    hour. *)
Theorem C3_check_limits (cfg : RateLimiterConfig) (nowG nowA : Z)
    (agent : string) (s : State) :
  let g := pruneWindow nowG (globalWindow s) in
  let a := pruneWindow nowA (windowOf agent s) in
  let r := fst (check cfg nowG nowA agent s) in
  let s' := snd (check cfg nowG nowA agent s) in
  pruned_of nowG (globalWindow s) g
  /\ pruned_of nowA (windowOf agent s) a
  /\ (r <> None <->
      maxRequestsPerAgentPerHour cfg <= Z.of_nat (length a)
      \/ maxRequestsPerHour cfg <= Z.of_nat (length g))
  /\ (maxRequestsPerAgentPerHour cfg <= Z.of_nat (length a) ->
      r = Some (agentLimitMessage cfg agent))
  /\ (Z.of_nat (length a) < maxRequestsPerAgentPerHour cfg ->
      maxRequestsPerHour cfg <= Z.of_nat (length g) ->
      r = Some (globalLimitMessage cfg))
  /\ globalWindow s' = g
  /\ windowOf agent s' = a
  /\ globalWindow s' `suffix_of` globalWindow s
  /\ (forall k, windowOf k s' `suffix_of` windowOf k s)
  /\ (clockOrdered (globalWindow s) -> g = fresh nowG (globalWindow s))
  /\ (clockOrdered (windowOf agent s) -> a = fresh nowA (windowOf agent s)).
Proof.
  intros g a r s'. subst r s'. rewrite check_unfold. fold g a. simpl.
  split; [apply pruneWindow_pruned_of |].
  split; [apply pruneWindow_pruned_of |].
  split.
  { destruct (Z.leb_spec (maxRequestsPerAgentPerHour cfg) (Z.of_nat (length a)));
      [split; [intros _; left; assumption | discriminate] |].
    destruct (Z.leb_spec (maxRequestsPerHour cfg) (Z.of_nat (length g)));
      [split; [intros _; right; assumption | discriminate] |].
    split; [congruence | lia]. }
  split.
  { intros H.
    destruct (Z.leb_spec (maxRequestsPerAgentPerHour cfg) (Z.of_nat (length a)));
      [reflexivity | lia]. }
  split.
  { intros Ha Hg.
    destruct (Z.leb_spec (maxRequestsPerAgentPerHour cfg) (Z.of_nat (length a)));
      [lia |].
    destruct (Z.leb_spec (maxRequestsPerHour cfg) (Z.of_nat (length g)));
      [reflexivity | lia]. }
  split; [reflexivity |].
  split.
  { unfold windowOf. simpl. rewrite lookup_insert_eq. reflexivity. }
  split; [apply pruneWindow_suffix |].
  split.
  { intros k. unfold windowOf at 1. simpl.
    destruct (decide (agent = k)) as [-> | Hne].
    - rewrite lookup_insert_eq. simpl. apply pruneWindow_suffix.
    - rewrite lookup_insert_ne by exact Hne. reflexivity. }
  split; apply pruneWindow_sorted_filter.
Qed.

(** Two requests of agent [a] in the last hour against a per-agent limit of
    two: the answer is the agent's message, although the global limit of
    three is not reached; the entry of 5000 seconds ago is pruned. *)
Lemma C3_check_limits_witness :
  let cfg := {| maxRequestsPerHour := 3; maxRequestsPerAgentPerHour := 2;
                alertChatId := ""; alertCooldownSeconds := 300 |} in
  let w := [ {| timestamp := 0 |}; {| timestamp := 4000000 |};
             {| timestamp := 4500000 |} ] in
  let s := {| globalWindow := w; agentWindows := {[ "a" := w ]};
              lastAlertAt := 0 |} in
  fst (check cfg 5000000 5000000 "a" s) = Some (agentLimitMessage cfg "a")
  /\ length (globalWindow (snd (check cfg 5000000 5000000 "a" s))) = 2%nat.
Proof.
  intros cfg w s.
  destruct (C3_check_limits cfg 5000000 5000000 "a" s)
    as (_ & _ & _ & Hagent & _ & Hg & _).
  split.
  - apply Hagent. vm_compute. discriminate.
  - rewrite Hg. reflexivity.
Defined.

(** ** The message splitter *)

Import Splitter.

Section SplitProofs.

Context {char : Type}.
Variable ceqb : char -> char -> bool.
Variable is_ws : char -> bool.
Variable LF : char.
Hypothesis ceqb_eq : forall a b, ceqb a b = true -> a = b.
Hypothesis LF_ws : is_ws LF = true.

Abbreviation ws_run := (Forall (fun c => is_ws c = true)).

Lemma startsWith_split (pat s : list char) :
  startsWith ceqb pat s = true -> s = pat ++ skipn (length pat) s.
Proof.
  revert s. induction pat as [| p pat IH]; intros s H; simpl in *.
  - reflexivity.
  - destruct s as [| c s]; [discriminate |].
    apply andb_true_iff in H as [Hc Hs].
    apply ceqb_eq in Hc. subst c. simpl. f_equal. apply IH, Hs.
Qed.

Lemma startsWith_length (pat s : list char) :
  startsWith ceqb pat s = true -> (length pat <= length s)%nat.
Proof.
  revert s. induction pat as [| p pat IH]; intros s H; simpl in *.
  - lia.
  - destruct s as [| c s]; [discriminate |].
    apply andb_true_iff in H as [_ Hs]. apply IH in Hs. simpl. lia.
Qed.

Lemma lastIndexOf_down_found (pat s : list char) (k i : nat) :
  lastIndexOf_down ceqb pat s k = Some i ->
  (i <= k)%nat /\ startsWith ceqb pat (skipn i s) = true.
Proof.
  induction k as [| k IH]; simpl.
  - destruct (startsWith ceqb pat (skipn 0 s)) eqn:E; [| discriminate].
    intros [= <-]. split; [lia | exact E].
  - destruct (startsWith ceqb pat (skipn (S k) s)) eqn:E.
    + intros [= <-]. split; [lia | exact E].
    + intros H. apply IH in H as [Hle Hs]. split; [lia | exact Hs].
Qed.

Lemma lastIndexOf_found (s pat : list char) (fromIndex i : nat) :
  lastIndexOf ceqb s pat fromIndex = Some i ->
  (i <= fromIndex)%nat
  /\ (i + length pat <= length s)%nat
  /\ skipn i s = pat ++ skipn (i + length pat) s.
Proof.
  unfold lastIndexOf.
  destruct (Nat.ltb_spec (length s) (length pat)) as [| Hlen]; [discriminate |].
  intros H. apply lastIndexOf_down_found in H as [Hle Hs].
  split; [lia |].
  pose proof (startsWith_length _ _ Hs) as Hl.
  rewrite length_skipn in Hl.
  split; [lia |].
  apply startsWith_split in Hs. rewrite skipn_skipn in Hs.
  rewrite (Nat.add_comm i). exact Hs.
Qed.

Lemma trimStart_split (s : list char) :
  exists gap, s = gap ++ trimStart is_ws s /\ ws_run gap.
Proof.
  induction s as [| c s (gap & Heq & Hgap)]; simpl.
  - exists []. split; [reflexivity | constructor].
  - destruct (is_ws c) eqn:E.
    + exists (c :: gap). split; [simpl; congruence | constructor; assumption].
    + exists []. split; [reflexivity | constructor].
Qed.

Lemma trimStart_length (s : list char) :
  (length (trimStart is_ws s) <= length s)%nat.
Proof.
  destruct (trimStart_split s) as (gap & Heq & _).
  rewrite Heq at 2. rewrite length_app. lia.
Qed.

Lemma trimEnd_split (s : list char) :
  exists gap, s = trimEnd is_ws s ++ gap /\ ws_run gap.
Proof.
  unfold trimEnd. destruct (trimStart_split (rev s)) as (gap & Heq & Hgap).
  exists (rev gap). split.
  - rewrite <- rev_app_distr, <- Heq. symmetry. apply rev_involutive.
  - apply Forall_forall. intros x Hx.
    rewrite Forall_forall in Hgap. apply Hgap.
    apply list_elem_of_In. apply list_elem_of_In in Hx. apply in_rev. exact Hx.
Qed.

Lemma trimEnd_length (s : list char) :
  (length (trimEnd is_ws s) <= length s)%nat.
Proof.
  destruct (trimEnd_split s) as (gap & Heq & _).
  rewrite Heq at 2. rewrite length_app. lia.
Qed.

Lemma cutAt_good (sep : list char) (maxLen : nat) (remaining : list char)
    (r : list char * list char) :
  ws_run sep -> sep <> [] ->
  cutAt ceqb is_ws sep maxLen remaining = Some r ->
  good_cut is_ws maxLen remaining r.
Proof.
  intros Hsep Hne. unfold cutAt.
  destruct (lastIndexOf ceqb remaining sep maxLen) as [i |] eqn:E; [| discriminate].
  destruct (overThreshold maxLen i); [| discriminate].
  intros [= <-]. apply lastIndexOf_found in E as (Hle & Hlen & Hskip).
  assert (Hs : (1 <= length sep)%nat) by (destruct sep; [congruence | simpl; lia]).
  unfold good_cut. simpl. split.
  { pose proof (trimEnd_length (firstn i remaining)) as H.
    rewrite length_firstn in H. lia. }
  split.
  { pose proof (trimStart_length (skipn (i + length sep) remaining)) as H.
    rewrite length_skipn in H. lia. }
  destruct (trimEnd_split (firstn i remaining)) as (g1 & H1 & Hg1).
  destruct (trimStart_split (skipn (i + length sep) remaining)) as (g2 & H2 & Hg2).
  exists (g1 ++ sep ++ g2). split.
  { repeat (apply Forall_app; split); assumption. }
  rewrite <- (firstn_skipn i remaining) at 1.
  rewrite Hskip. rewrite H1 at 1. rewrite H2 at 1.
  rewrite <- !app_assoc. reflexivity.
Qed.

Lemma splitStep_good (maxLen : nat) (remaining : list char) :
  (1 <= maxLen)%nat -> (maxLen < length remaining)%nat ->
  good_cut is_ws maxLen remaining (splitStep ceqb is_ws LF maxLen remaining).
Proof.
  intros Hpos Hlong. unfold splitStep.
  destruct (cutAt ceqb is_ws [LF; LF] maxLen remaining) as [r |] eqn:E2.
  { eapply cutAt_good; [| | exact E2]; [repeat constructor; exact LF_ws | discriminate]. }
  destruct (cutAt ceqb is_ws [LF] maxLen remaining) as [r |] eqn:E1.
  { eapply cutAt_good; [| | exact E1]; [repeat constructor; exact LF_ws | discriminate]. }
  unfold good_cut. simpl. split; [rewrite length_firstn; lia |].
  split; [rewrite length_skipn; lia |].
  exists []. split; [constructor |]. simpl. symmetry. apply firstn_skipn.
Qed.

(** The loop ends within [length remaining] turns, and its chunks fit and
    reassemble. *)
Lemma splitLoop_spec (maxLen fuel : nat) (remaining : list char) :
  (1 <= maxLen)%nat -> (length remaining <= fuel)%nat ->
  exists chunks,
    splitLoop ceqb is_ws LF fuel maxLen remaining = Some chunks
    /\ Forall (fun chunk => (length chunk <= maxLen)%nat) chunks
    /\ reassembles is_ws chunks remaining.
Proof.
  intros Hpos. revert remaining.
  induction fuel as [| fuel IH]; intros remaining Hfuel.
  - destruct remaining; [| simpl in Hfuel; lia].
    exists []. simpl. repeat split; constructor.
  - cbn [splitLoop].
    destruct (Nat.leb_spec (length remaining) maxLen) as [Hshort | Hlong].
    + destruct remaining as [| c rem'].
      * exists []. repeat split; constructor.
      * exists [c :: rem']. split; [reflexivity |].
        split; [repeat constructor; exact Hshort |].
        pose proof (reassembles_cons is_ws (c :: rem') [] [] []
                      ltac:(constructor) (reassembles_nil is_ws)) as H.
        rewrite !app_nil_r in H. exact H.
    + pose proof (splitStep_good maxLen remaining Hpos Hlong) as Hgood.
      destruct (splitStep ceqb is_ws LF maxLen remaining) as [chunk rest].
      destruct Hgood as (Hchunk & Hrest & gap & Hgap & Heq). simpl in *.
      destruct (IH rest) as (chunks & Hrun & Hfit & Hre); [lia |].
      rewrite Hrun. exists (chunk :: chunks). split; [reflexivity |].
      split; [constructor; assumption |].
      rewrite Heq. constructor; assumption.
Qed.

Lemma splitMessage_spec (maxLen : nat) (text : list char) :
  (1 <= maxLen)%nat ->
  ((length text <= maxLen)%nat ->
   splitMessage ceqb is_ws LF text maxLen = Some [text])
  /\ ((maxLen < length text)%nat ->
      exists chunks,
        splitMessage ceqb is_ws LF text maxLen = Some chunks
        /\ Forall (fun chunk => (length chunk <= maxLen)%nat) chunks
        /\ reassembles is_ws chunks text).
Proof.
  intros Hpos. unfold splitMessage.
  destruct (Nat.leb_spec (length text) maxLen) as [Hshort | Hlong].
  - split; [reflexivity | lia].
  - split; [lia |]. intros _. apply splitLoop_spec; [exact Hpos | lia].
Qed.

End SplitProofs.

Lemma MAX_MSG_LEN_pos : (1 <= MAX_MSG_LEN)%nat.
Proof. unfold MAX_MSG_LEN. lia. Qed.

(** The worker always gets its chunks: the [None] of the fuel never shows. *)
Lemma splitMessage_string_total (text : string) :
  exists chunks, splitMessage_string text MAX_MSG_LEN = Some chunks.
Proof.
  unfold splitMessage_string.
  destruct (splitMessage_spec Ascii.eqb ascii_is_ws "010"%char
              (fun a b H => proj1 (Ascii.eqb_eq a b) H) eq_refl
              MAX_MSG_LEN (list_ascii_of_string text) MAX_MSG_LEN_pos)
    as [Hshort Hlong].
  destruct (Nat.le_gt_cases (length (list_ascii_of_string text)) MAX_MSG_LEN)
    as [H | H].
  - rewrite (Hshort H). eexists. reflexivity.
  - destruct (Hlong H) as (chunks & Heq & _). rewrite Heq. eexists. reflexivity.
Qed.

(** C4. A text of at most 4000 code units comes back as the single chunk
    [text].  For a longer one the splitting loop ends, every chunk has at
    most 4000 code units, and the chunks in order give back the text up to
    runs of white space dropped after each chunk. *)
Theorem C4_splitMessage_4000 (text : list CodeUnit) :
  ((length text <= MAX_MSG_LEN)%nat ->
   splitMessage_js text MAX_MSG_LEN = Some [text])
  /\ ((MAX_MSG_LEN < length text)%nat ->
      exists chunks,
        splitMessage_js text MAX_MSG_LEN = Some chunks
        /\ Forall (fun chunk => (length chunk <= MAX_MSG_LEN)%nat) chunks
        /\ reassembles js_is_ws chunks text).
Proof.
  apply splitMessage_spec.
  - intros a b H. apply N.eqb_eq. exact H.
  - reflexivity.
  - exact MAX_MSG_LEN_pos.
Qed.

(** A short text, and a text of 5002 code units with a paragraph break after
    the first 3000. *)
Lemma C4_splitMessage_4000_witness :
  splitMessage_js [72; 105]%N MAX_MSG_LEN = Some [[72; 105]%N]
  /\ exists chunks,
       splitMessage_js (repeat 97%N 3000 ++ [10; 10]%N ++ repeat 98%N 2000)
                       MAX_MSG_LEN = Some chunks
       /\ Forall (fun chunk => (length chunk <= MAX_MSG_LEN)%nat) chunks
       /\ reassembles js_is_ws chunks
            (repeat 97%N 3000 ++ [10; 10]%N ++ repeat 98%N 2000).
Proof.
  split.
  - apply (proj1 (C4_splitMessage_4000 [72; 105]%N)).
    apply Nat.leb_le. vm_compute. reflexivity.
  - apply (proj2 (C4_splitMessage_4000
                    (repeat 97%N 3000 ++ [10; 10]%N ++ repeat 98%N 2000))).
    apply Nat.ltb_lt. vm_compute. reflexivity.
Defined.

(** ** The inbound hook *)

Import Bridge Scenario.

Arguments hook_xaddArgs : simpl never.
Arguments tool_xaddArgs : simpl never.
Arguments Js.toString : simpl never.
Arguments Js.lookup_last : simpl never.
Arguments Js.truthy_opt : simpl never.
Arguments Js.nullish_or : simpl never.
Arguments Js.trim : simpl never.
Arguments CircuitBreaker.isOpen : simpl never.
Arguments CircuitBreaker.isHalfOpen : simpl never.
Arguments CircuitBreaker.recordFailure : simpl never.
Arguments CircuitBreaker.recordSuccess : simpl never.
Arguments RateLimiter.record : simpl never.
Arguments RateLimiter.stats : simpl never.
Arguments RateLimiter.check : simpl never.
Arguments RateLimiter.sendAlert_noCli : simpl never.
Arguments String.append : simpl never.
Arguments string_of_Z : simpl never.

(** Unfolding of the operations of the effect layer. *)
Ltac unfold_m :=
  unfold rateLimiter_check, rateLimiter_stats, rateLimiter_sendAlert,
    rateLimiter_record, breaker_isOpen, breaker_isHalfOpen,
    breaker_recordFailure, breaker_recordSuccess, breaker_consecutiveFailures,
    parseResponse, JSON_parse_call, readProp, reply, when, log, bind, ret,
    try_catch, await, throw, emit, getBreaker, setBreaker, getLimiter,
    setLimiter, getCliBinary, setCliBinary in *.

(** Case analysis over everything the surroundings decide in the [try]
    block of the hook: readiness, auto-repair, the two broker commands, the
    parse and the shape of the parsed value. *)
Ltac hook_try_cases env :=
  destruct (isRedisReady env); [| destruct (ensureConnected env)]; cbn;
  try (destruct (xadd_reply env) as [? | ?]; cbn;
       [ destruct (brpop_reply env) as [[[? ?raw] |] | ?]; cbn;
         [ destruct (JSON_parse env raw) as [[] |]; cbn;
           repeat match goal with
           | |- context [Js.truthy_opt ?x] => destruct (Js.truthy_opt x) eqn:?; cbn
           end
         | | ]
       | ]).

(** The events added to a trace, once the trace is in the form
    [trace w ++ events]. *)
Ltac norm_trace :=
  unfold newEvents; cbn; rewrite <- ?app_assoc; cbn; rewrite ?drop_app_length.

(** Entry into the hook for a bridged agent. *)
Ltac hook_enter agent :=
  let Hb := fresh "Hb" in
  let Hne := fresh "Hne" in
  let Heng := fresh "Heng" in
  unfold isBridged, newEvents, before_reply;
  match goal with
  | |- context [agentId ?ctx] => destruct (agentId ctx) as [agent |]; [| discriminate]
  end;
  intros Hb; apply andb_true_iff in Hb as [Hne Heng];
  apply negb_true_iff in Hne; rewrite Hne, Heng; cbn.

Lemma prefix_split (n h : string) :
  String.prefix n h = true <-> exists post, h = n +:+ post.
Proof.
  revert h. induction n as [| c n IH]; intros h.
  - split; [intros _; exists h; reflexivity | intros _; destruct h; reflexivity].
  - destruct h as [| c' h]; simpl.
    { split; [discriminate | intros [post H]; discriminate]. }
    destruct (Ascii.ascii_dec c c') as [-> | Hne].
    + rewrite IH. split; intros [post H]; exists post.
      * change (String c' h = String c' (n +:+ post)). congruence.
      * change (String c' h = String c' (n +:+ post)) in H. congruence.
    + split; [discriminate |]. intros [post H].
      change (String c' h = String c (n +:+ post)) in H. congruence.
Qed.

(** [includes] is the substring test. *)
Lemma includes_substring (n h : string) :
  Js.includes n h = true <-> exists pre post, h = pre +:+ n +:+ post.
Proof.
  induction h as [| c h IH]; cbn [Js.includes].
  - rewrite orb_false_r, prefix_split. split.
    + intros [post H]. exists EmptyString, post. exact H.
    + intros (pre & post & H). destruct pre as [| c pre].
      * exists post. exact H.
      * change (EmptyString = String c (pre +:+ n +:+ post)) in H. discriminate.
  - rewrite orb_true_iff, prefix_split, IH. split.
    + intros [[post H] | (pre & post & H)].
      * exists EmptyString, post. exact H.
      * exists (String c pre), post.
        change (String c h = String c (pre +:+ n +:+ post)). congruence.
    + intros (pre & post & H). destruct pre as [| c' pre].
      * left. exists post. exact H.
      * right. exists pre, post.
        change (String c h = String c' (pre +:+ n +:+ post)) in H. congruence.
Qed.

(** C5. On a bridged agent, a command body that contains [HEARTBEAT_OK] or
    [Read HEARTBEAT.md] is answered with the reply whose text is exactly
    [HEARTBEAT_OK], without the error flag, and the plugin is left as it
    was: nothing is added to the trace (no broker command, no call of
    [record]) and the windows of the rate limiter are untouched. *)
Theorem C5_heartbeat_shortcut (config : RedisBridgeConfig)
    (lc : RateLimiter.RateLimiterConfig) (bc : CircuitBreaker.Config)
    (env : Env) (event : BeforeReplyEvent) (ctx : HookContext) (w : World) :
  isBridged config ctx = true ->
  (exists pre post, commandBody event = pre +:+ "HEARTBEAT_OK" +:+ post)
  \/ (exists pre post, commandBody event = pre +:+ "Read HEARTBEAT.md" +:+ post) ->
  before_reply config lc bc env event ctx w
  = (Ok (Some {| text := Js.Str "HEARTBEAT_OK"; isError := false |}), w)
  /\ commands (newEvents (before_reply config lc bc env event ctx) w) = []
  /\ count_events isLimiterRecord
       (newEvents (before_reply config lc bc env event ctx) w) = 0%nat
  /\ limiter (snd (before_reply config lc bc env event ctx w)) = limiter w.
Proof.
  intros Hb Hbody.
  assert (Hhb : isHeartbeat (commandBody event) = true).
  { unfold isHeartbeat. apply orb_true_iff.
    destruct Hbody as [H | H]; [left | right]; apply includes_substring; exact H. }
  revert Hb. hook_enter agent. rewrite Hhb. cbn.
  rewrite drop_all. repeat split.
Qed.

(** The heartbeat of the gateway, as the body and inside a longer body. *)
Lemma C5_heartbeat_shortcut_witness :
  before_reply sampleConfig sampleLimits sampleBreaker
    (sampleEnv 5000 (popped "Salut")) (sampleEvent "HEARTBEAT_OK") sampleCtx
    initialWorld
  = (Ok (Some {| text := Js.Str "HEARTBEAT_OK"; isError := false |}), initialWorld)
  /\ fst (before_reply sampleConfig sampleLimits sampleBreaker
            (sampleEnv 5000 (popped "Salut"))
            (sampleEvent "Please Read HEARTBEAT.md now") sampleCtx initialWorld)
     = Ok (Some {| text := Js.Str "HEARTBEAT_OK"; isError := false |}).
Proof.
  split.
  - apply (C5_heartbeat_shortcut sampleConfig sampleLimits sampleBreaker
             (sampleEnv 5000 (popped "Salut")) (sampleEvent "HEARTBEAT_OK")
             sampleCtx initialWorld); [reflexivity |].
    left. exists EmptyString, EmptyString. reflexivity.
  - rewrite (proj1 (C5_heartbeat_shortcut sampleConfig sampleLimits sampleBreaker
             (sampleEnv 5000 (popped "Salut"))
             (sampleEvent "Please Read HEARTBEAT.md now")
             sampleCtx initialWorld eq_refl
             (or_intror (ex_intro _ "Please " (ex_intro _ " now" eq_refl))))).
    reflexivity.
Defined.



(** The two messages of [check] are not empty, hence truthy. *)
Lemma check_truthy (lc : RateLimiter.RateLimiterConfig) (nowG nowA : Z)
    (agent : string) (l : RateLimiter.State) :
  truthy_str (fst (RateLimiter.check lc nowG nowA agent l)) = false
  <-> fst (RateLimiter.check lc nowG nowA agent l) = None.
Proof.
  rewrite check_unfold. cbn [fst].
  destruct (_ <=? _); [split; discriminate |].
  destruct (_ <=? _); [split; discriminate |].
  split; reflexivity.
Qed.

Lemma isOpen_true (bc : CircuitBreaker.Config) (now : Z) (b : CircuitBreaker.State) :
  CircuitBreaker.isOpen bc now b = true
  <-> CircuitBreaker.getState bc now b = CircuitBreaker.open.
Proof.
  unfold CircuitBreaker.isOpen.
  destruct (CircuitBreaker.getState bc now b); cbn; split; congruence.
Qed.

(** One run of the hook while the breaker is open. *)
Lemma hook_open_run (config : RedisBridgeConfig)
    (lc : RateLimiter.RateLimiterConfig) (bc : CircuitBreaker.Config)
    (env : Env) (event : BeforeReplyEvent) (ctx : HookContext) (w : World) :
  isBridged config ctx = true ->
  CircuitBreaker.getState bc (now_isOpen env) (breaker w) = CircuitBreaker.open ->
  exists r evs,
    fst (before_reply config lc bc env event ctx w) = Ok (Some r)
    /\ trace (snd (before_reply config lc bc env event ctx w)) = trace w ++ evs
    /\ commands evs = []
    /\ breaker (snd (before_reply config lc bc env event ctx w)) = breaker w
    /\ (isHeartbeat (commandBody event) = true ->
        r = {| text := Js.Str "HEARTBEAT_OK"; isError := false |})
    /\ (isHeartbeat (commandBody event) = false ->
        isError r = true
        /\ forall agent, agentId ctx = Some agent ->
             text r
             = match fst (RateLimiter.check lc (now_check_global env)
                            (now_check_agent env) agent (limiter w)) with
               | Some msg => Js.Str msg
               | None => Js.Str MSG_UNAVAILABLE
               end).
Proof.
  intros Hb Hopen. apply isOpen_true in Hopen. revert Hb.
  hook_enter agent.
  destruct (isHeartbeat (commandBody event)).
  { cbn. exists {| text := Js.Str "HEARTBEAT_OK"; isError := false |}, [].
    rewrite app_nil_r. repeat split; discriminate. }
  unfold hook_try, hook_catch. unfold_m.
  pose proof (check_truthy lc (now_check_global env) (now_check_agent env)
                agent (limiter w)) as Htruthy.
  destruct (RateLimiter.check _ _ _ _ _) as [msg l'] eqn:Hck. cbn in *.
  destruct (truthy_str msg) eqn:Hmsg; cbn.
  { destruct (RateLimiter.stats _ _) as [st l'']. cbn.
    eexists; eexists; split; [reflexivity |].
    rewrite <- !app_assoc. cbn. split; [reflexivity |].
    repeat split; try discriminate.
    intros a [= <-]. rewrite Hck. cbn.
    destruct msg as [m |]; [reflexivity | discriminate]. }
  rewrite Hopen. cbn.
  eexists; eexists; split; [reflexivity |].
  rewrite <- !app_assoc. cbn. split; [reflexivity |].
  repeat split; try discriminate.
  intros a [= <-]. rewrite Hck. cbn.
  rewrite (proj1 Htruthy eq_refl). reflexivity.
Qed.

Lemma recordFailures_spec (c : CircuitBreaker.Config) (times : list Z)
    (b : CircuitBreaker.State) :
  CircuitBreaker.failures (recordFailures c times b)
  = CircuitBreaker.failures b + Z.of_nat (length times)
  /\ (times <> [] ->
      CircuitBreaker.cfg_threshold c
      <= CircuitBreaker.failures b + Z.of_nat (length times) ->
      CircuitBreaker.openedAt (recordFailures c times b) = List.last times 0).
Proof.
  revert b. induction times as [| t rest IH]; intros b.
  - split; [simpl; lia | congruence].
  - cbn [recordFailures]. destruct (IH (CircuitBreaker.recordFailure c t b)) as [Hf Ho].
    rewrite recordFailure_failures in Hf, Ho.
    split; [rewrite Hf; cbn [length]; lia |].
    intros _ Hge. cbn [length] in Hge. destruct rest as [| t' rest'].
    + cbn. rewrite recordFailure_openedAt.
      destruct (Z.leb_spec (CircuitBreaker.cfg_threshold c)
                  (CircuitBreaker.failures b + 1)); [reflexivity | simpl in Hge; lia].
    + rewrite Ho; [reflexivity | discriminate | lia].
Qed.

(** Invocations in a row while the breaker stays tripped and the cooldown
    has not elapsed since [last_failure]. *)
Lemma runInvocations_open (config : RedisBridgeConfig)
    (lc : RateLimiter.RateLimiterConfig) (bc : CircuitBreaker.Config)
    (last_failure : Z) (invs : list Invocation) :
  forall w : World,
    CircuitBreaker.cfg_threshold bc <= CircuitBreaker.failures (breaker w) ->
    CircuitBreaker.openedAt (breaker w) = last_failure ->
    Forall (fun inv =>
              isBridged config (inv_ctx inv) = true
              /\ now_isOpen (inv_env inv) - last_failure
                 < CircuitBreaker.cfg_cooldownMs bc) invs ->
    exists evs,
      trace (snd (runInvocations config lc bc invs w)) = trace w ++ evs
      /\ commands evs = []
      /\ breaker (snd (runInvocations config lc bc invs w)) = breaker w
      /\ Forall2 (fun inv r =>
                    exists rep, r = Ok (Some rep)
                      /\ if isHeartbeat (commandBody (inv_event inv))
                         then rep = {| text := Js.Str "HEARTBEAT_OK"; isError := false |}
                         else isError rep = true)
                 invs (fst (runInvocations config lc bc invs w)).
Proof.
  induction invs as [| inv rest IH]; intros w Hge Hat Hall.
  - exists []. cbn. rewrite app_nil_r. repeat split. constructor.
  - apply Forall_cons in Hall as [[Hb Hnow] Hrest].
    assert (Hopen : CircuitBreaker.getState bc (now_isOpen (inv_env inv)) (breaker w)
                    = CircuitBreaker.open).
    { apply getState_tripped; [exact Hge | rewrite Hat; exact Hnow]. }
    destruct (hook_open_run config lc bc (inv_env inv) (inv_event inv) (inv_ctx inv)
                w Hb Hopen) as (r & evs & Hr & Htr & Hcmd & Hbr & Hhb & Herr).
    cbn [runInvocations].
    destruct (before_reply config lc bc (inv_env inv) (inv_event inv) (inv_ctx inv) w)
      as [r1 w1]. cbn [fst snd] in *. subst r1.
    destruct (IH w1) as (evs' & Htr' & Hcmd' & Hbr' & Hres');
      [rewrite Hbr; exact Hge | rewrite Hbr; exact Hat | exact Hrest |].
    destruct (runInvocations config lc bc rest w1) as [rs w2]. cbn [fst snd] in *.
    exists (evs ++ evs'). split; [rewrite Htr', Htr, app_assoc; reflexivity |].
    split; [unfold commands in *; rewrite omap_app, Hcmd, Hcmd'; reflexivity |].
    split; [congruence |].
    constructor; [| exact Hres'].
    exists r. split; [reflexivity |].
    destruct (isHeartbeat (commandBody (inv_event inv)));
      [apply Hhb; reflexivity | apply Herr; reflexivity].
Qed.

(** C6, as stated, fails: the breaker is open, and a heartbeat is still
    answered with [HEARTBEAT_OK], which is not an error reply; the breaker
    is not consulted on that path. *)
Lemma C6_counterexample_heartbeat_while_open :
  isBridged sampleConfig sampleCtx = true
  /\ CircuitBreaker.getState sampleBreaker (now_isOpen (sampleEnv 2000 (Ok None)))
       (breaker trippedWorld) = CircuitBreaker.open
  /\ fst (before_reply sampleConfig sampleLimits sampleBreaker
            (sampleEnv 2000 (Ok None)) (sampleEvent "HEARTBEAT_OK") sampleCtx
            trippedWorld)
     = Ok (Some {| text := Js.Str "HEARTBEAT_OK"; isError := false |}).
Proof. vm_compute. repeat split. Qed.

(** C6, amended.  The hook looks at the body and at the rate limiter before
    it consults the breaker.  Whenever the breaker is open at the reading of
    an invocation on a bridged agent, that invocation sends no command to
    the broker and leaves the breaker as it is; a heartbeat is answered with
    [HEARTBEAT_OK], and every other body with an error reply: the message of
    the rate limiter if it refuses, the unavailability message otherwise.
    And after at least [threshold] failures in a row, this holds for every
    invocation whose reading of the clock is less than the cooldown after
    the last failure. *)
Theorem C6_open_short_circuit :
  (forall (config : RedisBridgeConfig) (lc : RateLimiter.RateLimiterConfig)
          (bc : CircuitBreaker.Config) (env : Env) (event : BeforeReplyEvent)
          (ctx : HookContext) (w : World),
      isBridged config ctx = true ->
      CircuitBreaker.getState bc (now_isOpen env) (breaker w) = CircuitBreaker.open ->
      commands (newEvents (before_reply config lc bc env event ctx) w) = []
      /\ breaker (snd (before_reply config lc bc env event ctx w)) = breaker w
      /\ exists r,
           fst (before_reply config lc bc env event ctx w) = Ok (Some r)
           /\ (isHeartbeat (commandBody event) = true ->
               r = {| text := Js.Str "HEARTBEAT_OK"; isError := false |})
           /\ (isHeartbeat (commandBody event) = false ->
               isError r = true
               /\ forall agent, agentId ctx = Some agent ->
                    text r
                    = match fst (RateLimiter.check lc (now_check_global env)
                                   (now_check_agent env) agent (limiter w)) with
                      | Some msg => Js.Str msg
                      | None => Js.Str MSG_UNAVAILABLE
                      end))
  /\ (forall (config : RedisBridgeConfig) (lc : RateLimiter.RateLimiterConfig)
             (bc : CircuitBreaker.Config) (b0 : CircuitBreaker.State)
             (times : list Z) (invs : list Invocation) (w : World),
      times <> [] ->
      0 <= CircuitBreaker.failures b0 ->
      CircuitBreaker.cfg_threshold bc <= Z.of_nat (length times) ->
      breaker w = recordFailures bc times b0 ->
      Forall (fun inv =>
                isBridged config (inv_ctx inv) = true
                /\ now_isOpen (inv_env inv) - List.last times 0
                   < CircuitBreaker.cfg_cooldownMs bc) invs ->
      exists evs,
        trace (snd (runInvocations config lc bc invs w)) = trace w ++ evs
        /\ commands evs = []
        /\ breaker (snd (runInvocations config lc bc invs w)) = breaker w
        /\ Forall2 (fun inv r =>
                      exists rep, r = Ok (Some rep)
                        /\ if isHeartbeat (commandBody (inv_event inv))
                           then rep = {| text := Js.Str "HEARTBEAT_OK";
                                         isError := false |}
                           else isError rep = true)
                   invs (fst (runInvocations config lc bc invs w))).
Proof.
  split.
  - intros config lc bc env event ctx w Hb Hopen.
    destruct (hook_open_run config lc bc env event ctx w Hb Hopen)
      as (r & evs & Hr & Htr & Hcmd & Hbr & Hhb & Herr).
    unfold newEvents. rewrite Htr, drop_app_length.
    split; [exact Hcmd |]. split; [exact Hbr |].
    exists r. split; [exact Hr |]. split; [exact Hhb | exact Herr].
  - intros config lc bc b0 times invs w Hne H0 Hth Hw Hall.
    destruct (recordFailures_spec bc times b0) as [Hf Ho].
    apply runInvocations_open with (last_failure := List.last times 0).
    + rewrite Hw, Hf. lia.
    + rewrite Hw. apply Ho; [exact Hne | lia].
    + exact Hall.
Qed.

(** Five time-outs, the last at 1000, then a message and a heartbeat at
    2000: neither reaches the broker; the message gets the unavailability
    reply. *)
Lemma C6_open_short_circuit_witness :
  (exists r,
     fst (before_reply sampleConfig sampleLimits sampleBreaker
            (sampleEnv 2000 (Ok None)) (sampleEvent "Bonjour") sampleCtx
            trippedWorld) = Ok (Some r)
     /\ isError r = true /\ text r = Js.Str MSG_UNAVAILABLE)
  /\ exists evs,
       trace (snd (runInvocations sampleConfig sampleLimits sampleBreaker
                     [ {| inv_env := sampleEnv 2000 (Ok None);
                          inv_event := sampleEvent "Bonjour";
                          inv_ctx := sampleCtx |};
                       {| inv_env := sampleEnv 2500 (Ok None);
                          inv_event := sampleEvent "HEARTBEAT_OK";
                          inv_ctx := sampleCtx |} ]
                     trippedWorld)) = trace trippedWorld ++ evs
       /\ commands evs = [].
Proof.
  destruct C6_open_short_circuit as [Hone Hmany].
  split.
  - destruct (Hone sampleConfig sampleLimits sampleBreaker
                (sampleEnv 2000 (Ok None)) (sampleEvent "Bonjour") sampleCtx
                trippedWorld eq_refl eq_refl) as (_ & _ & r & Hr & _ & Herr).
    exists r. split; [exact Hr |].
    destruct (Herr eq_refl) as [He Ht]. split; [exact He |].
    rewrite (Ht "eng-1" eq_refl). reflexivity.
  - destruct (Hmany sampleConfig sampleLimits sampleBreaker
                {| CircuitBreaker.failures := 0; CircuitBreaker.openedAt := 0 |}
                [200; 400; 600; 800; 1000]
                [ {| inv_env := sampleEnv 2000 (Ok None);
                     inv_event := sampleEvent "Bonjour";
                     inv_ctx := sampleCtx |};
                  {| inv_env := sampleEnv 2500 (Ok None);
                     inv_event := sampleEvent "HEARTBEAT_OK";
                     inv_ctx := sampleCtx |} ]
                trippedWorld)
      as (evs & Htr & Hcmd & _).
    + discriminate.
    + simpl. lia.
    + vm_compute. discriminate.
    + reflexivity.
    + repeat constructor; simpl; lia.
    + exists evs. split; assumption.
Defined.

(** ** The fields of the inbound entries *)

Lemma hook_xaddArgs_fieldNames (env : Env) (event : BeforeReplyEvent)
    (agent correlationId : string) :
  exists optional,
    fieldNames (hook_xaddArgs env event agent correlationId)
    = ["correlationId"; "message"; "from"; "agent"; "channel"; "accountId";
       "timestamp"; "sessionKey"; "protocolVersion"] ++ optional
    /\ incl optional OPTIONAL_FIELDS.
Proof.
  unfold hook_xaddArgs, pushIfTruthy.
  destruct (truthy_str (senderName event)), (truthy_str (senderUsername event)),
    (truthy_str (senderId event)), (Js.truthy_opt (transcript event));
    cbn; eexists; (split; [reflexivity |]);
    intros f Hf; cbn in Hf; cbn; tauto.
Qed.

Lemma hook_xaddArgs_mandatory (env : Env) (event : BeforeReplyEvent)
    (agent correlationId : string) :
  hasMandatoryFields (hook_xaddArgs env event agent correlationId).
Proof.
  destruct (hook_xaddArgs_fieldNames env event agent correlationId)
    as (optional & Heq & _).
  intros f Hf. rewrite Heq. apply in_or_app. left.
  cbn in Hf. cbn. tauto.
Qed.

(** Case analysis over what the surroundings decide in [execute]. *)
Ltac tool_cases env :=
  destruct (xadd_reply env) as [? | ?]; cbn;
  [ destruct (brpop_reply env) as [[[? ?raw] |] | ?]; cbn;
    [ destruct (JSON_parse env raw) as [[] |]; cbn;
      repeat match goal with
      | |- context [Js.truthy_opt ?x] => destruct (Js.truthy_opt x) eqn:?; cbn
      end
    | | ]
  | ].

(** Every event of a list, one after the other. *)
Ltac each_event tac :=
  repeat (apply List.Forall_cons; [cbn; tac |]); try apply List.Forall_nil.

(** C8, as stated, fails on the tool: its append carries six fields, and
    [accountId], [sessionKey] and [protocolVersion] are not among them. *)
Lemma C8_counterexample_tool_append :
  In (Cmd redis
        (XADD STREAM_INBOUND "*"
           (tool_xaddArgs sampleToolCtx (sampleEnv 5000 (popped "Salut"))
              "Bonjour" (randomUUID (sampleEnv 5000 (popped "Salut"))))))
     (newEvents (registered_tool sampleConfig sampleToolCtx
                   (sampleEnv 5000 (popped "Salut")) (Some (Js.Str "Bonjour")))
                initialWorld)
  /\ fieldNames (tool_xaddArgs sampleToolCtx (sampleEnv 5000 (popped "Salut"))
                   "Bonjour" (randomUUID (sampleEnv 5000 (popped "Salut"))))
     = ["correlationId"; "message"; "from"; "agent"; "channel"; "timestamp"]
  /\ ~ hasMandatoryFields
         (tool_xaddArgs sampleToolCtx (sampleEnv 5000 (popped "Salut"))
            "Bonjour" (randomUUID (sampleEnv 5000 (popped "Salut")))).
Proof.
  split; [vm_compute; left; reflexivity |].
  split; [reflexivity |].
  intros H. specialize (H "protocolVersion" ltac:(vm_compute; tauto)).
  vm_compute in H.
  repeat destruct H as [H | H]; try discriminate. exact H.
Qed.

(** C8, amended.  Every append of the hook goes to [bridge:inbound] on the
    normal connection and carries the nine fields [correlationId],
    [message], [from], [agent], [channel], [accountId], [timestamp],
    [sessionKey], [protocolVersion], followed only by optional sender and
    transcript fields.  Every append of the tool goes to [bridge:inbound] on
    the connection the tool was given and carries exactly [correlationId],
    [message], [from], [agent], [channel], [timestamp], with [from] equal to
    [proxy].  Names and values are strings in both: the arguments are a list
    of strings. *)
Theorem C8_inbound_entry_fields :
  (forall (config : RedisBridgeConfig) (lc : RateLimiter.RateLimiterConfig)
          (bc : CircuitBreaker.Config) (env : Env) (event : BeforeReplyEvent)
          (ctx : HookContext) (w : World),
      isBridged config ctx = true ->
      Forall (appendsWith (fun c args =>
                c = redis
                /\ hasMandatoryFields args
                /\ exists optional,
                     fieldNames args
                     = ["correlationId"; "message"; "from"; "agent"; "channel";
                        "accountId"; "timestamp"; "sessionKey"; "protocolVersion"]
                       ++ optional
                     /\ incl optional OPTIONAL_FIELDS))
             (newEvents (before_reply config lc bc env event ctx) w))
  /\ (forall (client : Client) (config : RedisBridgeConfig) (tctx : ToolContext)
             (env : Env) (message : option Js.Value) (w : World),
      Forall (appendsWith (fun c args =>
                c = client
                /\ fieldNames args = TOOL_FIELDS
                /\ fieldValue "from" args = Some "proxy"))
             (newEvents (execute client config tctx env message) w)).
Proof.
  split.
  - intros config lc bc env event ctx w. hook_enter agent.
    destruct (isHeartbeat (commandBody event)).
    { cbn. rewrite drop_all. constructor. }
    unfold hook_try, hook_catch. unfold_m.
    destruct (RateLimiter.check _ _ _ _ _) as [msg l']. cbn.
    destruct (truthy_str msg); cbn.
    { destruct (RateLimiter.stats _ _) as [st l'']. cbn. norm_trace.
      each_event ltac:(exact I). }
    destruct (CircuitBreaker.isOpen _ _ _); cbn.
    { norm_trace. each_event ltac:(exact I). }
    destruct (CircuitBreaker.isHalfOpen _ _ _); cbn.
    all: hook_try_cases env.
    all: norm_trace.
    all: each_event ltac:(first
           [ exact I
           | repeat split;
             [ apply hook_xaddArgs_mandatory | apply hook_xaddArgs_fieldNames ] ]).
  - intros client config tctx env message w.
    unfold newEvents, execute.
    destruct (String.eqb _ ""); unfold_m; cbn.
    { norm_trace. each_event ltac:(exact I). }
    tool_cases env.
    all: norm_trace.
    all: each_event ltac:(first [ exact I | repeat split ]).
Qed.

(** The happy path of the hook and of the tool on the same answer. *)
Lemma C8_inbound_entry_fields_witness :
  hasMandatoryFields
    (hook_xaddArgs (sampleEnv 5000 (popped "Salut")) (sampleEvent "Bonjour")
       "eng-1" (randomUUID (sampleEnv 5000 (popped "Salut"))))
  /\ fieldNames
       (tool_xaddArgs sampleToolCtx (sampleEnv 5000 (popped "Salut"))
          "Bonjour" (randomUUID (sampleEnv 5000 (popped "Salut"))))
     = TOOL_FIELDS.
Proof.
  destruct C8_inbound_entry_fields as [Hhook Htool].
  split.
  - pose proof (Hhook sampleConfig sampleLimits sampleBreaker
                  (sampleEnv 5000 (popped "Salut")) (sampleEvent "Bonjour")
                  sampleCtx initialWorld eq_refl) as H.
    rewrite List.Forall_forall in H.
    apply (H (Cmd redis
                (XADD STREAM_INBOUND "*"
                   (hook_xaddArgs (sampleEnv 5000 (popped "Salut"))
                      (sampleEvent "Bonjour") "eng-1"
                      (randomUUID (sampleEnv 5000 (popped "Salut"))))))).
    vm_compute. right; right; left; reflexivity.
  - pose proof (Htool redis sampleConfig sampleToolCtx
                  (sampleEnv 5000 (popped "Salut")) (Some (Js.Str "Bonjour"))
                  initialWorld) as H.
    rewrite List.Forall_forall in H.
    apply (H (Cmd redis
                (XADD STREAM_INBOUND "*"
                   (tool_xaddArgs sampleToolCtx (sampleEnv 5000 (popped "Salut"))
                      "Bonjour" (randomUUID (sampleEnv 5000 (popped "Salut"))))))).
    vm_compute. left; reflexivity.
Defined.

(** ** The parsed engine response *)

Lemma hook_object_response (config : RedisBridgeConfig)
    (lc : RateLimiter.RateLimiterConfig) (bc : CircuitBreaker.Config)
    (env : Env) (event : BeforeReplyEvent) (ctx : HookContext) (w : World)
    (key raw : string) (fields : list (string * Js.Value)) :
  isBridged config ctx = true ->
  brpop_reply env = Ok (Some (key, raw)) ->
  JSON_parse env raw = Some (Js.Obj fields) ->
  Js.lookup_last "error" fields = None ->
  Js.lookup_last "text" fields = None ->
  existsb isPop (newEvents (before_reply config lc bc env event ctx) w) = true ->
  fst (before_reply config lc bc env event ctx w)
  = Ok (Some {| text := Js.Str raw; isError := false |})
  /\ count_events isBreakerSuccess
       (newEvents (before_reply config lc bc env event ctx) w) = 1%nat
  /\ count_events isBreakerFailure
       (newEvents (before_reply config lc bc env event ctx) w) = 0%nat
  /\ breaker (snd (before_reply config lc bc env event ctx w))
     = {| CircuitBreaker.failures := 0; CircuitBreaker.openedAt := 0 |}.
Proof.
  intros Hb Hbr Hparse Herr Htext. revert Hb. hook_enter agent.
  destruct (isHeartbeat (commandBody event)).
  { cbn. rewrite drop_all. discriminate. }
  unfold hook_try, hook_catch. unfold_m.
  rewrite Hbr.
  destruct (RateLimiter.check _ _ _ _ _) as [msg l']. cbn.
  destruct (truthy_str msg); cbn.
  { destruct (RateLimiter.stats _ _) as [st l'']. cbn. norm_trace. discriminate. }
  destruct (CircuitBreaker.isOpen _ _ _); cbn.
  { norm_trace. discriminate. }
  destruct (CircuitBreaker.isHalfOpen _ _ _); cbn.
  all: destruct (isRedisReady env); [| destruct (ensureConnected env)]; cbn.
  all: try (destruct (xadd_reply env) as [? | ?]; cbn).
  all: rewrite ?Hparse; cbn; rewrite ?Herr; unfold Js.truthy_opt; cbn;
       rewrite ?Htext; unfold Js.nullish_or.
  all: norm_trace; try discriminate.
  all: intros _; repeat split.
Qed.

Lemma tool_object_response (client : Client) (config : RedisBridgeConfig)
    (tctx : ToolContext) (env : Env) (message : option Js.Value) (w : World)
    (key raw : string) (fields : list (string * Js.Value)) :
  brpop_reply env = Ok (Some (key, raw)) ->
  JSON_parse env raw = Some (Js.Obj fields) ->
  Js.lookup_last "error" fields = None ->
  Js.lookup_last "text" fields = None ->
  existsb isPop (newEvents (execute client config tctx env message) w) = true ->
  fst (execute client config tctx env message w)
  = Ok {| content := [ {| block_text := Js.Str raw |} ] |}.
Proof.
  intros Hbr Hparse Herr Htext. unfold newEvents, execute.
  destruct (String.eqb _ ""); unfold_m; cbn.
  { norm_trace. discriminate. }
  rewrite Hbr. destruct (xadd_reply env) as [? | ?]; cbn.
  all: rewrite ?Hparse; cbn; rewrite ?Herr; unfold Js.truthy_opt; cbn;
       rewrite ?Htext; unfold Js.nullish_or.
  all: norm_trace; try discriminate.
  reflexivity.
Qed.

Lemma parseResponse_fallback (env : Env) (raw : string) (w : World) :
  fst (parseResponse env raw w)
  = Ok (match JSON_parse env raw with
        | Some v => v
        | None => Js.Obj [("text", Js.Str raw)]
        end)
  /\ (existsb isThrown (newEvents (parseResponse env raw) w) = true
      <-> JSON_parse env raw = None).
Proof.
  unfold newEvents. unfold_m.
  destruct (JSON_parse env raw) as [v |]; cbn.
  - rewrite drop_all. cbn. split; [reflexivity | split; discriminate].
  - rewrite drop_app_length. cbn. split; [reflexivity | split; reflexivity].
Qed.

(** C10. Let the blocking pop return [raw] and [JSON.parse(raw)] be an
    object with neither an [error] nor a [text] field.  Then a run of the
    hook that reaches the pop calls [recordSuccess] (once, and
    [recordFailure] not at all, so the breaker is reset) and replies with
    [raw] itself as the text, without the error flag; and a run of the tool
    that reaches the pop returns [raw] as its text content.  The value the
    two inspect is what [JSON.parse] returns whenever it returns, and the
    object [{text: raw}] exactly when it throws. *)
Theorem C10_object_without_error_or_text :
  (forall (config : RedisBridgeConfig) (lc : RateLimiter.RateLimiterConfig)
          (bc : CircuitBreaker.Config) (env : Env) (event : BeforeReplyEvent)
          (ctx : HookContext) (w : World) (key raw : string)
          (fields : list (string * Js.Value)),
      isBridged config ctx = true ->
      brpop_reply env = Ok (Some (key, raw)) ->
      JSON_parse env raw = Some (Js.Obj fields) ->
      Js.lookup_last "error" fields = None ->
      Js.lookup_last "text" fields = None ->
      existsb isPop (newEvents (before_reply config lc bc env event ctx) w) = true ->
      fst (before_reply config lc bc env event ctx w)
      = Ok (Some {| text := Js.Str raw; isError := false |})
      /\ count_events isBreakerSuccess
           (newEvents (before_reply config lc bc env event ctx) w) = 1%nat
      /\ count_events isBreakerFailure
           (newEvents (before_reply config lc bc env event ctx) w) = 0%nat
      /\ breaker (snd (before_reply config lc bc env event ctx w))
         = {| CircuitBreaker.failures := 0; CircuitBreaker.openedAt := 0 |})
  /\ (forall (client : Client) (config : RedisBridgeConfig) (tctx : ToolContext)
             (env : Env) (message : option Js.Value) (w : World)
             (key raw : string) (fields : list (string * Js.Value)),
      brpop_reply env = Ok (Some (key, raw)) ->
      JSON_parse env raw = Some (Js.Obj fields) ->
      Js.lookup_last "error" fields = None ->
      Js.lookup_last "text" fields = None ->
      existsb isPop (newEvents (execute client config tctx env message) w) = true ->
      fst (execute client config tctx env message w)
      = Ok {| content := [ {| block_text := Js.Str raw |} ] |})
  /\ (forall (env : Env) (raw : string) (w : World),
      fst (parseResponse env raw w)
      = Ok (match JSON_parse env raw with
            | Some v => v
            | None => Js.Obj [("text", Js.Str raw)]
            end)
      /\ (existsb isThrown (newEvents (parseResponse env raw) w) = true
          <-> JSON_parse env raw = None)).
Proof.
  split; [exact hook_object_response |].
  split; [exact tool_object_response | exact parseResponse_fallback].
Qed.

(** The engine answers with the two characters of the empty object. *)
Lemma C10_object_without_error_or_text_witness :
  fst (before_reply sampleConfig sampleLimits sampleBreaker
         (sampleEnv 5000 (popped "{}")) (sampleEvent "Bonjour") sampleCtx
         initialWorld)
  = Ok (Some {| text := Js.Str "{}"; isError := false |})
  /\ fst (execute redis sampleConfig sampleToolCtx
            (sampleEnv 5000 (popped "{}")) (Some (Js.Str "Bonjour")) initialWorld)
     = Ok {| content := [ {| block_text := Js.Str "{}" |} ] |}.
Proof.
  destruct C10_object_without_error_or_text as (Hhook & Htool & _).
  split.
  - apply (Hhook sampleConfig sampleLimits sampleBreaker
             (sampleEnv 5000 (popped "{}")) (sampleEvent "Bonjour") sampleCtx
             initialWorld "bridge:response:0b0e7a36-5c1f-4b7e-9d57-2f1c8a4e6d10"
             "{}" []); reflexivity.
  - apply (Htool redis sampleConfig sampleToolCtx
             (sampleEnv 5000 (popped "{}")) (Some (Js.Str "Bonjour")) initialWorld
             "bridge:response:0b0e7a36-5c1f-4b7e-9d57-2f1c8a4e6d10" "{}" []);
      reflexivity.
Defined.

(** ** A small logic of traces *)

Section Emits.

Variable P : Event -> Prop.

Lemma emits_ret {A} (a : A) : emits P (ret a).
Proof. intros w. exists []. cbn. rewrite app_nil_r. split; constructor. Qed.

Lemma emits_emit (e : Event) : P e -> emits P (emit e).
Proof. intros He w. exists [e]. cbn. split; [reflexivity | repeat constructor; exact He]. Qed.

Lemma emits_log (level : LogLevel) (msg : LogMsg) :
  P (Log level msg) -> emits P (log level msg).
Proof. apply emits_emit. Qed.

Lemma emits_throw {A} (o : Origin) (e : Js.Exn) :
  P (Thrown o e) -> emits P (@throw A o e).
Proof. intros He w. exists [Thrown o e]. cbn. split; [reflexivity | repeat constructor; exact He]. Qed.

Lemma emits_await {A} (o : Origin) (r : Outcome A) :
  (forall e, P (Thrown o e)) -> emits P (await o r).
Proof. intros He. destruct r; cbn; [apply emits_ret | apply emits_throw, He]. Qed.

Lemma emits_bind {A B} (m : M A) (k : A -> M B) :
  emits P m -> (forall a, emits P (k a)) -> emits P (bind m k).
Proof.
  intros Hm Hk w. unfold bind. destruct (Hm w) as (evs & Htr & Hall).
  destruct (m w) as [[a | e] w1]; cbn in *.
  - destruct (Hk a w1) as (evs' & Htr' & Hall').
    exists (evs ++ evs'). rewrite Htr', Htr, app_assoc.
    split; [reflexivity | apply Forall_app; split; assumption].
  - exists evs. split; assumption.
Qed.

Lemma emits_try_catch {A} (body : M A) (handler : Js.Exn -> M A) :
  emits P body -> (forall e, emits P (handler e)) -> emits P (try_catch body handler).
Proof.
  intros Hm Hk w. unfold try_catch. destruct (Hm w) as (evs & Htr & Hall).
  destruct (body w) as [[a | e] w1]; cbn in *.
  - exists evs. split; assumption.
  - destruct (Hk e w1) as (evs' & Htr' & Hall').
    exists (evs ++ evs'). rewrite Htr', Htr, app_assoc.
    split; [reflexivity | apply Forall_app; split; assumption].
Qed.

Lemma emits_getCliBinary : emits P getCliBinary.
Proof. intros w. exists []. cbn. rewrite app_nil_r. split; constructor. Qed.

Lemma emits_setCliBinary (b : option string) : emits P (setCliBinary b).
Proof. intros w. exists []. cbn. rewrite app_nil_r. split; constructor. Qed.

End Emits.

(** One step of a compositional proof of [emits], by the shape of the
    computation. *)
Ltac emits_step :=
  lazymatch goal with
  | |- emits _ (bind _ _) => apply emits_bind; [| intros ?]
  | |- emits _ (try_catch _ _) => apply emits_try_catch; [| intros ?]
  | |- emits _ (ret _) => apply emits_ret
  | |- emits _ getCliBinary => apply emits_getCliBinary
  | |- emits _ (setCliBinary _) => apply emits_setCliBinary
  | |- emits _ (await _ _) => apply emits_await; intros ?
  | |- emits _ (throw _ _) => apply emits_throw
  | |- emits _ (log _ _) => apply emits_log
  | |- emits _ (emit _) => apply emits_emit
  | |- emits _ (if ?b then _ else _) => destruct b
  | |- emits _ (match ?x with _ => _ end) => destruct x
  | |- emits _ (let _ := _ in _) => cbv zeta
  end.

(** ** The outbound worker *)

Section ListenerTraces.

Variable client : Client.
Variable config : RedisBridgeConfig.

Ltac on_client :=
  unfold onClient; intros; first [discriminate | congruence].

Lemma deliverChunks_onClient (env : EntryEnv) (binary channel to : string)
    (account : option string) (chunks : list string) :
  forall i, emits (onClient client) (deliverChunks env binary channel to account i chunks).
Proof.
  induction chunks as [| chunk rest IH]; intros i; cbn [deliverChunks].
  - apply emits_ret.
  - repeat emits_step; try on_client. apply IH.
Qed.

Lemma tryPublish_onClient (env : EntryEnv) (message : string) :
  emits (onClient client) (tryPublish config env message).
Proof. unfold tryPublish. repeat emits_step; on_client. Qed.

Lemma deliver_onClient (env : EntryEnv) (entryId message to channel : string)
    (account : option string) :
  emits (onClient client) (deliver client config env entryId message to channel account).
Proof.
  unfold deliver.
  repeat first [ apply deliverChunks_onClient | apply tryPublish_onClient | emits_step ];
    on_client.
Qed.

Lemma deadLetterCheck_onClient (env : EntryEnv) (entryId : string) :
  emits (onClient client) (deadLetterCheck client config env entryId).
Proof. unfold deadLetterCheck. repeat emits_step; on_client. Qed.

Lemma processEntry_onClient (env : EntryEnv) (entryId : string)
    (fields : list string) :
  emits (onClient client) (processEntry client config env entryId fields).
Proof.
  unfold processEntry.
  repeat first [ apply deadLetterCheck_onClient | apply deliver_onClient | emits_step ];
    on_client.
Qed.

Lemma processEntries_onClient (envOf : string -> EntryEnv)
    (entries : list (string * list string)) :
  emits (onClient client) (processEntries client config envOf entries).
Proof.
  induction entries as [| [entryId fields] rest IH]; cbn [processEntries].
  - apply emits_ret.
  - apply emits_bind; [apply processEntry_onClient | intros _; exact IH].
Qed.

Lemma processStreams_onClient (envOf : string -> EntryEnv)
    (results : list (string * list (string * list string))) :
  emits (onClient client) (processStreams client config envOf results).
Proof.
  induction results as [| [name entries] rest IH]; cbn [processStreams].
  - apply emits_ret.
  - apply emits_bind; [apply processEntries_onClient | intros _; exact IH].
Qed.

(** A turn of the poll loop starts with the blocking read on the worker's
    connection, and everything after it stays on that connection. *)
Lemma pollOnce_starts_with_read
    (reply : Outcome (option (list (string * list (string * list string)))))
    (envOf : string -> EntryEnv) (w : World) :
  exists rest,
    newEvents (pollOnce client config reply envOf) w
    = Cmd client (XREADGROUP ["GROUP"; consumerGroup config; consumerName config;
                              "COUNT"; "10"; "BLOCK"; "5000";
                              "STREAMS"; STREAM_OUTBOUND; ">"]) :: rest
    /\ Forall (onClient client) rest.
Proof.
  unfold newEvents, pollOnce.
  set (read := Cmd client (XREADGROUP _)).
  assert (Hbody : emits (onClient client)
            (results <- await ByBroker reply ;;
             match results with
             | Some results => processStreams client config envOf results
             | None => ret tt
             end)%bridge).
  { repeat first [ apply processStreams_onClient | emits_step ]; on_client. }
  unfold try_catch. unfold bind at 1. cbn [emit].
  destruct (Hbody (record_event read w)) as (evs & Htr & Hall).
  match goal with
  | |- context [match ?m (record_event read w) with _ => _ end] =>
      destruct (m (record_event read w)) as [[a | e] w1]
  end; cbn [fst snd] in *.
  - exists evs. rewrite Htr. cbn. rewrite <- app_assoc, drop_app_length.
    split; [reflexivity | exact Hall].
  - cbn. rewrite Htr. cbn. rewrite <- !app_assoc, drop_app_length. cbn.
    eexists. split; [reflexivity |].
    apply Forall_app. split; [exact Hall | repeat constructor; on_client].
Qed.

End ListenerTraces.

Arguments parseFields : simpl never.
Arguments Splitter.splitMessage_string : simpl never.

(** What [processEntry] does before the delivery, for a well-formed entry,
    by the answer of the pending-list inspection:
    - the inspection reports more than five deliveries and the
      acknowledgement succeeds: the entry is dead-lettered, and nothing else
      happens;
    - the inspection fails: the check is skipped and the delivery starts;
    - the inspection reports more than five deliveries and the
      acknowledgement is rejected: the rejection is swallowed by the [catch]
      of the check, and the delivery starts all the same. *)
Lemma processEntry_dead_letter (client : Client) (config : RedisBridgeConfig)
    (env : EntryEnv) (entryId : string) (fields : list string) (w : World) :
  wellFormed fields = true ->
  let inspect := Cmd client (XPENDING STREAM_OUTBOUND (consumerGroup config)
                               entryId entryId 1) in
  let ack := Cmd client (XACK STREAM_OUTBOUND (consumerGroup config) entryId) in
  let delivering := Log info (Delivering
                                (default "" (parseFields fields ∅ !! "to"))
                                (default "" (parseFields fields ∅ !! "channel"))) in
  (forall d rest n,
      xpending_reply env = Ok (d :: rest) ->
      DEAD_LETTER_MAX_RETRIES < default 0 (pd_deliveryCount d) ->
      xack_deadletter_reply env = Ok n ->
      fst (processEntry client config env entryId fields w) = Ok tt
      /\ newEvents (processEntry client config env entryId fields) w
         = [inspect;
            Log error (DeadLettering entryId (default 0 (pd_deliveryCount d)));
            ack])
  /\ (forall e,
      xpending_reply env = Threw e ->
      exists evs,
        newEvents (processEntry client config env entryId fields) w
        = [inspect; Thrown ByBroker e; delivering] ++ evs)
  /\ (forall d rest e,
      xpending_reply env = Ok (d :: rest) ->
      DEAD_LETTER_MAX_RETRIES < default 0 (pd_deliveryCount d) ->
      xack_deadletter_reply env = Threw e ->
      exists evs,
        newEvents (processEntry client config env entryId fields) w
        = [inspect;
           Log error (DeadLettering entryId (default 0 (pd_deliveryCount d)));
           ack; Thrown ByBroker e; delivering] ++ evs).
Proof.
  intros Hwf inspect ack delivering. unfold wellFormed in Hwf.
  apply andb_true_iff in Hwf as [Hwf Hc]. apply andb_true_iff in Hwf as [Hm Ht].
  unfold newEvents, processEntry. rewrite Hm, Ht, Hc. cbn [negb orb].
  unfold deadLetterCheck. unfold_m.
  split; [| split].
  - intros d rest n Hp Hgt Hack. rewrite Hp, Hack. cbn.
    apply Z.ltb_lt in Hgt. rewrite Hgt. cbn.
    rewrite <- !app_assoc. cbn. rewrite drop_app_length. split; reflexivity.
  - intros e Hp. rewrite Hp. cbn.
    match goal with
    | |- context [deliver ?c ?cf ?en ?id ?m ?t ?ch ?a ?w1] =>
        destruct (deliver_onClient c cf en id m t ch a w1) as (evs & Htr & _)
    end.
    exists evs. rewrite Htr. cbn. rewrite <- !app_assoc. cbn.
    rewrite drop_app_length. reflexivity.
  - intros d rest e Hp Hgt Hack. rewrite Hp, Hack. cbn.
    apply Z.ltb_lt in Hgt. rewrite Hgt. cbn.
    match goal with
    | |- context [deliver ?c ?cf ?en ?id ?m ?t ?ch ?a ?w1] =>
        destruct (deliver_onClient c cf en id m t ch a w1) as (evs & Htr & _)
    end.
    exists evs. rewrite Htr. cbn. rewrite <- !app_assoc. cbn.
    rewrite drop_app_length. reflexivity.
Qed.

(** C9 at its failing input.  The entry is well formed, the pending list
    reports six deliveries, and the acknowledgement of the dead letter is
    rejected: the error is logged and the acknowledgement issued, but the
    message is delivered through the CLI once more and acknowledged after
    the delivery. *)
Theorem C9_dead_letter_delivered_when_ack_rejected :
  wellFormed sampleFields = true
  /\ newEvents (registered_processEntry sampleConfig
                  (sampleEntryEnv 6 (Threw (Js.Error "Connection is closed.")))
                  "1700000000000-0" sampleFields) initialWorld
     = [ Cmd redis (XPENDING "bridge:outbound" "clawdbot-bridge"
                      "1700000000000-0" "1700000000000-0" 1);
         Log error (DeadLettering "1700000000000-0" 6);
         Cmd redis (XACK "bridge:outbound" "clawdbot-bridge" "1700000000000-0");
         Thrown ByBroker (Js.Error "Connection is closed.");
         Log info (Delivering "42" "telegram");
         Exec "openclaw" ["message"; "send"; "--channel"; "telegram";
                          "--target"; "42"; "--message"; "Bonjour"];
         Cmd redis (XACK "bridge:outbound" "clawdbot-bridge" "1700000000000-0") ]
  /\ count_events isExec
       (newEvents (registered_processEntry sampleConfig
                     (sampleEntryEnv 6 (Threw (Js.Error "Connection is closed.")))
                     "1700000000000-0" sampleFields) initialWorld) = 1%nat.
Proof. vm_compute. repeat split. Qed.

(** ** The connections *)

(** Every command of the tool goes out on the connection the tool was
    given. *)
Lemma execute_onClient (client : Client) (config : RedisBridgeConfig)
    (tctx : ToolContext) (env : Env) (message : option Js.Value) :
  emits (onClient client) (execute client config tctx env message).
Proof.
  unfold execute, parseResponse, JSON_parse_call, readProp.
  repeat emits_step; unfold onClient; intros; first [discriminate | congruence].
Qed.

(** The hook sends its blocking pop, and nothing else, on the dedicated
    connection. *)
Lemma hook_connections (config : RedisBridgeConfig)
    (lc : RateLimiter.RateLimiterConfig) (bc : CircuitBreaker.Config)
    (env : Env) (event : BeforeReplyEvent) (ctx : HookContext) (w : World) :
  isBridged config ctx = true ->
  Forall (fun e => forall c cmd, e = Cmd c cmd ->
                   (c = redisBlocking <-> isBlockingRead cmd = true))
         (newEvents (before_reply config lc bc env event ctx) w).
Proof.
  hook_enter agent.
  destruct (isHeartbeat (commandBody event)).
  { cbn. rewrite drop_all. constructor. }
  unfold hook_try, hook_catch. unfold_m.
  destruct (RateLimiter.check _ _ _ _ _) as [msg l']. cbn.
  destruct (truthy_str msg); cbn.
  { destruct (RateLimiter.stats _ _) as [st l'']. cbn. norm_trace.
    each_event ltac:(intros; discriminate). }
  destruct (CircuitBreaker.isOpen _ _ _); cbn.
  { norm_trace. each_event ltac:(intros; discriminate). }
  destruct (CircuitBreaker.isHalfOpen _ _ _); cbn.
  all: hook_try_cases env.
  all: norm_trace.
  all: each_event ltac:(intros ? ? [= <- <-]; cbn; split; first [discriminate | reflexivity]).
Qed.

(** C7 at its failing inputs.  A call of the tool sends its blocking pop on
    [redis], the normal connection, and nothing on [redisBlocking]; so does
    a turn of the worker with its blocking group read.  On the same request
    the hook sends the append on [redis] and the pop on [redisBlocking]. *)
Theorem C7_blocking_reads_on_normal_connection :
  commandsOn redis
    (newEvents (registered_tool sampleConfig sampleToolCtx
                  (sampleEnv 5000 (popped "Salut")) (Some (Js.Str "Bonjour")))
               initialWorld)
  = [ XADD "bridge:inbound" "*"
        ["correlationId"; "0b0e7a36-5c1f-4b7e-9d57-2f1c8a4e6d10";
         "message"; "Bonjour"; "from"; "proxy"; "agent"; "eng-1";
         "channel"; "telegram"; "timestamp"; "5000"];
      BRPOP "bridge:response:0b0e7a36-5c1f-4b7e-9d57-2f1c8a4e6d10" 120 ]
  /\ commandsOn redisBlocking
       (newEvents (registered_tool sampleConfig sampleToolCtx
                     (sampleEnv 5000 (popped "Salut")) (Some (Js.Str "Bonjour")))
                  initialWorld) = []
  /\ commandsOn redis
       (newEvents (registered_pollOnce sampleConfig (Ok None)
                     (fun _ => sampleEntryEnv 1 (Ok 1))) initialWorld)
     = [ XREADGROUP ["GROUP"; "clawdbot-bridge"; "clawdbot-1"; "COUNT"; "10";
                     "BLOCK"; "5000"; "STREAMS"; "bridge:outbound"; ">"] ]
  /\ commandsOn redisBlocking
       (newEvents (registered_pollOnce sampleConfig (Ok None)
                     (fun _ => sampleEntryEnv 1 (Ok 1))) initialWorld) = []
  /\ existsb isBlockingRead
       (commandsOn redis
          (newEvents (registered_tool sampleConfig sampleToolCtx
                        (sampleEnv 5000 (popped "Salut")) (Some (Js.Str "Bonjour")))
                     initialWorld)
        ++ commandsOn redis
             (newEvents (registered_pollOnce sampleConfig (Ok None)
                           (fun _ => sampleEntryEnv 1 (Ok 1))) initialWorld)) = true
  /\ commandsOn redisBlocking
       (newEvents (before_reply sampleConfig sampleLimits sampleBreaker
                     (sampleEnv 5000 (popped "Salut")) (sampleEvent "Bonjour")
                     sampleCtx) initialWorld)
     = [ BRPOP "bridge:response:0b0e7a36-5c1f-4b7e-9d57-2f1c8a4e6d10" 120 ].
Proof. vm_compute. repeat split. Qed.

(* ===================================================================== *)
(** * Further properties *)
(* ===================================================================== *)

Import Vocabulary Cases.

(** ** More on the circuit breaker *)

(** X1.  After a success the breaker counts from zero: with [n] failures since,
    [consecutiveFailures] is [n], the circuit is closed exactly while [n] is
    below the threshold, and from the threshold on it is open exactly
    until the cooldown has passed since the last of the failures. *)
Lemma breaker_counts_from_reset (c : CircuitBreaker.Config) (b : CircuitBreaker.State)
    (times : list Z) (now : Z) :
  consecutiveFailures (recordFailures c times (recordSuccess b))
  = Z.of_nat (length times)
  /\ (getState c now (recordFailures c times (recordSuccess b)) = closed
      <-> Z.of_nat (length times) < cfg_threshold c)
  /\ (times <> [] -> cfg_threshold c <= Z.of_nat (length times) ->
      (getState c now (recordFailures c times (recordSuccess b)) = open
       <-> now - List.last times 0 < cfg_cooldownMs c)).
Proof.
  destruct (recordFailures_spec c times (recordSuccess b)) as [Hf Ho].
  change (failures (recordSuccess b)) with 0 in Hf, Ho.
  assert (Hn : failures (recordFailures c times (recordSuccess b))
               = Z.of_nat (length times)) by (rewrite Hf; lia).
  split; [exact Hn |].
  split.
  - rewrite getState_closed_iff, Hn. reflexivity.
  - intros Hne Hge.
    destruct (getState_tripped c now (recordFailures c times (recordSuccess b)))
      as [_ Hopen]; [rewrite Hn; exact Hge |].
    rewrite Ho in Hopen by (assumption || lia). exact Hopen.
Qed.

(** Five failures after a success, the last at 5000: the circuit is open at 6000. *)
Lemma breaker_counts_from_reset_witness :
  getState sampleBreaker 6000
    (recordFailures sampleBreaker [1000; 2000; 3000; 4000; 5000]
       (recordSuccess (breaker trippedWorld)))
  = open.
Proof.
  apply (proj2 (proj2 (breaker_counts_from_reset sampleBreaker (breaker trippedWorld)
                         [1000; 2000; 3000; 4000; 5000] 6000))).
  - discriminate.
  - vm_compute. discriminate.
  - vm_compute. reflexivity.
Defined.

(** ** More on the rate limiter *)

Lemma windowOf_insert (agent k : string) (a : list WindowEntry)
    (m : gmap string (list WindowEntry)) (g : list WindowEntry) (l : Z) :
  windowOf k {| globalWindow := g; agentWindows := <[agent := a]> m; lastAlertAt := l |}
  = if decide (agent = k) then a else default [] (m !! k).
Proof.
  unfold windowOf. simpl. destruct (decide (agent = k)) as [-> | Hne].
  - rewrite lookup_insert_eq. reflexivity.
  - rewrite lookup_insert_ne by exact Hne. reflexivity.
Qed.

Lemma record_unfold (now : Z) (agent : string) (s : RateLimiter.State) :
  record now agent s
  = {| globalWindow := globalWindow s ++ [ {| timestamp := now |} ];
       agentWindows := <[agent := windowOf agent s ++ [ {| timestamp := now |} ]]>
                         (agentWindows s);
       lastAlertAt := lastAlertAt s |}.
Proof.
  unfold record.
  pose proof (getAgentWindow_fst agent (agentWindows s)) as Hf.
  pose proof (fun x => getAgentWindow_insert agent (agentWindows s) x) as Hi.
  destruct (getAgentWindow agent (agentWindows s)) as [w m]. simpl in Hf, Hi.
  subst w. fold (windowOf agent s). rewrite Hi. reflexivity.
Qed.

Lemma stats_unfold (clk : StatsClock) (s : RateLimiter.State) :
  globalWindow (snd (stats clk s)) = pruneWindow (sc_global clk) (globalWindow s)
  /\ (forall k, windowOf k (snd (stats clk s))
                = pruneWindow (sc_agent clk k) (windowOf k s))
  /\ lastAlertAt (snd (stats clk s)) = lastAlertAt s.
Proof.
  unfold stats. cbn [snd globalWindow lastAlertAt]. repeat split.
  intros k. unfold windowOf. cbn [agentWindows].
  rewrite map_lookup_imap. destruct (agentWindows s !! k); reflexivity.
Qed.





Arguments RateLimiter.pruneWindow : simpl nomatch.

Lemma pruneWindow_length (now : Z) (window : list WindowEntry) :
  (length (pruneWindow now window) <= length window)%nat.
Proof. apply suffix_length, pruneWindow_suffix. Qed.

Lemma sendAlert_noCli_windows (cfg : RateLimiterConfig) (now : Z) (clk : StatsClock)
    (s : RateLimiter.State) :
  globalWindow (sendAlert_noCli cfg now clk s) `suffix_of` globalWindow s
  /\ forall k, windowOf k (sendAlert_noCli cfg now clk s) `suffix_of` windowOf k s.
Proof.
  unfold sendAlert_noCli.
  destruct (String.eqb _ _); [split; reflexivity |].
  destruct (_ <? _); [split; reflexivity |].
  match goal with |- context [stats clk ?s1] =>
    destruct (stats_unfold clk s1) as (Hg & Hk & _) end.
  rewrite Hg. split; [apply pruneWindow_suffix |].
  intros k. rewrite Hk. apply pruneWindow_suffix.
Qed.

Lemma stats_windows (clk : StatsClock) (s : RateLimiter.State) :
  globalWindow (snd (stats clk s)) `suffix_of` globalWindow s
  /\ forall k, windowOf k (snd (stats clk s)) `suffix_of` windowOf k s.
Proof.
  destruct (stats_unfold clk s) as (Hg & Hk & _).
  rewrite Hg. split; [apply pruneWindow_suffix |].
  intros k. rewrite Hk. apply pruneWindow_suffix.
Qed.

Lemma check_windows (cfg : RateLimiterConfig) (nowG nowA : Z) (agent : string)
    (s : RateLimiter.State) :
  globalWindow (snd (check cfg nowG nowA agent s)) `suffix_of` globalWindow s
  /\ forall k, windowOf k (snd (check cfg nowG nowA agent s)) `suffix_of` windowOf k s.
Proof.
  rewrite check_unfold. cbn [snd globalWindow]. split; [apply pruneWindow_suffix |].
  intros k. rewrite windowOf_insert. destruct (decide (agent = k)) as [-> | _];
    [apply pruneWindow_suffix | reflexivity].
Qed.

(** The limiter after a run of the hook. *)
Lemma hook_limiter_after (config : RedisBridgeConfig) (lc : RateLimiterConfig)
    (bc : CircuitBreaker.Config) (env : Env) (event : BeforeReplyEvent)
    (ctx : HookContext) (w : World) :
  limiter (snd (before_reply config lc bc env event ctx w))
  = match agentId ctx with
    | Some agent =>
        if isBridged config ctx && negb (isHeartbeat (commandBody event)) then
          let r := check lc (now_check_global env) (now_check_agent env) agent (limiter w) in
          if truthy_str (fst r)
          then sendAlert_noCli lc (now_alert env) (now_alert_stats env)
                 (snd (stats (now_stats env) (snd r)))
          else record (now_record env) agent (snd r)
        else limiter w
    | None => limiter w
    end.
Proof.
  unfold isBridged, before_reply.
  destruct (agentId ctx) as [agent |]; [| reflexivity].
  destruct (String.eqb agent ""); cbn; [reflexivity |].
  destruct (isEngineAgent agent config); cbn; [| reflexivity].
  destruct (isHeartbeat (commandBody event)); cbn; [reflexivity |].
  unfold hook_try, hook_catch. unfold_m.
  destruct (RateLimiter.check _ _ _ _ _) as [msg l']. cbn.
  destruct (truthy_str msg); cbn.
  { destruct (RateLimiter.stats _ _) as [st l'']. cbn. reflexivity. }
  destruct (CircuitBreaker.isOpen _ _ _); cbn; [reflexivity |].
  destruct (CircuitBreaker.isHalfOpen _ _ _); cbn.
  all: hook_try_cases env.
  all: reflexivity.
Qed.

(** An admitted request: after [check] lets it through and [record] writes
    it, the entry sits at the end of the two pruned windows, which are then
    within their limits; no other agent's window changes. *)
Lemma admitted_request_within_limits (cfg : RateLimiterConfig) (nowG nowA now : Z)
    (agent : string) (s : RateLimiter.State) :
  fst (check cfg nowG nowA agent s) = None ->
  globalWindow (record now agent (snd (check cfg nowG nowA agent s)))
  = pruneWindow nowG (globalWindow s) ++ [ {| timestamp := now |} ]
  /\ windowOf agent (record now agent (snd (check cfg nowG nowA agent s)))
     = pruneWindow nowA (windowOf agent s) ++ [ {| timestamp := now |} ]
  /\ (forall k, k <> agent ->
        windowOf k (record now agent (snd (check cfg nowG nowA agent s)))
        = windowOf k s)
  /\ Z.of_nat (length (globalWindow (record now agent (snd (check cfg nowG nowA agent s)))))
     <= maxRequestsPerHour cfg
  /\ Z.of_nat (length (windowOf agent (record now agent (snd (check cfg nowG nowA agent s)))))
     <= maxRequestsPerAgentPerHour cfg.
Proof.
  intros Hnone. rewrite record_unfold. revert Hnone. rewrite check_unfold.
  cbn [fst snd globalWindow agentWindows lastAlertAt].
  rewrite !windowOf_insert. destruct (decide (agent = agent)) as [_ | ?]; [| congruence].
  destruct (Z.leb_spec (maxRequestsPerAgentPerHour cfg)
              (Z.of_nat (length (pruneWindow nowA (windowOf agent s)))));
    [discriminate |].
  destruct (Z.leb_spec (maxRequestsPerHour cfg)
              (Z.of_nat (length (pruneWindow nowG (globalWindow s)))));
    [discriminate |].
  intros _. split; [reflexivity |]. split; [reflexivity |].
  split.
  { intros k Hk. rewrite windowOf_insert.
    destruct (decide (agent = k)) as [-> | Hne]; [congruence |].
    rewrite lookup_insert_ne by exact Hne. reflexivity. }
  rewrite !length_app. cbn [length]. lia.
Qed.

(** Every run of the hook keeps the windows of the limiter within their
    limits. *)
Lemma hook_keeps_within_limits (config : RedisBridgeConfig) (lc : RateLimiterConfig)
    (bc : CircuitBreaker.Config) (env : Env) (event : BeforeReplyEvent)
    (ctx : HookContext) (w : World) :
  withinLimits lc (limiter w) ->
  withinLimits lc (limiter (snd (before_reply config lc bc env event ctx w))).
Proof.
  intros [Hg Hk]. rewrite hook_limiter_after.
  destruct (agentId ctx) as [agent |]; [| split; assumption].
  destruct (isBridged config ctx && negb (isHeartbeat (commandBody event)));
    [| split; assumption].
  cbv zeta.
  set (ck := check lc (now_check_global env) (now_check_agent env) agent (limiter w)).
  destruct (check_windows lc (now_check_global env) (now_check_agent env) agent (limiter w))
    as [Hcg Hck]. fold ck in Hcg, Hck.
  destruct (truthy_str (fst ck)) eqn:Htr.
  - destruct (stats_windows (now_stats env) (snd ck)) as [Hsg Hsk].
    destruct (sendAlert_noCli_windows lc (now_alert env) (now_alert_stats env)
                (snd (stats (now_stats env) (snd ck)))) as [Hag Hak].
    split.
    + apply suffix_length in Hcg, Hsg, Hag. lia.
    + intros k. specialize (Hck k). specialize (Hsk k). specialize (Hak k).
      specialize (Hk k). apply suffix_length in Hck, Hsk, Hak. lia.
  - apply check_truthy in Htr. fold ck in Htr.
    destruct (admitted_request_within_limits lc (now_check_global env)
                (now_check_agent env) (now_record env) agent (limiter w) Htr)
      as (_ & _ & Hother & Hbg & Hba). fold ck in Hother, Hbg, Hba.
    split; [exact Hbg |].
    intros k. destruct (decide (k = agent)) as [-> | Hne]; [exact Hba |].
    rewrite (Hother k Hne). apply Hk.
Qed.

Lemma runInvocations_keeps_within_limits (config : RedisBridgeConfig)
    (lc : RateLimiterConfig) (bc : CircuitBreaker.Config) (invs : list Invocation) :
  forall w, withinLimits lc (limiter w) ->
            withinLimits lc (limiter (snd (runInvocations config lc bc invs w))).
Proof.
  induction invs as [| inv rest IH]; intros w Hw; [exact Hw |].
  cbn [runInvocations].
  pose proof (hook_keeps_within_limits config lc bc (inv_env inv) (inv_event inv)
                (inv_ctx inv) w Hw) as H1.
  destruct (before_reply config lc bc (inv_env inv) (inv_event inv) (inv_ctx inv) w)
    as [r w1]. cbn [snd] in H1.
  specialize (IH w1 H1).
  destruct (runInvocations config lc bc rest w1) as [rs w2]. exact IH.
Qed.

(** X4.  From a new plugin, whatever the host sends and whatever the clock says,
    the limiter never holds more than its limits. *)
Theorem limiter_never_exceeds_limits (config : RedisBridgeConfig)
    (lc : RateLimiterConfig) (bc : CircuitBreaker.Config) (invs : list Invocation) :
  0 <= maxRequestsPerHour lc -> 0 <= maxRequestsPerAgentPerHour lc ->
  withinLimits lc (limiter (snd (runInvocations config lc bc invs initialWorld))).
Proof.
  intros Hg Ha. apply runInvocations_keeps_within_limits.
  split; [exact Hg |]. intros k. exact Ha.
Qed.

(** Two requests of the sample agent on a new plugin. *)
Lemma limiter_never_exceeds_limits_witness :
  withinLimits sampleLimits
    (limiter (snd (runInvocations sampleConfig sampleLimits sampleBreaker
                     [sampleInvocation 5000 "Bonjour"; sampleInvocation 6000 "Encore"]
                     initialWorld))).
Proof.
  apply (limiter_never_exceeds_limits sampleConfig sampleLimits sampleBreaker
           [sampleInvocation 5000 "Bonjour"; sampleInvocation 6000 "Encore"]).
  - vm_compute. discriminate.
  - vm_compute. discriminate.
Defined.

Lemma clockOrdered_suffix (l1 l2 : list WindowEntry) :
  l1 `suffix_of` l2 -> clockOrdered l2 -> clockOrdered l1.
Proof.
  intros [k ->]. unfold clockOrdered. induction k as [| e k IH]; [trivial |].
  cbn. intros H. apply StronglySorted_inv in H as [H _]. apply IH, H.
Qed.

Lemma notAfter_suffix (t : Z) (l1 l2 : list WindowEntry) :
  l1 `suffix_of` l2 -> notAfter t l2 -> notAfter t l1.
Proof.
  intros [k ->]. unfold notAfter. rewrite Forall_app. intros [_ H]. exact H.
Qed.

Lemma notAfter_mono (t t' : Z) (l : list WindowEntry) :
  t <= t' -> notAfter t l -> notAfter t' l.
Proof.
  intros Hle. unfold notAfter. intros H.
  eapply List.Forall_impl; [| exact H]. cbn. intros e He. lia.
Qed.

(** X5.  Every run of the hook keeps the windows in clock order, as long as the
    clock reading of [record] is not earlier than the entries there are. *)
Theorem hook_keeps_clock_order (config : RedisBridgeConfig) (lc : RateLimiterConfig)
    (bc : CircuitBreaker.Config) (env : Env) (event : BeforeReplyEvent)
    (ctx : HookContext) (w : World) (t : Z) :
  everyWindow clockOrdered (limiter w) ->
  everyWindow (notAfter t) (limiter w) ->
  t <= now_record env ->
  everyWindow clockOrdered (limiter (snd (before_reply config lc bc env event ctx w)))
  /\ everyWindow (notAfter (now_record env))
       (limiter (snd (before_reply config lc bc env event ctx w))).
Proof.
  intros [Hog Hok] [Hng Hnk] Hle. rewrite hook_limiter_after.
  assert (Hsame : everyWindow clockOrdered (limiter w)
                  /\ everyWindow (notAfter (now_record env)) (limiter w)).
  { split; [split; assumption |].
    split; [| intros k]; eapply notAfter_mono; eauto. }
  destruct (agentId ctx) as [agent |]; [| exact Hsame].
  destruct (isBridged config ctx && negb (isHeartbeat (commandBody event)));
    [| exact Hsame].
  cbv zeta.
  set (ck := check lc (now_check_global env) (now_check_agent env) agent (limiter w)).
  destruct (check_windows lc (now_check_global env) (now_check_agent env) agent (limiter w))
    as [Hcg Hck]. fold ck in Hcg, Hck.
  destruct (truthy_str (fst ck)) eqn:Htr.
  - destruct (stats_windows (now_stats env) (snd ck)) as [Hsg Hsk].
    destruct (sendAlert_noCli_windows lc (now_alert env) (now_alert_stats env)
                (snd (stats (now_stats env) (snd ck)))) as [Hag Hak].
    assert (Hg : globalWindow (sendAlert_noCli lc (now_alert env) (now_alert_stats env)
                                 (snd (stats (now_stats env) (snd ck))))
                 `suffix_of` globalWindow (limiter w)).
    { etransitivity; [exact Hag |]. etransitivity; [exact Hsg | exact Hcg]. }
    assert (Hk : forall k,
               windowOf k (sendAlert_noCli lc (now_alert env) (now_alert_stats env)
                             (snd (stats (now_stats env) (snd ck))))
               `suffix_of` windowOf k (limiter w)).
    { intros k. etransitivity; [apply Hak |]. etransitivity; [apply Hsk | apply Hck]. }
    split; (split; [| intros k]).
    + eapply clockOrdered_suffix; [exact Hg | exact Hog].
    + eapply clockOrdered_suffix; [apply Hk | apply Hok].
    + eapply notAfter_suffix; [exact Hg |]. eapply notAfter_mono; eauto.
    + eapply notAfter_suffix; [apply Hk |]. eapply notAfter_mono; eauto.
  - apply check_truthy in Htr. fold ck in Htr.
    destruct (admitted_request_within_limits lc (now_check_global env)
                (now_check_agent env) (now_record env) agent (limiter w) Htr)
      as (Hgw & Haw & Hother & _). fold ck in Hgw, Haw, Hother.
    assert (Hpg : pruneWindow (now_check_global env) (globalWindow (limiter w))
                  `suffix_of` globalWindow (limiter w)) by apply pruneWindow_suffix.
    assert (Hpa : pruneWindow (now_check_agent env) (windowOf agent (limiter w))
                  `suffix_of` windowOf agent (limiter w)) by apply pruneWindow_suffix.
    split; (split; [rewrite Hgw | intros k; destruct (decide (k = agent)) as [-> | Hne];
                                  [rewrite Haw | rewrite (Hother k Hne)]]).
    + apply record_clockOrdered; [eapply clockOrdered_suffix; [exact Hpg | exact Hog] |].
      eapply notAfter_suffix; [exact Hpg |]. eapply notAfter_mono; eauto.
    + apply record_clockOrdered; [eapply clockOrdered_suffix; [exact Hpa | apply Hok] |].
      eapply notAfter_suffix; [exact Hpa |]. eapply notAfter_mono; eauto.
    + apply Hok.
    + unfold notAfter. apply Forall_app. split; [| repeat constructor; cbn; lia].
      eapply notAfter_suffix; [exact Hpg |]. eapply notAfter_mono; eauto.
    + unfold notAfter. apply Forall_app. split; [| repeat constructor; cbn; lia].
      eapply notAfter_suffix; [exact Hpa |]. eapply notAfter_mono; eauto.
    + eapply notAfter_mono; eauto.
Qed.

(** Three requests in a row on a new plugin, at 5000, 6000 and 7000: the
    third one starts from the windows that the first two have filled. *)
Lemma hook_keeps_clock_order_witness :
  let run now w :=
    snd (before_reply sampleConfig sampleLimits sampleBreaker
           (sampleEnv now (popped "Salut")) (sampleEvent "Bonjour") sampleCtx w) in
  globalWindow (limiter (run 6000 (run 5000 initialWorld)))
  = [ {| timestamp := 5000 |}; {| timestamp := 6000 |} ]
  /\ everyWindow clockOrdered (limiter (run 7000 (run 6000 (run 5000 initialWorld))))
  /\ everyWindow (notAfter 7000)
       (limiter (run 7000 (run 6000 (run 5000 initialWorld)))).
Proof.
  intros run.
  destruct (hook_keeps_clock_order sampleConfig sampleLimits sampleBreaker
              (sampleEnv 5000 (popped "Salut")) (sampleEvent "Bonjour") sampleCtx
              initialWorld 0) as [Ho1 Hn1].
  { split; [constructor | intros k; constructor]. }
  { split; [constructor | intros k; constructor]. }
  { vm_compute. discriminate. }
  destruct (hook_keeps_clock_order sampleConfig sampleLimits sampleBreaker
              (sampleEnv 6000 (popped "Salut")) (sampleEvent "Bonjour") sampleCtx
              (run 5000 initialWorld) 5000 Ho1 Hn1) as [Ho2 Hn2].
  { vm_compute. discriminate. }
  destruct (hook_keeps_clock_order sampleConfig sampleLimits sampleBreaker
              (sampleEnv 7000 (popped "Salut")) (sampleEvent "Bonjour") sampleCtx
              (run 6000 (run 5000 initialWorld)) 6000 Ho2 Hn2) as [Ho3 Hn3].
  { vm_compute. discriminate. }
  split; [vm_compute; reflexivity |]. split; [exact Ho3 | exact Hn3].
Defined.

(** ** More on the inbound hook *)

(** X6.  The hook passes exactly the agents that are not bridged through to the
    host, and leaves the plugin as it was when it does. *)
Theorem hook_passthrough (config : RedisBridgeConfig) (lc : RateLimiterConfig)
    (bc : CircuitBreaker.Config) (env : Env) (event : BeforeReplyEvent)
    (ctx : HookContext) (w : World) :
  (fst (before_reply config lc bc env event ctx w) = Ok None
   <-> isBridged config ctx = false)
  /\ (isBridged config ctx = false ->
      before_reply config lc bc env event ctx w = (Ok None, w)).
Proof.
  unfold isBridged, before_reply.
  destruct (agentId ctx) as [agent |]; [| cbn; repeat split].
  destruct (String.eqb agent ""); cbn; [repeat split |].
  destruct (isEngineAgent agent config); cbn; [| repeat split].
  split; [| discriminate]. split; [| discriminate].
  destruct (isHeartbeat (commandBody event)); [discriminate |].
  unfold hook_try, hook_catch. unfold_m.
  destruct (RateLimiter.check _ _ _ _ _) as [msg l']. cbn.
  destruct (truthy_str msg); cbn.
  { destruct (RateLimiter.stats _ _) as [st l'']. cbn. discriminate. }
  destruct (CircuitBreaker.isOpen _ _ _); cbn; [discriminate |].
  destruct (CircuitBreaker.isHalfOpen _ _ _); cbn.
  all: hook_try_cases env.
  all: discriminate.
Qed.

(** The agent [main] is not routed through the engine. *)
Lemma hook_passthrough_witness :
  before_reply sampleConfig sampleLimits sampleBreaker (sampleEnv 5000 (popped "Salut"))
    (sampleEvent "Bonjour") {| agentId := Some "main" |} initialWorld
  = (Ok None, initialWorld).
Proof.
  apply (proj2 (hook_passthrough sampleConfig sampleLimits sampleBreaker
                  (sampleEnv 5000 (popped "Salut")) (sampleEvent "Bonjour")
                  {| agentId := Some "main" |} initialWorld)).
  reflexivity.
Defined.

Lemma getState_not_open (bc : CircuitBreaker.Config) (now : Z) (b : CircuitBreaker.State) :
  CircuitBreaker.isOpen bc now b = false
  <-> CircuitBreaker.getState bc now b <> CircuitBreaker.open.
Proof.
  unfold CircuitBreaker.isOpen.
  destruct (CircuitBreaker.getState bc now b); cbn; split; congruence.
Qed.

(** X7.  The hook charges the rate limiter once for every admitted request and
    never otherwise, whatever the breaker and the broker do afterwards. *)
Theorem hook_charges_admitted (config : RedisBridgeConfig) (lc : RateLimiterConfig)
    (bc : CircuitBreaker.Config) (env : Env) (event : BeforeReplyEvent)
    (ctx : HookContext) (w : World) :
  List.filter isLimiterRecord (newEvents (before_reply config lc bc env event ctx) w)
  = if admitted config lc env event ctx w
    then [LimiterRecord (default "" (agentId ctx))]
    else [].
Proof.
  unfold admitted, isBridged, newEvents, before_reply.
  destruct (agentId ctx) as [agent |]; [| cbn; rewrite drop_all; reflexivity].
  destruct (String.eqb agent ""); cbn; [rewrite drop_all; reflexivity |].
  destruct (isEngineAgent agent config); cbn; [| rewrite drop_all; reflexivity].
  destruct (isHeartbeat (commandBody event)); cbn; [rewrite drop_all; reflexivity |].
  unfold hook_try, hook_catch. unfold_m.
  destruct (RateLimiter.check _ _ _ _ _) as [msg l']. cbn.
  destruct (truthy_str msg); cbn.
  { destruct (RateLimiter.stats _ _) as [st l'']. cbn. norm_trace. reflexivity. }
  destruct (CircuitBreaker.isOpen _ _ _); cbn; [norm_trace; reflexivity |].
  destruct (CircuitBreaker.isHalfOpen _ _ _); cbn.
  all: hook_try_cases env.
  all: norm_trace; reflexivity.
Qed.

(** X8.  The hook sends nothing to the broker unless the request is admitted,
    the breaker is not open and the connections are ready or repaired. *)
Theorem hook_sends_only_when_allowed (config : RedisBridgeConfig)
    (lc : RateLimiterConfig) (bc : CircuitBreaker.Config) (env : Env)
    (event : BeforeReplyEvent) (ctx : HookContext) (w : World) :
  commands (newEvents (before_reply config lc bc env event ctx) w) <> [] ->
  admitted config lc env event ctx w = true
  /\ CircuitBreaker.getState bc (now_isOpen env) (breaker w) <> CircuitBreaker.open
  /\ (isRedisReady env = true \/ ensureConnected env = true).
Proof.
  unfold commands, admitted, isBridged, newEvents, before_reply.
  destruct (agentId ctx) as [agent |]; [| cbn; rewrite drop_all; cbn; congruence].
  destruct (String.eqb agent ""); cbn; [rewrite drop_all; cbn; congruence |].
  destruct (isEngineAgent agent config); cbn; [| rewrite drop_all; cbn; congruence].
  destruct (isHeartbeat (commandBody event)); cbn; [rewrite drop_all; cbn; congruence |].
  unfold hook_try, hook_catch. unfold_m.
  destruct (RateLimiter.check _ _ _ _ _) as [msg l']. cbn.
  destruct (truthy_str msg); cbn.
  { destruct (RateLimiter.stats _ _) as [st l'']. cbn. norm_trace; cbn; congruence. }
  destruct (CircuitBreaker.isOpen _ _ _) eqn:Hopen; cbn; [norm_trace; cbn; congruence |].
  apply getState_not_open in Hopen.
  destruct (CircuitBreaker.isHalfOpen _ _ _); cbn.
  all: hook_try_cases env.
  all: norm_trace; cbn; try congruence.
  all: intros _; split; [reflexivity |]; split; [exact Hopen |]; auto.
Qed.

(** A forwarded request on a new plugin. *)
Lemma hook_sends_only_when_allowed_witness :
  admitted sampleConfig sampleLimits (sampleEnv 5000 (popped "Salut"))
    (sampleEvent "Bonjour") sampleCtx initialWorld = true
  /\ CircuitBreaker.getState sampleBreaker 5000 (breaker initialWorld)
     <> CircuitBreaker.open
  /\ (isRedisReady (sampleEnv 5000 (popped "Salut")) = true
      \/ ensureConnected (sampleEnv 5000 (popped "Salut")) = true).
Proof.
  apply (hook_sends_only_when_allowed sampleConfig sampleLimits sampleBreaker
           (sampleEnv 5000 (popped "Salut")) (sampleEvent "Bonjour") sampleCtx
           initialWorld).
  vm_compute. discriminate.
Defined.

(** X9.  The breaker changes only through [recordFailure] and [recordSuccess],
    the hook calls at most one of them in a run, and it calls
    [recordSuccess] exactly when it hands an answer of the engine back
    without the error flag. *)
Theorem hook_breaker_accounting (config : RedisBridgeConfig) (lc : RateLimiterConfig)
    (bc : CircuitBreaker.Config) (env : Env) (event : BeforeReplyEvent)
    (ctx : HookContext) (w : World) :
  let run := before_reply config lc bc env event ctx in
  let evs := newEvents run w in
  (count_events isBreakerFailure evs + count_events isBreakerSuccess evs <= 1)%nat
  /\ breaker (snd (run w))
     = (if existsb isBreakerFailure evs
        then CircuitBreaker.recordFailure bc (now_failure env) (breaker w)
        else if existsb isBreakerSuccess evs
        then CircuitBreaker.recordSuccess (breaker w)
        else breaker w)
  /\ (existsb isBreakerSuccess evs = true
      <-> isHeartbeat (commandBody event) = false
          /\ exists t, fst (run w) = Ok (Some {| text := t; isError := false |})).
Proof.
  cbv zeta. unfold count_events, newEvents, before_reply.
  assert (Hdone : forall (hb : bool) (o : Outcome (option Reply)) (b b' : CircuitBreaker.State)
                    (evs : list Event),
             (length (List.filter isBreakerFailure evs)
              + length (List.filter isBreakerSuccess evs) <= 1)%nat ->
             b' = (if existsb isBreakerFailure evs
                   then CircuitBreaker.recordFailure bc (now_failure env) b
                   else if existsb isBreakerSuccess evs
                   then CircuitBreaker.recordSuccess b else b) ->
             (existsb isBreakerSuccess evs = true
              <-> hb = false /\ exists t, o = Ok (Some {| text := t; isError := false |})) ->
             (length (List.filter isBreakerFailure evs)
              + length (List.filter isBreakerSuccess evs) <= 1)%nat
             /\ b' = (if existsb isBreakerFailure evs
                      then CircuitBreaker.recordFailure bc (now_failure env) b
                      else if existsb isBreakerSuccess evs
                      then CircuitBreaker.recordSuccess b else b)
             /\ (existsb isBreakerSuccess evs = true
                 <-> hb = false /\ exists t, o = Ok (Some {| text := t; isError := false |})))
    by (intros; repeat split; tauto).
  destruct (agentId ctx) as [agent |];
    [| cbn; rewrite drop_all; apply Hdone; cbn;
       [lia | reflexivity | split; [discriminate | intros (_ & t & Heq); discriminate Heq]]].
  destruct (String.eqb agent "" || negb (isEngineAgent agent config)); cbn;
    [rewrite drop_all; apply Hdone; cbn;
     [lia | reflexivity | split; [discriminate | intros (_ & t & Heq); discriminate Heq]] |].
  destruct (isHeartbeat (commandBody event)); cbn;
    [rewrite drop_all; apply Hdone; cbn;
     [lia | reflexivity | split; [discriminate | intros ([=] & _)]] |].
  unfold hook_try, hook_catch. unfold_m.
  destruct (RateLimiter.check _ _ _ _ _) as [msg l']. cbn.
  destruct (truthy_str msg); cbn.
  { destruct (RateLimiter.stats _ _) as [st l'']. cbn. norm_trace.
    apply Hdone; cbn; [lia | reflexivity | split; [discriminate | intros (_ & t & Heq); discriminate Heq]]. }
  destruct (CircuitBreaker.isOpen _ _ _) eqn:Hopen; cbn.
  { norm_trace.
    apply Hdone; cbn; [lia | reflexivity | split; [discriminate | intros (_ & t & Heq); discriminate Heq]]. }
  destruct (CircuitBreaker.isHalfOpen _ _ _); cbn.
  all: hook_try_cases env.
  all: norm_trace; apply Hdone; cbn; [lia | reflexivity |].
  all: split; [first [discriminate | intros _; split; [reflexivity | eexists; reflexivity]] |].
  all: first [intros _; reflexivity | intros (_ & t & Heq); discriminate Heq].
Qed.


Lemma hook_breaker_after (config : RedisBridgeConfig) (lc : RateLimiterConfig)
    (bc : CircuitBreaker.Config) (env : Env) (event : BeforeReplyEvent)
    (ctx : HookContext) (w : World) :
  breaker (snd (before_reply config lc bc env event ctx w))
  = (if existsb isBreakerFailure (newEvents (before_reply config lc bc env event ctx) w)
     then CircuitBreaker.recordFailure bc (now_failure env) (breaker w)
     else if existsb isBreakerSuccess
               (newEvents (before_reply config lc bc env event ctx) w)
     then CircuitBreaker.recordSuccess (breaker w)
     else breaker w).
Proof.
  unfold newEvents, before_reply.
  destruct (agentId ctx) as [agent |]; [| cbn; rewrite drop_all; reflexivity].
  destruct (String.eqb agent "" || negb (isEngineAgent agent config)); cbn;
    [rewrite drop_all; reflexivity |].
  destruct (isHeartbeat (commandBody event)); cbn; [rewrite drop_all; reflexivity |].
  unfold hook_try, hook_catch. unfold_m.
  destruct (RateLimiter.check _ _ _ _ _) as [msg l']. cbn.
  destruct (truthy_str msg); cbn.
  { destruct (RateLimiter.stats _ _) as [st l'']. cbn. norm_trace. reflexivity. }
  destruct (CircuitBreaker.isOpen _ _ _); cbn; [norm_trace; reflexivity |].
  destruct (CircuitBreaker.isHalfOpen _ _ _); cbn.
  all: hook_try_cases env.
  all: norm_trace; reflexivity.
Qed.

Lemma hook_open_no_commands (config : RedisBridgeConfig) (lc : RateLimiterConfig)
    (bc : CircuitBreaker.Config) (env : Env) (event : BeforeReplyEvent)
    (ctx : HookContext) (w : World) :
  CircuitBreaker.getState bc (now_isOpen env) (breaker w) = CircuitBreaker.open ->
  commands (newEvents (before_reply config lc bc env event ctx) w) = [].
Proof.
  intros Hopen. apply isOpen_true in Hopen.
  unfold commands, newEvents, before_reply.
  destruct (agentId ctx) as [agent |]; [| cbn; rewrite drop_all; reflexivity].
  destruct (String.eqb agent "" || negb (isEngineAgent agent config)); cbn;
    [rewrite drop_all; reflexivity |].
  destruct (isHeartbeat (commandBody event)); cbn; [rewrite drop_all; reflexivity |].
  unfold hook_try, hook_catch. unfold_m.
  destruct (RateLimiter.check _ _ _ _ _) as [msg l']. cbn.
  destruct (truthy_str msg); cbn.
  { destruct (RateLimiter.stats _ _) as [st l'']. cbn. norm_trace. reflexivity. }
  rewrite Hopen. cbn. norm_trace. reflexivity.
Qed.

(** X11.  The failure that brings the count to the threshold opens the circuit:
    whatever request comes next within the cooldown goes nowhere near the
    broker. *)
Theorem failure_at_threshold_blocks_next (config : RedisBridgeConfig)
    (lc : RateLimiterConfig) (bc : CircuitBreaker.Config)
    (env1 env2 : Env) (event1 event2 : BeforeReplyEvent) (ctx1 ctx2 : HookContext)
    (w : World) :
  existsb isBreakerFailure
    (newEvents (before_reply config lc bc env1 event1 ctx1) w) = true ->
  CircuitBreaker.cfg_threshold bc <= CircuitBreaker.failures (breaker w) + 1 ->
  now_isOpen env2 - now_failure env1 < CircuitBreaker.cfg_cooldownMs bc ->
  commands (newEvents (before_reply config lc bc env2 event2 ctx2)
              (snd (before_reply config lc bc env1 event1 ctx1 w))) = [].
Proof.
  intros Hfail Hth Hcool. apply hook_open_no_commands.
  rewrite hook_breaker_after, Hfail.
  apply getState_tripped.
  - rewrite recordFailure_failures. exact Hth.
  - rewrite recordFailure_openedAt.
    destruct (Z.leb_spec (CircuitBreaker.cfg_threshold bc)
                (CircuitBreaker.failures (breaker w) + 1)); [exact Hcool | lia].
Qed.

(** A timeout as the fifth failure at 5000, and the next request at 6000. *)
Lemma failure_at_threshold_blocks_next_witness :
  commands (newEvents (before_reply sampleConfig sampleLimits sampleBreaker
                         (sampleEnv 6000 (popped "Salut")) (sampleEvent "Bonjour") sampleCtx)
              (snd (before_reply sampleConfig sampleLimits sampleBreaker
                      (sampleEnv 5000 (Ok None)) (sampleEvent "Bonjour") sampleCtx
                      fourFailures))) = [].
Proof.
  apply (failure_at_threshold_blocks_next sampleConfig sampleLimits sampleBreaker
           (sampleEnv 5000 (Ok None)) (sampleEnv 6000 (popped "Salut"))
           (sampleEvent "Bonjour") (sampleEvent "Bonjour") sampleCtx sampleCtx
           fourFailures).
  - vm_compute. reflexivity.
  - vm_compute. discriminate.
  - vm_compute. reflexivity.
Defined.

(** X12.  An answer of the engine closes the circuit, whatever was counted
    before. *)
Theorem success_closes_circuit (config : RedisBridgeConfig) (lc : RateLimiterConfig)
    (bc : CircuitBreaker.Config) (env : Env) (event : BeforeReplyEvent)
    (ctx : HookContext) (w : World) (t : Js.Value) :
  0 < CircuitBreaker.cfg_threshold bc ->
  isHeartbeat (commandBody event) = false ->
  fst (before_reply config lc bc env event ctx w)
  = Ok (Some {| text := t; isError := false |}) ->
  CircuitBreaker.consecutiveFailures
    (breaker (snd (before_reply config lc bc env event ctx w))) = 0
  /\ forall now,
       CircuitBreaker.getState bc now
         (breaker (snd (before_reply config lc bc env event ctx w)))
       = CircuitBreaker.closed.
Proof.
  intros Hth Hhb. unfold before_reply.
  destruct (agentId ctx) as [agent |]; [| discriminate].
  destruct (String.eqb agent "" || negb (isEngineAgent agent config)); cbn;
    [discriminate |].
  rewrite Hhb.
  unfold hook_try, hook_catch. unfold_m.
  destruct (RateLimiter.check _ _ _ _ _) as [msg l']. cbn.
  destruct (truthy_str msg); cbn.
  { destruct (RateLimiter.stats _ _) as [st l'']. cbn. discriminate. }
  destruct (CircuitBreaker.isOpen _ _ _); cbn; [discriminate |].
  destruct (CircuitBreaker.isHalfOpen _ _ _); cbn.
  all: hook_try_cases env.
  all: try discriminate.
  all: intros _; split; [reflexivity |]; intros now; apply getState_closed_iff;
    exact Hth.
Qed.

(** An answer after four failures. *)
Lemma success_closes_circuit_witness :
  CircuitBreaker.consecutiveFailures
    (breaker (snd (before_reply sampleConfig sampleLimits sampleBreaker
                     (sampleEnv 5000 (popped "Salut")) (sampleEvent "Bonjour")
                     sampleCtx fourFailures))) = 0
  /\ forall now,
       CircuitBreaker.getState sampleBreaker now
         (breaker (snd (before_reply sampleConfig sampleLimits sampleBreaker
                          (sampleEnv 5000 (popped "Salut")) (sampleEvent "Bonjour")
                          sampleCtx fourFailures)))
       = CircuitBreaker.closed.
Proof.
  apply (success_closes_circuit sampleConfig sampleLimits sampleBreaker
           (sampleEnv 5000 (popped "Salut")) (sampleEvent "Bonjour") sampleCtx
           fourFailures (Js.Str "Salut")).
  - vm_compute. reflexivity.
  - vm_compute. reflexivity.
  - vm_compute. reflexivity.
Defined.

(** X13.  A request that the rate limiter refuses is answered with the message
    of the limiter, flagged as an error, and costs nothing: it is not
    charged, nothing is sent to the broker, the breaker is not touched, and
    the alert stops before the delivery CLI, since the hook hands no CLI to
    [sendAlert]. *)
Theorem hook_rate_limited_run (config : RedisBridgeConfig) (lc : RateLimiterConfig)
    (bc : CircuitBreaker.Config) (env : Env) (event : BeforeReplyEvent)
    (ctx : HookContext) (w : World) (agent msg : string) :
  agentId ctx = Some agent ->
  isBridged config ctx = true ->
  isHeartbeat (commandBody event) = false ->
  fst (check lc (now_check_global env) (now_check_agent env) agent (limiter w))
  = Some msg ->
  fst (before_reply config lc bc env event ctx w)
  = Ok (Some {| text := Js.Str msg; isError := true |})
  /\ newEvents (before_reply config lc bc env event ctx) w
     = [ Log warn (RateLimited agent
                     (fst (stats (now_stats env)
                             (snd (check lc (now_check_global env) (now_check_agent env)
                                     agent (limiter w))))));
         Alert msg agent ]
  /\ breaker (snd (before_reply config lc bc env event ctx w)) = breaker w
  /\ (length (globalWindow (limiter (snd (before_reply config lc bc env event ctx w))))
      <= length (globalWindow (limiter w)))%nat.
Proof.
  intros Hagent Hb Hhb Hck.
  assert (Hlim := hook_limiter_after config lc bc env event ctx w).
  pose proof (check_truthy lc (now_check_global env) (now_check_agent env) agent
                (limiter w)) as Htruthy.
  pose proof (check_windows lc (now_check_global env) (now_check_agent env) agent
                (limiter w)) as [Hcg _].
  rewrite Hagent, Hb, Hhb in Hlim. cbn [andb negb] in Hlim. cbv zeta in Hlim.
  destruct (truthy_str (fst (check lc (now_check_global env) (now_check_agent env)
                               agent (limiter w)))) eqn:Htr;
    [| pose proof (proj1 Htruthy eq_refl); congruence].
  split; [| split; [| split]].
  4:{ rewrite Hlim.
      destruct (stats_windows (now_stats env)
                  (snd (check lc (now_check_global env) (now_check_agent env) agent
                          (limiter w)))) as [Hsg _].
      destruct (sendAlert_noCli_windows lc (now_alert env) (now_alert_stats env)
                  (snd (stats (now_stats env)
                          (snd (check lc (now_check_global env) (now_check_agent env)
                                  agent (limiter w)))))) as [Hag _].
      apply suffix_length in Hag, Hsg, Hcg. lia. }
  all: revert Hb; unfold isBridged, newEvents, before_reply; rewrite Hagent;
    intros Hb; apply andb_true_iff in Hb as [Hne Heng];
    apply negb_true_iff in Hne; rewrite Hne, Heng, Hhb; cbn.
  all: unfold_m; revert Hck Htr;
    destruct (check lc (now_check_global env) (now_check_agent env) agent (limiter w))
      as [m l'];
    cbn [fst snd]; intros -> Htr; rewrite Htr; cbn;
    destruct (stats (now_stats env) l') as [st l'']; cbn.
  - reflexivity.
  - norm_trace. reflexivity.
  - reflexivity.
Qed.

(** Limits that let nobody through. *)
Lemma hook_rate_limited_run_witness :
  fst (before_reply sampleConfig strictLimits sampleBreaker
         (sampleEnv 5000 (popped "Salut")) (sampleEvent "Bonjour") sampleCtx initialWorld)
  = Ok (Some {| text := Js.Str (agentLimitMessage strictLimits "eng-1");
                isError := true |})
  /\ commands (newEvents (before_reply sampleConfig strictLimits sampleBreaker
                            (sampleEnv 5000 (popped "Salut")) (sampleEvent "Bonjour")
                            sampleCtx) initialWorld) = [].
Proof.
  destruct (hook_rate_limited_run sampleConfig strictLimits sampleBreaker
              (sampleEnv 5000 (popped "Salut")) (sampleEvent "Bonjour") sampleCtx
              initialWorld "eng-1" (agentLimitMessage strictLimits "eng-1")
              eq_refl eq_refl eq_refl eq_refl) as (Hr & Hev & _).
  split; [exact Hr | rewrite Hev; reflexivity].
Defined.

(** ** More on the tool *)

Lemma trimStart_nil_iff {char : Type} (is_ws : char -> bool) (s : list char) :
  trimStart is_ws s = [] <-> forallb is_ws s = true.
Proof.
  induction s as [| c r IH]; simpl; [split; reflexivity |].
  destruct (is_ws c); simpl; [exact IH | split; discriminate].
Qed.

Lemma forallb_trimStart {char : Type} (is_ws : char -> bool) (s : list char) :
  forallb is_ws (trimStart is_ws s) = forallb is_ws s.
Proof.
  induction s as [| c r IH]; simpl; [reflexivity |].
  destruct (is_ws c) eqn:E; simpl; [exact IH | rewrite E; reflexivity].
Qed.

Lemma forallb_rev {A : Type} (p : A -> bool) (l : list A) :
  forallb p (rev l) = forallb p l.
Proof.
  induction l as [| a l IH]; simpl; [reflexivity |].
  rewrite forallb_app, IH. simpl. rewrite andb_true_r. apply andb_comm.
Qed.

(** [s.trim()] is empty exactly on the strings of white space. *)
Lemma trim_empty_iff (s : string) :
  Js.trim s = ""
  <-> forallb ascii_is_ws (list_ascii_of_string s) = true.
Proof.
  unfold Js.trim, trimEnd.
  set (l := list_ascii_of_string s).
  split.
  - intros H.
    assert (Hl : rev (trimStart ascii_is_ws (rev (trimStart ascii_is_ws l))) = []).
    { destruct (rev _) as [| c r]; [reflexivity | discriminate]. }
    apply (f_equal (@rev ascii)) in Hl. rewrite rev_involutive in Hl. simpl in Hl.
    apply trimStart_nil_iff in Hl. rewrite forallb_rev, forallb_trimStart in Hl.
    exact Hl.
  - intros H.
    assert (Hl : trimStart ascii_is_ws (rev (trimStart ascii_is_ws l)) = []).
    { apply trimStart_nil_iff. rewrite forallb_rev, forallb_trimStart. exact H. }
    rewrite Hl. reflexivity.
Qed.

(** X14.  The tool declares its [message] parameter as a string.  For a
    message that is a string, or is missing or [null] and so read as the
    empty string: if it holds nothing but white space the call is refused
    before anything is sent; otherwise the first thing the call does is the
    append, and the message goes into the entry as it is, untrimmed. *)
Theorem tool_requires_message (client : Client) (config : RedisBridgeConfig)
    (tctx : ToolContext) (env : Env) (params_message : option Js.Value)
    (message : string) (w : World) :
  Js.nullish_or params_message (Js.Str "") = Js.Str message ->
  if forallb ascii_is_ws (list_ascii_of_string message)
  then execute client config tctx env params_message w
       = (Threw (Js.Error "message is required"),
          record_event (Thrown ByThrow (Js.Error "message is required")) w)
  else exists args rest,
         newEvents (execute client config tctx env params_message) w
         = Cmd client (XADD STREAM_INBOUND "*" args) :: rest
         /\ fieldValue "message" args = Some message.
Proof.
  intros Hmsg. pose proof (trim_empty_iff message) as Htrim.
  unfold newEvents, execute. rewrite Hmsg.
  change (Js.toString (Js.Str message)) with message.
  destruct (forallb ascii_is_ws _).
  - rewrite (proj2 Htrim eq_refl). reflexivity.
  - destruct (String.eqb_spec (Js.trim message) "")
      as [Heq | Hne]; [apply Htrim in Heq; discriminate |].
    exists (tool_xaddArgs tctx env message (randomUUID env)).
    unfold_m. tool_cases env.
    all: norm_trace; eexists; split; reflexivity.
Qed.

(** A message of two blanks is refused; a missing one too; a message with
    blanks around a word is appended with its blanks. *)
Lemma tool_requires_message_witness :
  execute redis sampleConfig sampleToolCtx (sampleEnv 5000 (popped "Salut"))
    (Some (Js.Str "  ")) initialWorld
  = (Threw (Js.Error "message is required"),
     record_event (Thrown ByThrow (Js.Error "message is required")) initialWorld)
  /\ fst (execute redis sampleConfig sampleToolCtx (sampleEnv 5000 (popped "Salut"))
            None initialWorld)
     = Threw (Js.Error "message is required")
  /\ exists args rest,
       newEvents (execute redis sampleConfig sampleToolCtx
                    (sampleEnv 5000 (popped "Salut")) (Some (Js.Str " Bonjour ")))
                 initialWorld
       = Cmd redis (XADD STREAM_INBOUND "*" args) :: rest
       /\ fieldValue "message" args = Some " Bonjour ".
Proof.
  split; [| split].
  - exact (tool_requires_message redis sampleConfig sampleToolCtx
             (sampleEnv 5000 (popped "Salut")) (Some (Js.Str "  ")) "  "
             initialWorld eq_refl).
  - rewrite (tool_requires_message redis sampleConfig sampleToolCtx
               (sampleEnv 5000 (popped "Salut")) None "" initialWorld eq_refl).
    reflexivity.
  - exact (tool_requires_message redis sampleConfig sampleToolCtx
             (sampleEnv 5000 (popped "Salut")) (Some (Js.Str " Bonjour ")) " Bonjour "
             initialWorld eq_refl).
Defined.

(** X15.  The tool goes past the rate limiter and the circuit breaker: a call
    neither reads nor changes them, and leaves no log line. *)
Theorem tool_bypasses_limiter_and_breaker (client : Client) (config : RedisBridgeConfig)
    (tctx : ToolContext) (env : Env) (params_message : option Js.Value) (w : World) :
  breaker (snd (execute client config tctx env params_message w)) = breaker w
  /\ limiter (snd (execute client config tctx env params_message w)) = limiter w
  /\ cliBinary (snd (execute client config tctx env params_message w)) = cliBinary w
  /\ Forall (fun e => match e with
                      | Cmd _ _ | Thrown _ _ => True
                      | _ => False
                      end)
       (newEvents (execute client config tctx env params_message) w)
  /\ forall w' : World,
       fst (execute client config tctx env params_message w')
       = fst (execute client config tctx env params_message w).
Proof.
  unfold newEvents, execute. unfold_m.
  destruct (String.eqb (Js.trim _) ""); cbn.
  { norm_trace. repeat split. each_event ltac:(exact I). }
  tool_cases env.
  all: norm_trace; repeat split; each_event ltac:(exact I).
Qed.



(** ** More on the outbound worker *)

Lemma deliver_returns (client : Client) (config : RedisBridgeConfig) (env : EntryEnv)
    (entryId message to channel : string) (account : option string) (w : World) :
  fst (deliver client config env entryId message to channel account w) = Ok tt.
Proof.
  unfold deliver, try_catch.
  match goal with
  | |- context [match ?m w with _ => _ end] => destruct (m w) as [[[] | e] w1]
  end; reflexivity.
Qed.

Lemma deadLetterCheck_returns (client : Client) (config : RedisBridgeConfig)
    (env : EntryEnv) (entryId : string) (w : World) :
  exists b, fst (deadLetterCheck client config env entryId w) = Ok b.
Proof.
  unfold deadLetterCheck, try_catch.
  match goal with
  | |- context [match ?m w with _ => _ end] => destruct (m w) as [[b | e] w1]
  end; eexists; reflexivity.
Qed.

Lemma wellFormed_false (fields : list string) :
  wellFormed fields = false
  <-> negb (truthy_str (parseFields fields ∅ !! "message"))
      || negb (truthy_str (parseFields fields ∅ !! "to"))
      || negb (truthy_str (parseFields fields ∅ !! "channel")) = true.
Proof.
  unfold wellFormed. cbv zeta.
  destruct (truthy_str (_ !! "message")), (truthy_str (_ !! "to")),
    (truthy_str (_ !! "channel")); cbn; split; congruence.
Qed.

(** What [processEntry] does with a malformed entry. *)
Lemma processEntry_malformed (client : Client) (config : RedisBridgeConfig)
    (env : EntryEnv) (entryId : string) (fields : list string) (w : World) :
  wellFormed fields = false ->
  processEntry client config env entryId fields w
  = (_ <- (log warn (SkippingMalformed entryId) ;;;
           emit (Cmd client (XACK STREAM_OUTBOUND (consumerGroup config) entryId)) ;;;
           await ByBroker (xack_malformed_reply env)) ;; ret tt)%bridge w.
Proof.
  intros Hwf. apply wellFormed_false in Hwf. unfold processEntry. cbv zeta.
  rewrite Hwf. unfold_m. cbn. destruct (xack_malformed_reply env); reflexivity.
Qed.

(** X17.  A call of [processEntry] throws in one case only: the entry is
    malformed and the broker rejects its acknowledgement.  Whatever happens
    to a well-formed entry (a failed inspection, a failed publication, a
    failed delivery, a rejected acknowledgement) stays inside the call. *)
Theorem processEntry_throws_iff (client : Client) (config : RedisBridgeConfig)
    (env : EntryEnv) (entryId : string) (fields : list string) (w : World)
    (e : Js.Exn) :
  fst (processEntry client config env entryId fields w) = Threw e
  <-> wellFormed fields = false /\ xack_malformed_reply env = Threw e.
Proof.
  destruct (wellFormed fields) eqn:Hwf.
  - split; [| intros [[=] _]].
    pose proof Hwf as Hwf'. unfold wellFormed in Hwf'. cbv zeta in Hwf'.
    apply andb_true_iff in Hwf' as [Hwf' Hc]. apply andb_true_iff in Hwf' as [Hm Ht].
    unfold processEntry. cbv zeta. rewrite Hm, Ht, Hc. cbn [negb orb].
    unfold bind at 1.
    destruct (deadLetterCheck_returns client config env entryId w) as [b Hb].
    destruct (deadLetterCheck client config env entryId w) as [o w1]. cbn in Hb. subst o.
    destruct b; [discriminate |].
    unfold bind, log, emit. rewrite deliver_returns. discriminate.
  - rewrite (processEntry_malformed client config env entryId fields w Hwf).
    unfold_m. cbn. destruct (xack_malformed_reply env) as [n | e']; cbn.
    + split; [discriminate | intros [_ [=]]].
    + split; [intros [= ->]; split; reflexivity | intros [_ [= ->]]; reflexivity].
Qed.

Lemma processEntries_stops (client : Client) (config : RedisBridgeConfig)
    (envOf : string -> EntryEnv) (entryId : string) (fields : list string)
    (after : list (string * list string)) (e : Js.Exn) :
  wellFormed fields = false ->
  xack_malformed_reply (envOf entryId) = Threw e ->
  forall (before : list (string * list string)) (w : World),
  exists e' w',
    processEntries client config envOf (before ++ (entryId, fields) :: after) w
    = (Threw e', w')
    /\ processEntries client config envOf (before ++ [(entryId, fields)]) w
       = (Threw e', w').
Proof.
  intros Hwf Hack. induction before as [| [i f] before IH]; intros w.
  - cbn [app processEntries]. unfold bind.
    rewrite (processEntry_malformed client config (envOf entryId) entryId fields w Hwf).
    unfold_m. rewrite Hack. cbn. eexists; eexists; split; reflexivity.
  - cbn [app processEntries]. unfold bind.
    destruct (processEntry client config (envOf i) i f w) as [[[] | e1] w1].
    + apply IH.
    + eexists; eexists; split; reflexivity.
Qed.

Lemma processStreams_cons (client : Client) (config : RedisBridgeConfig)
    (envOf : string -> EntryEnv) (stream : string)
    (entries : list (string * list string))
    (rest : list (string * list (string * list string))) (w : World) :
  processStreams client config envOf ((stream, entries) :: rest) w
  = bind (processEntries client config envOf entries)
         (fun _ => processStreams client config envOf rest) w.
Proof. reflexivity. Qed.

(** X18.  A malformed entry whose acknowledgement is rejected ends the turn of
    the poll loop: the entries read after it, in the same batch, are not
    looked at, and the turn ends on the log line of the listener error.
    The loop itself goes on: the turn returns normally. *)
Theorem pollOnce_abandons_batch_on_rejected_ack (client : Client)
    (config : RedisBridgeConfig) (envOf : string -> EntryEnv) (stream entryId : string)
    (fields : list string) (before after : list (string * list string))
    (more : list (string * list (string * list string))) (e : Js.Exn) (w : World) :
  wellFormed fields = false ->
  xack_malformed_reply (envOf entryId) = Threw e ->
  pollOnce client config
    (Ok (Some ((stream, before ++ (entryId, fields) :: after) :: more))) envOf w
  = pollOnce client config (Ok (Some [(stream, before ++ [(entryId, fields)])])) envOf w
  /\ fst (pollOnce client config
            (Ok (Some ((stream, before ++ (entryId, fields) :: after) :: more))) envOf w)
     = Ok tt
  /\ exists evs e',
       newEvents (pollOnce client config
                    (Ok (Some ((stream, before ++ (entryId, fields) :: after) :: more)))
                    envOf) w
       = evs ++ [Log error (ListenerError (Js.message_of e'))].
Proof.
  intros Hwf Hack. unfold newEvents, pollOnce.
  unfold_m. unfold ret. cbn beta iota. rewrite !processStreams_cons.
  unfold bind, ret. cbn beta iota.
  match goal with
  | |- context [processEntries client config envOf (before ++ (entryId, fields) :: after) ?w1] =>
      destruct (processEntries_stops client config envOf entryId fields after e Hwf Hack
                  before w1) as (e' & w' & H1 & H2);
      pose proof (processEntries_onClient client config envOf
                    (before ++ (entryId, fields) :: after) w1) as (evs & Htr & _)
  end.
  rewrite H1, H2 in *. cbn [fst snd] in *.
  split; [reflexivity |]. split; [reflexivity |].
  unfold log, emit. cbn. rewrite Htr. cbn.
  rewrite <- !app_assoc, drop_app_length.
  exists (Cmd client (XREADGROUP ["GROUP"; consumerGroup config; consumerName config;
                                   "COUNT"; "10"; "BLOCK"; "5000";
                                   "STREAMS"; STREAM_OUTBOUND; ">"]) :: evs), e'.
  reflexivity.
Qed.

(** A malformed entry, its acknowledgement rejected, before a well-formed one. *)
Lemma pollOnce_abandons_batch_on_rejected_ack_witness :
  pollOnce redis sampleConfig
    (Ok (Some [("bridge:outbound",
                [("1700000000000-0", malformedFields);
                 ("1700000000001-0", sampleFields)])]))
    (fun _ => rejectingEntryEnv) initialWorld
  = pollOnce redis sampleConfig
      (Ok (Some [("bridge:outbound", [("1700000000000-0", malformedFields)])]))
      (fun _ => rejectingEntryEnv) initialWorld.
Proof.
  apply (proj1 (pollOnce_abandons_batch_on_rejected_ack redis sampleConfig
                  (fun _ => rejectingEntryEnv) "bridge:outbound" "1700000000000-0"
                  malformedFields [] [("1700000000001-0", sampleFields)] []
                  (Js.Error "Connection is closed.") initialWorld
                  ltac:(vm_compute; reflexivity) eq_refl)).
Defined.

Lemma deliverChunks_all_ok (env : EntryEnv) (binary channel to : string)
    (account : option string) (chunks : list string) :
  forall (i : nat) (w : World),
    (forall j, (j < length chunks)%nat -> execFile_reply env (i + j) = Ok tt) ->
    deliverChunks env binary channel to account i chunks w
    = (Ok tt, extend w (map (fun c => Exec binary (sendArgs channel to account c)) chunks)).
Proof.
  induction chunks as [| chunk rest IH]; intros i w Hok.
  - cbn. unfold ret, extend. rewrite app_nil_r. destruct w; reflexivity.
  - cbn [deliverChunks]. unfold_m.
    pose proof (Hok 0%nat ltac:(cbn; lia)) as H0. rewrite Nat.add_0_r in H0.
    rewrite H0. cbn. rewrite IH.
    + unfold extend, record_event. cbn. rewrite <- app_assoc. reflexivity.
    + intros j Hj. replace (S i + j)%nat with (i + S j)%nat by lia.
      apply Hok. cbn. lia.
Qed.

Lemma deliverChunks_fails_at (env : EntryEnv) (binary channel to : string)
    (account : option string) (e : Js.Exn) (chunks : list string) :
  forall (k i : nat) (w : World),
    (k < length chunks)%nat ->
    (forall j, (j < k)%nat -> execFile_reply env (i + j) = Ok tt) ->
    execFile_reply env (i + k) = Threw e ->
    deliverChunks env binary channel to account i chunks w
    = (Threw e,
       extend w (map (fun c => Exec binary (sendArgs channel to account c))
                     (firstn (S k) chunks)
                 ++ [Thrown ByChildProcess e])).
Proof.
  induction chunks as [| chunk rest IH]; intros k i w Hk Hok Hfail; [cbn in Hk; lia |].
  cbn [deliverChunks]. unfold_m. destruct k as [| k].
  - rewrite Nat.add_0_r in Hfail. rewrite Hfail. cbn.
    unfold extend, record_event. cbn. rewrite <- app_assoc. reflexivity.
  - pose proof (Hok 0%nat ltac:(lia)) as H0. rewrite Nat.add_0_r in H0.
    rewrite H0. cbn. rewrite (IH k).
    + unfold extend, record_event. cbn. rewrite <- app_assoc. reflexivity.
    + cbn in Hk. lia.
    + intros j Hj. replace (S i + j)%nat with (i + S j)%nat by lia. apply Hok. lia.
    + replace (S i + k)%nat with (i + S k)%nat by lia. exact Hfail.
Qed.

Lemma filter_isExec_sent (binary : string) (f : string -> list string)
    (chunks : list string) :
  List.filter isExec (map (fun c => Exec binary (f c)) chunks)
  = map (fun c => Exec binary (f c)) chunks.
Proof. induction chunks as [| c r IH]; cbn; [reflexivity | rewrite IH; reflexivity]. Qed.

Lemma commands_sent (binary : string) (f : string -> list string)
    (chunks : list string) :
  commands (map (fun c => Exec binary (f c)) chunks) = [].
Proof. induction chunks as [| c r IH]; cbn; [reflexivity | exact IH]. Qed.

Lemma commands_app (a b : list Event) : commands (a ++ b) = commands a ++ commands b.
Proof. unfold commands. apply omap_app. Qed.

(** X19.  The delivery of an entry: the text is cut into chunks, the CLI is run
    once per chunk, in order, and the entry is acknowledged after the last
    one.  A chunk the CLI fails on ends the delivery: the later chunks are
    not sent, the entry is not acknowledged, and the failure is logged.  The
    text is the message itself unless a long message has been published. *)
Theorem deliver_acks_after_every_chunk (client : Client) (config : RedisBridgeConfig)
    (env : EntryEnv) (entryId message to channel : string) (account : option string)
    (w : World) :
  exists text chunks,
    splitMessage_string text MAX_MSG_LEN = Some chunks
    /\ (Z.of_nat (String.length message) <= PUBLISH_THRESHOLD
        \/ contentPublisherUrl config = "" \/ contentPublisherToken config = ""
        -> text = message)
    /\ let binary := if truthy_str (cliBinary w) then default "" (cliBinary w)
                     else resolveCliBinary env in
       let evs := newEvents (deliver client config env entryId message to channel account) w in
       let sent := map (fun c => Exec binary (sendArgs channel to account c)) in
       ((forall j, (j < length chunks)%nat -> execFile_reply env j = Ok tt) ->
        List.filter isExec evs = sent chunks
        /\ commands evs = [(client, XACK STREAM_OUTBOUND (consumerGroup config) entryId)])
       /\ (forall k e,
            (k < length chunks)%nat ->
            (forall j, (j < k)%nat -> execFile_reply env j = Ok tt) ->
            execFile_reply env k = Threw e ->
            List.filter isExec evs = sent (firstn (S k) chunks)
            /\ commands evs = []
            /\ In (Log error (DeliveryFailed entryId (Js.message_of e))) evs).
Proof.
  set (binary := if truthy_str (cliBinary w) then default "" (cliBinary w)
                 else resolveCliBinary env).
  cbv zeta.
  assert (Hprefix : exists text pre w1,
            deliver client config env entryId message to channel account w
            = try_catch
                (match splitMessage_string text MAX_MSG_LEN with
                 | Some chunks =>
                     deliverChunks env binary channel to account 0%nat chunks ;;;
                     emit (Cmd client (XACK STREAM_OUTBOUND (consumerGroup config) entryId)) ;;;
                     _ <- await ByBroker (xack_delivered_reply env) ;; ret tt
                 | None => ret tt
                 end)%bridge
                (fun err => log error (DeliveryFailed entryId (Js.message_of err))) w1
            /\ trace w1 = trace w ++ pre
            /\ List.filter isExec pre = [] /\ commands pre = []
            /\ (Z.of_nat (String.length message) <= PUBLISH_THRESHOLD
                \/ contentPublisherUrl config = "" \/ contentPublisherToken config = ""
                -> text = message)).
  { unfold deliver, binary.
    destruct (truthy_str (cliBinary w)) eqn:Hcli.
    all: destruct (Z.ltb_spec PUBLISH_THRESHOLD (Z.of_nat (String.length message)))
           as [Hlong | Hshort].
    all: unfold tryPublish.
    all: try (destruct (String.eqb_spec (contentPublisherUrl config) "") as [Hu | Hu];
              [| destruct (String.eqb_spec (contentPublisherToken config) "") as [Ht | Ht];
                 [| destruct (publish_reply env) as [status | pid url | fe]]]).
    all: cbn [orb].
    all: eexists; eexists; eexists.
    all: (split;
          [ unfold try_catch, bind, getCliBinary, setCliBinary, ret, log, emit, throw;
            cbn beta iota; rewrite ?Hcli; cbn beta iota; reflexivity |]).
    all: (split; [cbn; rewrite <- ?app_assoc;
                  first [reflexivity | exact (eq_sym (app_nil_r _))] |]).
    all: (split; [reflexivity |]); (split; [reflexivity |]).
    all: first [intros _; reflexivity | intros [H | [H | H]]; first [lia | contradiction]]. }
  destruct Hprefix as (text & pre & w1 & Hrun & Htr & Hpre & Hcmd & Htext).
  destruct (splitMessage_string_total text) as [chunks Hsplit].
  exists text, chunks. split; [exact Hsplit |]. split; [exact Htext |].
  unfold newEvents. rewrite Hrun, Hsplit. clear Hrun.
  match goal with
  | |- context [skipn ?n (trace (snd ?r))] => set (evs := skipn n (trace (snd r)))
  end.
  split.
  - intros Hok.
    assert (Hevs : exists tail,
               evs = pre ++ map (fun c => Exec binary (sendArgs channel to account c)) chunks
                     ++ Cmd client (XACK STREAM_OUTBOUND (consumerGroup config) entryId)
                        :: tail
               /\ List.filter isExec tail = [] /\ commands tail = []).
    { subst evs. unfold try_catch. unfold bind at 1.
      rewrite deliverChunks_all_ok by (intros j Hj; apply Hok, Hj).
      unfold_m. unfold extend. cbn -[sendArgs]. rewrite Htr.
      destruct (xack_delivered_reply env) as [n | e]; cbn -[sendArgs];
        rewrite <- ?app_assoc, drop_app_length; eexists;
        (split; [reflexivity | split; reflexivity]). }
    destruct Hevs as (tail & -> & Ht1 & Ht2).
    rewrite !List.filter_app, !commands_app, Hpre, Hcmd, filter_isExec_sent, commands_sent.
    cbn [List.filter isExec app]. rewrite Ht1, app_nil_r.
    split; [reflexivity |].
    change (commands (Cmd client (XACK STREAM_OUTBOUND (consumerGroup config) entryId) :: tail))
      with ((client, XACK STREAM_OUTBOUND (consumerGroup config) entryId) :: commands tail).
    rewrite Ht2. reflexivity.
  - intros k e Hk Hok Hfail.
    assert (Hevs : evs = pre ++ map (fun c => Exec binary (sendArgs channel to account c))
                                    (firstn (S k) chunks)
                         ++ [Thrown ByChildProcess e;
                             Log error (DeliveryFailed entryId (Js.message_of e))]).
    { subst evs. unfold try_catch. unfold bind at 1.
      rewrite (deliverChunks_fails_at env binary channel to account e chunks k 0%nat)
        by assumption.
      unfold_m. unfold extend. cbn -[sendArgs firstn]. rewrite Htr.
      rewrite <- ?app_assoc, drop_app_length. reflexivity. }
    rewrite Hevs.
    rewrite !List.filter_app, !commands_app, Hpre, Hcmd, filter_isExec_sent, commands_sent.
    split; [cbn [List.filter isExec app]; rewrite app_nil_r; reflexivity |].
    split; [reflexivity |].
    rewrite !in_app_iff. right. right. right. left. reflexivity.
Qed.

Lemma parseFields_flat (pairs : list (string * string)) :
  forall (tail : list string) (data : gmap string string),
    parseFields (flatFields pairs ++ tail) data
    = parseFields tail (foldr (fun p m => <[p.1 := p.2]> m) data (rev pairs)).
Proof.
  induction pairs as [| [k v] rest IH]; intros tail data; [reflexivity |].
  cbn [flatFields app rev]. rewrite foldr_app. cbn [foldr fst snd].
  change (parseFields (k :: v :: flatFields rest ++ tail) data)
    with (parseFields (flatFields rest ++ tail) (<[k := v]> data)).
  apply IH.
Qed.

Lemma flatFields_app (a b : list (string * string)) :
  flatFields (a ++ b) = flatFields a ++ flatFields b.
Proof.
  induction a as [| [k v] a IH]; [reflexivity |].
  cbn [app flatFields]. rewrite IH. reflexivity.
Qed.

Lemma foldr_insert_other (k : string) (pairs : list (string * string))
    (data : gmap string string) :
  ~ In k (map fst pairs) ->
  foldr (fun p m => <[p.1 := p.2]> m) data pairs !! k = data !! k.
Proof.
  induction pairs as [| [k' v] rest IH]; intros Hno; [reflexivity |].
  cbn [foldr fst snd]. rewrite lookup_insert_ne.
  - apply IH. intros H. apply Hno. right. exact H.
  - intros ->. apply Hno. left. reflexivity.
Qed.

(** X20.  Reading back one of the fields that [processEntry] uses
    ([message], [to], [channel], [accountId]) from the flat list of an
    entry: the field has the value of its last occurrence, it is absent
    exactly when no pair names it, and a name left without a value at the
    end of the list reads as the empty string, while leaving the other
    fields as they were. *)
Theorem parseFields_last_wins (pairs : list (string * string)) (k dangling : string) :
  In k READ_FIELDS ->
  (forall before v after,
      pairs = before ++ (k, v) :: after -> ~ In k (map fst after) ->
      parseFields (flatFields pairs) ∅ !! k = Some v)
  /\ (parseFields (flatFields pairs) ∅ !! k = None <-> ~ In k (map fst pairs))
  /\ parseFields (flatFields pairs ++ [k]) ∅ !! k = Some ""
  /\ (dangling <> k ->
      parseFields (flatFields pairs ++ [dangling]) ∅ !! k
      = parseFields (flatFields pairs) ∅ !! k).
Proof.
  intros _.
  assert (H0 : forall ps : list (string * string),
             parseFields (flatFields ps) ∅
             = foldr (fun p m => <[p.1 := p.2]> m) (∅ : gmap string string) (rev ps)).
  { intros ps. pose proof (parseFields_flat ps [] ∅) as H.
    rewrite app_nil_r in H. exact H. }
  split; [| split; [| split]].
  - intros before v after -> Hno. rewrite H0, rev_app_distr. cbn [rev].
    rewrite <- app_assoc, foldr_app. cbn [app].
    rewrite foldr_insert_other by (rewrite map_rev, <- in_rev; exact Hno).
    cbn [foldr fst snd]. apply lookup_insert_eq.
  - rewrite H0.
    change (foldr _ ∅ (rev pairs)) with (list_to_map (rev pairs) : gmap string string).
    rewrite <- not_elem_of_list_to_map, list_elem_of_In.
    change ((rev pairs).*1) with (map fst (rev pairs)).
    rewrite map_rev, <- in_rev. reflexivity.
  - rewrite parseFields_flat.
    change (parseFields [k] ?m) with (<[k := ""]> m). apply lookup_insert_eq.
  - intros Hne. rewrite parseFields_flat, H0.
    change (parseFields [dangling] ?m) with (<[dangling := ""]> m).
    apply lookup_insert_ne. exact Hne.
Qed.

(** Two values for [message]: the second one is read. *)
Lemma parseFields_last_wins_witness :
  parseFields ["message"; "a"; "to"; "42"; "message"; "b"; "channel"; "telegram"] ∅
    !! "message" = Some "b".
Proof.
  apply (proj1 (parseFields_last_wins
                  [("message", "a"); ("to", "42"); ("message", "b"); ("channel", "telegram")]
                  "message" "agent" ltac:(left; reflexivity))
               [("message", "a"); ("to", "42")] "b" [("channel", "telegram")] eq_refl).
  cbn. intros [H | H]; [discriminate H | exact H].
Defined.

(** ** More on the message splitter *)

Section SplitMore.

Context {char : Type}.
Variable ceqb : char -> char -> bool.
Variable is_ws : char -> bool.
Variable LF : char.
Hypothesis ceqb_eq : forall a b, ceqb a b = true -> a = b.
Hypothesis LF_ws : is_ws LF = true.

Lemma cutAt_zero (sep remaining : list char) :
  cutAt ceqb is_ws sep 0 remaining = None.
Proof.
  unfold cutAt, lastIndexOf.
  destruct (length remaining <? length sep)%nat; [reflexivity |].
  cbn [Nat.min lastIndexOf_down].
  destruct (startsWith ceqb sep (skipn 0 remaining)); reflexivity.
Qed.

(** X21.  With [maxLen = 0] the loop makes no progress: each turn pushes an empty
    chunk and leaves the text as it is, so on a text that is not empty it
    never ends, whatever the fuel. *)
Theorem splitMessage_zero_never_ends (text : list char) (fuel : nat) :
  text <> [] ->
  splitStep ceqb is_ws LF 0 text = ([], text)
  /\ splitLoop ceqb is_ws LF fuel 0 text = None
  /\ splitMessage ceqb is_ws LF text 0 = None.
Proof.
  intros Hne.
  assert (Hstep : splitStep ceqb is_ws LF 0 text = ([], text)).
  { unfold splitStep. rewrite !cutAt_zero. reflexivity. }
  assert (Hloop : forall f, splitLoop ceqb is_ws LF f 0 text = None).
  { induction f as [| f IH]; cbn [splitLoop];
      (destruct text as [| c r]; [congruence |]); cbn [length Nat.leb]; [reflexivity |].
    rewrite Hstep, IH. reflexivity. }
  split; [exact Hstep |]. split; [apply Hloop |].
  unfold splitMessage. destruct text as [| c r]; [congruence |].
  cbn [length Nat.leb]. apply Hloop.
Qed.

Lemma reassembles_content (chunks : list (list char)) (text : list char) :
  reassembles is_ws chunks text ->
  List.filter (fun c => negb (is_ws c)) (concat chunks)
  = List.filter (fun c => negb (is_ws c)) text
  /\ (length (concat chunks) <= length text)%nat.
Proof.
  induction 1 as [| chunk gap chunks rest Hgap _ [IH1 IH2]]; [split; reflexivity |].
  cbn [concat]. rewrite !List.filter_app, IH1. rewrite !length_app.
  assert (Hg : List.filter (fun c => negb (is_ws c)) gap = []).
  { induction Hgap as [| c g Hc _ IHg]; [reflexivity |].
    cbn. rewrite Hc. exact IHg. }
  rewrite Hg. split; [reflexivity | lia].
Qed.

(** X22.  Whatever the positive limit, the splitter ends, and all it drops is
    white space: the characters that are not white space come out in the
    chunks as they came in, in order. *)
Theorem splitMessage_keeps_content (maxLen : nat) (text : list char) :
  (1 <= maxLen)%nat ->
  exists chunks,
    splitMessage ceqb is_ws LF text maxLen = Some chunks
    /\ Forall (fun chunk => (length chunk <= maxLen)%nat) chunks
    /\ List.filter (fun c => negb (is_ws c)) (concat chunks)
       = List.filter (fun c => negb (is_ws c)) text
    /\ (length (concat chunks) <= length text)%nat.
Proof.
  intros Hpos.
  destruct (splitMessage_spec ceqb is_ws LF ceqb_eq LF_ws maxLen text Hpos)
    as [Hshort Hlong].
  destruct (Nat.le_gt_cases (length text) maxLen) as [H | H].
  - exists [text]. rewrite (Hshort H). cbn [concat]. rewrite app_nil_r.
    split; [reflexivity |]. split; [repeat constructor; exact H |].
    split; [reflexivity | lia].
  - destruct (Hlong H) as (chunks & Heq & Hfit & Hre).
    exists chunks. split; [exact Heq |]. split; [exact Hfit |].
    apply reassembles_content, Hre.
Qed.

Lemma startsWith_LF_absent (pat s : list char) :
  (forall c, In c s -> ceqb LF c = false) ->
  startsWith ceqb (LF :: pat) s = false.
Proof.
  intros Hno. destruct s as [| c r]; [reflexivity |].
  cbn [startsWith]. rewrite (Hno c (or_introl eq_refl)). reflexivity.
Qed.

Lemma lastIndexOf_down_none (pat s : list char) (k : nat) :
  (forall i, (i <= k)%nat -> startsWith ceqb pat (skipn i s) = false) ->
  lastIndexOf_down ceqb pat s k = None.
Proof.
  induction k as [| k IH]; intros Hno; cbn [lastIndexOf_down].
  - rewrite (Hno 0%nat) by lia. reflexivity.
  - rewrite (Hno (S k)) by lia. apply IH. intros i Hi. apply Hno. lia.
Qed.

Lemma In_skipn (i : nat) (s : list char) (c : char) : In c (skipn i s) -> In c s.
Proof.
  intros H. rewrite <- (firstn_skipn i s). apply in_or_app. right. exact H.
Qed.

Lemma cutAt_no_LF (pat remaining : list char) (maxLen : nat) :
  (forall c, In c remaining -> ceqb LF c = false) ->
  cutAt ceqb is_ws (LF :: pat) maxLen remaining = None.
Proof.
  intros Hno. unfold cutAt, lastIndexOf.
  destruct (length remaining <? length (LF :: pat))%nat; [reflexivity |].
  rewrite lastIndexOf_down_none; [reflexivity |].
  intros i _. apply startsWith_LF_absent. intros c Hc. apply Hno.
  apply (In_skipn i). exact Hc.
Qed.

Lemma splitLoop_hard_cuts (maxLen : nat) :
  (1 <= maxLen)%nat ->
  forall (fuel : nat) (remaining : list char),
    (length remaining <= fuel)%nat ->
    (forall c, In c remaining -> ceqb LF c = false) ->
    exists chunks,
      splitLoop ceqb is_ws LF fuel maxLen remaining = Some chunks
      /\ concat chunks = remaining
      /\ Forall (fun chunk => length chunk = maxLen) (removelast chunks).
Proof.
  intros Hpos. induction fuel as [| fuel IH]; intros remaining Hfuel Hno.
  - destruct remaining; [| cbn in Hfuel; lia].
    exists []. cbn. repeat split. constructor.
  - cbn [splitLoop].
    destruct (Nat.leb_spec (length remaining) maxLen) as [Hshort | Hlong].
    + destruct remaining as [| c r].
      * exists []. repeat split. constructor.
      * exists [c :: r]. cbn [concat removelast]. rewrite app_nil_r.
        repeat split. constructor.
    + unfold splitStep. rewrite !cutAt_no_LF by exact Hno.
      destruct (IH (skipn maxLen remaining)) as (chunks & Hrun & Hcat & Hlen).
      * rewrite length_skipn. lia.
      * intros c Hc. apply Hno. apply (In_skipn maxLen). exact Hc.
      * rewrite Hrun. exists (firstn maxLen remaining :: chunks).
        split; [reflexivity |]. split.
        -- cbn [concat]. rewrite Hcat. apply firstn_skipn.
        -- destruct chunks as [| chunk chunks']; [constructor |].
           change (removelast (firstn maxLen remaining :: chunk :: chunks'))
             with (firstn maxLen remaining :: removelast (chunk :: chunks')).
           constructor; [| exact Hlen].
           rewrite length_firstn. lia.
Qed.

(** X23.  A text without a line feed is cut at the limit and nowhere else: the
    chunks put end to end are the text, nothing is trimmed, and every chunk
    but the last is exactly [maxLen] long. *)
Theorem splitMessage_hard_cuts (maxLen : nat) (text : list char) :
  (1 <= maxLen)%nat ->
  (forall c, In c text -> ceqb LF c = false) ->
  exists chunks,
    splitMessage ceqb is_ws LF text maxLen = Some chunks
    /\ concat chunks = text
    /\ Forall (fun chunk => length chunk = maxLen) (removelast chunks).
Proof.
  intros Hpos Hno. unfold splitMessage.
  destruct (Nat.leb_spec (length text) maxLen) as [Hshort | Hlong].
  - exists [text]. cbn [concat removelast]. rewrite app_nil_r.
    repeat split. constructor.
  - apply splitLoop_hard_cuts; [exact Hpos | lia | exact Hno].
Qed.

Lemma lastIndexOf_down_at (pat s : list char) (j : nat) :
  startsWith ceqb pat (skipn j s) = true ->
  forall k, (j <= k)%nat ->
    (forall i, (j < i <= k)%nat -> startsWith ceqb pat (skipn i s) = false) ->
    lastIndexOf_down ceqb pat s k = Some j.
Proof.
  intros Hj. induction k as [| k IH]; intros Hle Hno.
  - assert (j = 0)%nat as -> by lia. cbn [lastIndexOf_down]. rewrite Hj. reflexivity.
  - cbn [lastIndexOf_down]. destruct (Nat.eq_dec j (S k)) as [-> | Hne].
    + rewrite Hj. reflexivity.
    + rewrite (Hno (S k)) by lia. apply IH; [lia |]. intros i Hi. apply Hno. lia.
Qed.

Hypothesis LF_LF : ceqb LF LF = true.

(** X24.  A text that opens with a long run of blanks before its first line feed
    gets an empty first chunk: the cut at the line feed keeps the run, and
    [trimEnd] leaves nothing of it. *)
Theorem splitMessage_empty_chunk (maxLen : nat) (gap rest : list char) :
  Forall (fun c => is_ws c = true /\ ceqb LF c = false) gap ->
  (forall c, In c rest -> ceqb LF c = false) ->
  (3 * maxLen < 10 * length gap)%nat ->
  (length gap <= maxLen)%nat ->
  (maxLen < length gap + 1 + length rest)%nat ->
  exists chunks,
    splitMessage ceqb is_ws LF (gap ++ LF :: rest) maxLen = Some ([] :: chunks).
Proof.
  intros Hgap Hrest Hthr Hle Hlong.
  set (text := gap ++ LF :: rest).
  assert (Hlen : length text = (length gap + 1 + length rest)%nat).
  { unfold text. rewrite length_app. cbn [length]. lia. }
  assert (Hskip_lt : forall i, (i < length gap)%nat ->
             exists c r, skipn i text = c :: r /\ ceqb LF c = false).
  { intros i Hi. unfold text. rewrite skipn_app.
    destruct (skipn i gap) as [| c r] eqn:E.
    - apply (f_equal (@length char)) in E. rewrite length_skipn in E. cbn in E. lia.
    - exists c, (r ++ skipn (i - length gap) (LF :: rest)). split; [reflexivity |].
      assert (Hin : In c gap) by (apply (In_skipn i); rewrite E; left; reflexivity).
      rewrite Forall_forall in Hgap. apply list_elem_of_In in Hin. apply Hgap, Hin. }
  assert (Hskip_eq : skipn (length gap) text = LF :: rest).
  { unfold text. rewrite skipn_app, skipn_all, Nat.sub_diag. reflexivity. }
  assert (Hskip_gt : forall i, (length gap < i)%nat ->
             forall c, In c (skipn i text) -> ceqb LF c = false).
  { intros i Hi c Hc. apply Hrest. unfold text in Hc.
    rewrite skipn_app, skipn_all2 in Hc by lia. cbn [app] in Hc.
    replace (i - length gap)%nat with (S (i - length gap - 1)) in Hc by lia.
    cbn [skipn] in Hc. apply (In_skipn (i - length gap - 1)). exact Hc. }
  assert (Hdouble : cutAt ceqb is_ws [LF; LF] maxLen text = None).
  { unfold cutAt, lastIndexOf.
    destruct (length text <? length [LF; LF])%nat; [reflexivity |].
    rewrite lastIndexOf_down_none; [reflexivity |].
    intros i _. destruct (Nat.lt_trichotomy i (length gap)) as [Hi | [-> | Hi]].
    - destruct (Hskip_lt i Hi) as (c & r & -> & Hc). cbn [startsWith]. rewrite Hc.
      reflexivity.
    - rewrite Hskip_eq.
      change (startsWith ceqb [LF; LF] (LF :: rest))
        with (ceqb LF LF && startsWith ceqb [LF] rest).
      rewrite LF_LF. cbn [andb]. apply startsWith_LF_absent. exact Hrest.
    - apply startsWith_LF_absent. apply Hskip_gt, Hi. }
  assert (Hsingle : cutAt ceqb is_ws [LF] maxLen text
                    = Some ([], trimStart is_ws rest)).
  { unfold cutAt, lastIndexOf.
    destruct (Nat.ltb_spec (length text) (length [LF])) as [H | _]; [cbn in H; lia |].
    rewrite (lastIndexOf_down_at [LF] text (length gap)).
    - unfold overThreshold.
      destruct (Nat.ltb_spec (3 * maxLen) (10 * length gap)) as [_ | H]; [| lia].
      f_equal. f_equal.
      + unfold text. rewrite firstn_app, firstn_all, Nat.sub_diag. cbn [firstn].
        rewrite app_nil_r. unfold trimEnd.
        assert (Hall : trimStart is_ws (rev gap) = []).
        { apply trimStart_nil_iff. rewrite forallb_rev. apply forallb_forall.
          intros c Hc. rewrite Forall_forall in Hgap.
          apply list_elem_of_In in Hc. apply Hgap, Hc. }
        rewrite Hall. reflexivity.
      + unfold text. rewrite skipn_app, skipn_all2 by (cbn [length]; lia).
        replace (length gap + length [LF] - length gap)%nat with 1%nat
          by (cbn [length]; lia).
        reflexivity.
    - rewrite Hskip_eq. cbn [startsWith]. rewrite LF_LF. reflexivity.
    - cbn [length]. lia.
    - intros i Hi. apply startsWith_LF_absent. apply Hskip_gt. lia. }
  unfold splitMessage.
  destruct (Nat.leb_spec (length text) maxLen) as [H | _]; [lia |].
  rewrite Hlen. replace (length gap + 1 + length rest)%nat
    with (S (length gap + length rest)) by lia.
  cbn [splitLoop].
  destruct (Nat.leb_spec (length text) maxLen) as [H | _]; [lia |].
  unfold splitStep. rewrite Hdouble, Hsingle.
  destruct (splitLoop_spec ceqb is_ws LF ceqb_eq LF_ws maxLen
              (length gap + length rest) (trimStart is_ws rest))
    as (chunks & Hrun & _); [lia | |].
  - pose proof (trimStart_length is_ws rest). lia.
  - rewrite Hrun. exists chunks. reflexivity.
Qed.

End SplitMore.

Lemma N_eqb_eq_true (a b : N) : N.eqb a b = true -> a = b.
Proof. apply N.eqb_eq. Qed.

Lemma splitMessage_zero_never_ends_witness :
  splitLoop N.eqb js_is_ws js_LF 1000 0 [72; 105]%N = None
  /\ splitMessage_js [72; 105]%N 0 = None.
Proof.
  apply (proj2 (splitMessage_zero_never_ends N.eqb js_is_ws js_LF [72; 105]%N 1000
                  ltac:(discriminate))).
Defined.

(** Two words and a paragraph break, with the limit 4. *)
Lemma splitMessage_keeps_content_witness :
  exists chunks,
    splitMessage_js [72; 105; 10; 10; 72; 111]%N 4 = Some chunks
    /\ Forall (fun chunk => (length chunk <= 4)%nat) chunks
    /\ List.filter (fun c => negb (js_is_ws c)) (concat chunks)
       = List.filter (fun c => negb (js_is_ws c)) [72; 105; 10; 10; 72; 111]%N
    /\ (length (concat chunks) <= length [72; 105; 10; 10; 72; 111]%N)%nat.
Proof.
  apply (splitMessage_keeps_content N.eqb js_is_ws js_LF N_eqb_eq_true eq_refl
           4 [72; 105; 10; 10; 72; 111]%N).
  apply Nat.leb_le. reflexivity.
Defined.

(** Five letters and the limit 2. *)
Lemma splitMessage_hard_cuts_witness :
  exists chunks,
    splitMessage_js [97; 98; 99; 100; 101]%N 2 = Some chunks
    /\ concat chunks = [97; 98; 99; 100; 101]%N
    /\ Forall (fun chunk => length chunk = 2%nat) (removelast chunks).
Proof.
  apply (splitMessage_hard_cuts N.eqb js_is_ws js_LF 2 [97; 98; 99; 100; 101]%N).
  - apply Nat.leb_le. reflexivity.
  - intros c Hc. repeat (destruct Hc as [<- | Hc]; [reflexivity |]). destruct Hc.
Defined.

(** Four blanks, a line feed and eight letters, with the limit 10. *)
Lemma splitMessage_empty_chunk_witness :
  exists chunks,
    splitMessage_js ([32; 32; 32; 32]%N ++ 10%N :: [97; 98; 99; 100; 101; 102; 103; 104]%N)
                    10
    = Some ([] :: chunks).
Proof.
  apply (splitMessage_empty_chunk N.eqb js_is_ws js_LF N_eqb_eq_true eq_refl eq_refl
           10 [32; 32; 32; 32]%N [97; 98; 99; 100; 101; 102; 103; 104]%N).
  - repeat (apply List.Forall_cons; [split; reflexivity |]). apply List.Forall_nil.
  - intros c Hc. repeat (destruct Hc as [<- | Hc]; [reflexivity |]). destruct Hc.
  - apply Nat.ltb_lt. reflexivity.
  - apply Nat.leb_le. reflexivity.
  - apply Nat.ltb_lt. reflexivity.
Defined.

(** ** The resolved configuration *)

Import Config.

Lemma trimStart_fixed {char : Type} (is_ws : char -> bool) (s : list char) :
  match s with c :: _ => is_ws c = false | [] => True end ->
  trimStart is_ws s = s.
Proof. destruct s as [| c r]; [reflexivity |]. cbn. intros ->. reflexivity. Qed.

Lemma trimStart_head {char : Type} (is_ws : char -> bool) (s : list char) :
  match trimStart is_ws s with c :: _ => is_ws c = false | [] => True end.
Proof.
  induction s as [| c r IH]; cbn; [exact I |].
  destruct (is_ws c) eqn:E; [exact IH | exact E].
Qed.

Lemma trimStart_suffix {char : Type} (is_ws : char -> bool) (s : list char) :
  exists gap, s = gap ++ trimStart is_ws s.
Proof.
  induction s as [| c r [gap IH]]; [exists []; reflexivity |].
  cbn. destruct (is_ws c); [exists (c :: gap); cbn; congruence | exists []; reflexivity].
Qed.

(** [trimEnd] keeps the head of a text that does not start with white
    space. *)
Lemma trimEnd_head {char : Type} (is_ws : char -> bool) (s : list char) :
  match s with c :: _ => is_ws c = false | [] => True end ->
  match trimEnd is_ws s with c :: _ => is_ws c = false | [] => True end.
Proof.
  intros Hs. unfold trimEnd.
  destruct (trimStart_suffix is_ws (rev s)) as [gap Hgap].
  apply (f_equal (@rev char)) in Hgap. rewrite rev_involutive, rev_app_distr in Hgap.
  destruct (rev (trimStart is_ws (rev s))) as [| c r] eqn:E; [exact I |].
  rewrite Hgap in Hs. exact Hs.
Qed.

Lemma trim_chars_idempotent {char : Type} (is_ws : char -> bool) (s : list char) :
  trimEnd is_ws (trimStart is_ws (trimEnd is_ws (trimStart is_ws s)))
  = trimEnd is_ws (trimStart is_ws s).
Proof.
  set (m := trimStart is_ws s).
  rewrite (trimStart_fixed is_ws (trimEnd is_ws m))
    by (apply trimEnd_head, trimStart_head).
  unfold trimEnd. rewrite rev_involutive.
  rewrite (trimStart_fixed is_ws (trimStart is_ws (rev m))) by apply trimStart_head.
  reflexivity.
Qed.

Lemma trim_idempotent (s : string) : Js.trim (Js.trim s) = Js.trim s.
Proof.
  unfold Js.trim. rewrite list_ascii_of_string_of_list_ascii.
  rewrite trim_chars_idempotent. reflexivity.
Qed.

Lemma nonEmpty_true (s : string) : nonEmpty s = true <-> s <> "".
Proof.
  unfold nonEmpty. destruct (String.eqb_spec s ""); cbn; split; congruence.
Qed.

Lemma trimmedEnv_spec (v : option string) (s : string) :
  trimmedEnv v = Some s -> s <> "".
Proof.
  destruct v as [x |]; cbn; [| discriminate].
  destruct (nonEmpty (Js.trim x)) eqn:E; [| discriminate].
  intros [= <-]. apply nonEmpty_true, E.
Qed.

Lemma trimmedProp_spec (v : option Js.Value) (s : string) :
  trimmedProp v = Some s -> s <> "".
Proof.
  destruct v as [[| | | x | |] |]; cbn; try discriminate.
  destruct (nonEmpty (Js.trim x)) eqn:E; [| discriminate].
  intros [= <-]. apply nonEmpty_true, E.
Qed.

Lemma stringProp_spec (v : option Js.Value) (s : string) :
  stringProp v = Some s -> s <> "".
Proof.
  destruct v as [[| | | x | |] |]; cbn; try discriminate.
  destruct (nonEmpty x) eqn:E; [| discriminate].
  intros [= <-]. apply nonEmpty_true, E.
Qed.

(** X25.  Whatever the environment and the plugin configuration hold, the
    resolved configuration can be used: the timeout is positive, and the
    broker URL, the consumer group and the consumer name are not empty.
    Agents named in [REDIS_BRIDGE_AGENTS] come out trimmed and not empty,
    and silence the [agents] of the plugin configuration. *)
Theorem resolveConfig_usable (penv : ProcessEnv) (pluginConfig : PluginConfig) :
  0 < timeoutSeconds (resolveConfig penv pluginConfig)
  /\ redisUrl (resolveConfig penv pluginConfig) <> ""
  /\ consumerGroup (resolveConfig penv pluginConfig) <> ""
  /\ consumerName (resolveConfig penv pluginConfig) <> ""
  /\ (forall agentsEnv,
        REDIS_BRIDGE_AGENTS penv = Some agentsEnv -> Js.trim agentsEnv <> "" ->
        Forall (fun a => a <> "" /\ Js.trim a = a)
               (agents (resolveConfig penv pluginConfig))
        /\ forall other : PluginConfig,
             agents (resolveConfig penv other)
             = agents (resolveConfig penv pluginConfig)).
Proof.
  unfold resolveConfig. cbn [timeoutSeconds redisUrl consumerGroup consumerName agents].
  split; [| split; [| split; [| split]]].
  - destruct (prop pluginConfig "timeoutSeconds") as [[| | n | | |] |];
      try (unfold DEFAULT_TIMEOUT_SECONDS; lia).
    destruct (Z.ltb_spec 0 n); [assumption | unfold DEFAULT_TIMEOUT_SECONDS; lia].
  - unfold firstOf.
    destruct (trimmedEnv (REDIS_URL penv)) as [s |] eqn:E;
      [exact (trimmedEnv_spec _ _ E) |].
    destruct (stringProp (prop pluginConfig "redisUrl")) as [s |] eqn:E';
      [exact (stringProp_spec _ _ E') | discriminate].
  - destruct (trimmedProp (prop pluginConfig "consumerGroup")) as [s |] eqn:E;
      [exact (trimmedProp_spec _ _ E) | discriminate].
  - destruct (trimmedProp (prop pluginConfig "consumerName")) as [s |] eqn:E;
      [exact (trimmedProp_spec _ _ E) |].
    cbn [default]. unfold DEFAULT_CONSUMER_NAME.
    change ("clawdbot-" +:+ string_of_Z (pid penv))
      with (String "c" ("lawdbot-" +:+ string_of_Z (pid penv))).
    discriminate.
  - intros agentsEnv Henv Hne. rewrite Henv.
    apply nonEmpty_true in Hne. rewrite Hne. split; [| reflexivity].
    apply Forall_forall. intros a Ha. apply list_elem_of_In in Ha.
    apply filter_In in Ha as [Hin Hnon]. split; [apply nonEmpty_true, Hnon |].
    apply in_map_iff in Hin as (x & <- & _). apply trim_idempotent.
Qed.

(** Padded names and an empty entry in the variable. *)
Lemma resolveConfig_usable_witness :
  Forall (fun a => a <> "" /\ Js.trim a = a)
         (agents (resolveConfig (sampleProcessEnv (Some " agent1 , , agent2 ")) None))
  /\ forall other : PluginConfig,
       agents (resolveConfig (sampleProcessEnv (Some " agent1 , , agent2 ")) other)
       = agents (resolveConfig (sampleProcessEnv (Some " agent1 , , agent2 ")) None).
Proof.
  apply (proj2 (proj2 (proj2 (proj2
           (resolveConfig_usable (sampleProcessEnv (Some " agent1 , , agent2 ")) None))))
         " agent1 , , agent2 " eq_refl).
  vm_compute. discriminate.
Defined.

Lemma list_ascii_of_string_app (a b : string) :
  list_ascii_of_string (a +:+ b) = list_ascii_of_string a ++ list_ascii_of_string b.
Proof.
  induction a as [| c a IH]; [reflexivity |].
  change (String c a +:+ b) with (String c (a +:+ b)). cbn. rewrite IH. reflexivity.
Qed.

Lemma split_comma_piece (n rest : string) :
  ~ In ","%char (list_ascii_of_string n) ->
  split_comma (n +:+ "," +:+ rest) = n :: split_comma rest.
Proof.
  induction n as [| c n IH]; intros Hno.
  - reflexivity.
  - change (String c n +:+ "," +:+ rest) with (String c (n +:+ "," +:+ rest)).
    cbn [split_comma].
    destruct (Ascii.eqb_spec c ",") as [-> | _]; [exfalso; apply Hno; left; reflexivity |].
    rewrite IH by (intros H; apply Hno; right; exact H). reflexivity.
Qed.

Lemma split_comma_whole (n : string) :
  ~ In ","%char (list_ascii_of_string n) -> split_comma n = [n].
Proof.
  induction n as [| c n IH]; intros Hno; [reflexivity |].
  cbn [split_comma].
  destruct (Ascii.eqb_spec c ",") as [-> | _]; [exfalso; apply Hno; left; reflexivity |].
  rewrite IH by (intros H; apply Hno; right; exact H). reflexivity.
Qed.

Lemma split_comma_concat (names : list string) :
  names <> [] ->
  Forall (fun n => ~ In ","%char (list_ascii_of_string n)) names ->
  split_comma (String.concat "," names) = names.
Proof.
  induction names as [| n rest IH]; intros Hne Hall; [congruence |].
  apply Forall_cons in Hall as [Hn Hrest].
  destruct rest as [| n' rest'].
  - cbn. apply split_comma_whole, Hn.
  - change (String.concat "," (n :: n' :: rest'))
      with (n +:+ "," +:+ String.concat "," (n' :: rest')).
    rewrite split_comma_piece by exact Hn. rewrite IH; [reflexivity | discriminate | exact Hrest].
Qed.

(** X26.  Names written into [REDIS_BRIDGE_AGENTS] with commas in between come
    back as the agents, in order, and are the agents that are bridged. *)
Theorem resolveConfig_agents_round_trip (penv : ProcessEnv) (pluginConfig : PluginConfig)
    (names : list string) :
  names <> [] ->
  Forall cleanName names ->
  REDIS_BRIDGE_AGENTS penv = Some (String.concat "," names) ->
  agents (resolveConfig penv pluginConfig) = names
  /\ forall a, isEngineAgent a (resolveConfig penv pluginConfig) = true <-> In a names.
Proof.
  intros Hne Hclean Henv.
  assert (Hagents : agents (resolveConfig penv pluginConfig) = names).
  { unfold resolveConfig. cbn [agents]. rewrite Henv.
    assert (Htruthy : nonEmpty (Js.trim (String.concat "," names)) = true).
    { apply nonEmpty_true. rewrite trim_empty_iff.
      destruct names as [| n rest]; [congruence |].
      apply Forall_cons in Hclean as [(Hn & Htrim & _) _].
      assert (Hnw : forallb ascii_is_ws (list_ascii_of_string n) = false).
      { destruct (forallb ascii_is_ws (list_ascii_of_string n)) eqn:E; [| reflexivity].
        apply trim_empty_iff in E. congruence. }
      destruct rest as [| n' rest'].
      - cbn [String.concat]. rewrite Hnw. discriminate.
      - change (String.concat "," (n :: n' :: rest'))
          with (n +:+ "," +:+ String.concat "," (n' :: rest')).
        rewrite list_ascii_of_string_app, forallb_app, Hnw. discriminate. }
    rewrite Htruthy.
    rewrite split_comma_concat;
      [| exact Hne
       | eapply List.Forall_impl; [| exact Hclean]; intros n (_ & _ & H); exact H].
    clear Henv Htruthy Hne. induction Hclean as [| n rest (Hn & Htrim & _) _ IH];
      [reflexivity |].
    cbn [map List.filter]. rewrite Htrim.
    apply nonEmpty_true in Hn. rewrite Hn, IH. reflexivity. }
  split; [exact Hagents |].
  intros a. unfold isEngineAgent. rewrite Hagents, existsb_exists. split.
  - intros (x & Hin & Heq). apply String.eqb_eq in Heq. subst x. exact Hin.
  - intros Hin. exists a. split; [exact Hin | apply String.eqb_refl].
Qed.

(** Three names in the variable, and another one in the plugin configuration. *)
Lemma resolveConfig_agents_round_trip_witness :
  agents (resolveConfig (sampleProcessEnv (Some "agent1,agent2,agent3"))
            (Some [("agents", Js.Arr [Js.Str "config-agent"])]))
  = ["agent1"; "agent2"; "agent3"]
  /\ forall a,
       isEngineAgent a (resolveConfig (sampleProcessEnv (Some "agent1,agent2,agent3"))
                          (Some [("agents", Js.Arr [Js.Str "config-agent"])])) = true
       <-> In a ["agent1"; "agent2"; "agent3"].
Proof.
  apply (resolveConfig_agents_round_trip (sampleProcessEnv (Some "agent1,agent2,agent3"))
           (Some [("agents", Js.Arr [Js.Str "config-agent"])])
           ["agent1"; "agent2"; "agent3"]).
  - discriminate.
  - repeat (apply List.Forall_cons;
            [split; [discriminate | split; [vm_compute; reflexivity |]];
             vm_compute; intros H;
             repeat (destruct H as [H | H]; [discriminate H |]); exact H |]).
    apply List.Forall_nil.
  - reflexivity.
Defined.
